(** * vfh_star: the traversability map generator

    A shallow embedding of [TraversabilityMapGenerator] (the second part of
    src/src/TreeSearch.h) and the properties of its map pipeline:
    classification of the elevation grid, conservative interpolation, scan
    ingest, region stamping and the grid dump.

    C++ [double] is IEEE binary64, the primitive [float] of Rocq; C++ [int]
    is written on [Z] (no sum below leaves the [int] range for a point of a
    grid).  Methods that mutate a grid are computations of a small state and
    exception monad; a loop over [double]s carries fuel. *)

From Stdlib Require Import ZArith Bool List.
From Stdlib Require Import Floats.PrimFloat Floats.FloatOps Floats.SpecFloat.
From Stdlib Require Import Floats.FloatAxioms.
From stdpp Require Import base gmap list strings.

Set Warnings "-inexact-float".

Local Open Scope Z_scope.

(** ** C++ doubles *)

Module Double.

Definition double := float.

(** [std::numeric_limits<double>::max()] *)
Definition DBL_MAX : double := 0x1.fffffffffffffp+1023%float.
(** [std::numeric_limits<double>::infinity()] *)
Definition INFINITY : double := PrimFloat.infinity.
(** [M_PI] *)
Definition M_PI : double := 0x1.921fb54442d18p+1%float.

Definition fabs (a : double) : double := PrimFloat.abs a.
Definition sqrt (a : double) : double := PrimFloat.sqrt a.
Definition neg (a : double) : double := PrimFloat.opp a.
Definition add (a b : double) : double := PrimFloat.add a b.
Definition sub (a b : double) : double := PrimFloat.sub a b.
Definition mul (a b : double) : double := PrimFloat.mul a b.
Definition div (a b : double) : double := PrimFloat.div a b.

(** The comparisons of IEEE 754: every one is false on a NaN. *)
Definition eq (a b : double) : bool := PrimFloat.eqb a b.
Definition lt (a b : double) : bool := PrimFloat.ltb a b.
Definition le (a b : double) : bool := PrimFloat.leb a b.
Definition gt (a b : double) : bool := PrimFloat.ltb b a.

(** Conversion of an [int] to [double] (exact). *)
Definition of_int (z : Z) : double :=
  if z <? 0 then PrimFloat.opp (PrimFloat.of_uint63 (Uint63Axioms.of_Z (- z)))
  else PrimFloat.of_uint63 (Uint63Axioms.of_Z z).

Definition INT_MIN : Z := - 2 ^ 31.
Definition INT_MAX : Z := 2 ^ 31 - 1.

Definition in_int_range (z : Z) : option Z :=
  if (INT_MIN <=? z) && (z <=? INT_MAX) then Some z else None.

(** Conversion of a [double] to [int]: truncation towards zero; the
    conversion of a NaN, an infinity or a value outside the range of [int]
    is undefined ([None]). *)
Definition to_int (a : double) : option Z :=
  match Prim2SF a with
  | S754_zero _ => Some 0
  | S754_finite s m e =>
      let mag := Z.shiftl (Z.pos m) e in
      in_int_range (if s then - mag else mag)
  | _ => None
  end.

(** [floor] followed by the conversion to [int]. *)
Definition floor_to_int (a : double) : option Z :=
  match Prim2SF a with
  | S754_zero _ => Some 0
  | S754_finite s m e =>
      in_int_range (Z.shiftl (if s then Z.neg m else Z.pos m) e)
  | _ => None
  end.

End Double.

Import Double.

#[global] Arguments Double.fabs : simpl never.
#[global] Arguments Double.sqrt : simpl never.
#[global] Arguments Double.neg : simpl never.
#[global] Arguments Double.add : simpl never.
#[global] Arguments Double.sub : simpl never.
#[global] Arguments Double.mul : simpl never.
#[global] Arguments Double.div : simpl never.
#[global] Arguments Double.eq : simpl never.
#[global] Arguments Double.lt : simpl never.
#[global] Arguments Double.le : simpl never.
#[global] Arguments Double.gt : simpl never.

Declare Scope double_scope.
Delimit Scope double_scope with D.
Bind Scope double_scope with double.
Infix "+" := Double.add : double_scope.
Infix "-" := Double.sub : double_scope.
Infix "*" := Double.mul : double_scope.
Infix "/" := Double.div : double_scope.
Notation "- x" := (Double.neg x) : double_scope.
Infix "==" := Double.eq (at level 70, no associativity) : double_scope.
Infix "<?" := Double.lt : double_scope.
Infix "<=?" := Double.le : double_scope.
Infix ">?" := Double.gt : double_scope.

(** ** Eigen vectors *)

Record Vector3d := mkVector3d { v3x : double; v3y : double; v3z : double }.

Definition Vector2i : Type := Z * Z.

Definition UnitY : Vector3d := mkVector3d 0%float 1%float 0%float.

Definition v3add (a b : Vector3d) : Vector3d :=
  mkVector3d (v3x a + v3x b)%D (v3y a + v3y b)%D (v3z a + v3z b)%D.
Definition v3sub (a b : Vector3d) : Vector3d :=
  mkVector3d (v3x a - v3x b)%D (v3y a - v3y b)%D (v3z a - v3z b)%D.
Definition v3scale (a : Vector3d) (k : double) : Vector3d :=
  mkVector3d (v3x a * k)%D (v3y a * k)%D (v3z a * k)%D.
Definition v3div (a : Vector3d) (k : double) : Vector3d :=
  mkVector3d (v3x a / k)%D (v3y a / k)%D (v3z a / k)%D.
Definition dot (a b : Vector3d) : double :=
  (v3x a * v3x b + v3y a * v3y b + v3z a * v3z b)%D.
Definition norm (a : Vector3d) : double := Double.sqrt (dot a a).
(** [Vector3d::normalize()] *)
Definition normalize (a : Vector3d) : Vector3d := v3div a (norm a).

(** ** The state and exception monad *)

Inductive exn : Type :=
| runtime_error (what : string)   (* [throw std::runtime_error(what)] *)
| out_of_range                    (* the bounds check of [Grid::getEntry] *)
| assertion_failed                (* a failed [assert] *)
| undefined_behaviour.            (* undefined in C++ *)

Inductive outcome (S A : Type) : Type :=
| Ok (a : A) (s : S)        (* normal return *)
| Throw (e : exn) (s : S)   (* an exception leaves, the state is as it was left *)
| Timeout.                  (* the fuel of a loop ran out *)
Arguments Ok {S A} a s.
Arguments Throw {S A} e s.
Arguments Timeout {S A}.

Definition M (S A : Type) : Type := S -> outcome S A.

Definition ret {S A} (a : A) : M S A := fun s => Ok a s.
Definition bind {S A B} (m : M S A) (k : A -> M S B) : M S B :=
  fun s => match m s with
           | Ok a s' => k a s'
           | Throw e s' => Throw e s'
           | Timeout => Timeout
           end.
Definition throw {S A} (e : exn) : M S A := fun s => Throw e s.
Definition timeout {S A} : M S A := fun _ => Timeout.
Definition get {S} : M S S := fun s => Ok s s.
Definition put {S} (s : S) : M S unit := fun _ => Ok tt s.
Definition modify {S} (f : S -> S) : M S unit := fun s => Ok tt (f s).

Declare Scope monad_scope.
Delimit Scope monad_scope with monad.
Notation "x <- m ;; k" := (bind m (fun x => k))
  (at level 20, m at level 99, k at level 200, only parsing) : monad_scope.
Notation "m ;; k" := (bind m (fun _ => k))
  (at level 100, k at level 200, right associativity, only parsing) : monad_scope.
Local Open Scope monad_scope.

(** A checked read: [None] raises [e]. *)
Definition check {S A} (e : exn) (o : option A) : M S A :=
  match o with Some a => ret a | None => throw e end.

(** Run [m] on a part of the state. *)
Definition zoom {S T A} (proj : S -> T) (upd : T -> S -> S) (m : M T A) : M S A :=
  fun s => match m (proj s) with
           | Ok a t => Ok a (upd t s)
           | Throw e t => Throw e (upd t s)
           | Timeout => Timeout
           end.

(** A block with a local variable of type [L], initialised to [init]; the
    block returns the final value of the local. *)
Definition with_local {S L} (init : L) (m : M (S * L) unit) : M S L :=
  fun s => match m (s, init) with
           | Ok _ (s', l) => Ok l s'
           | Throw e (s', _) => Throw e s'
           | Timeout => Timeout
           end.
Definition set_local {S L} (l : L) : M (S * L) unit := modify (fun sl => (fst sl, l)).

(** [for (auto x : l) body(x)] *)
Fixpoint for_each {S X} (l : list X) (body : X -> M S unit) : M S unit :=
  match l with
  | [] => ret tt
  | x :: l' => body x ;; for_each l' body
  end.

(** [for (int x = lo; x < hi; x++) body(x)] and its [x <= hi] form *)
Definition for_int_lt {S} (lo hi : Z) (body : Z -> M S unit) : M S unit :=
  for_each (seqZ lo (hi - lo)) body.
Definition for_int_le {S} (lo hi : Z) (body : Z -> M S unit) : M S unit :=
  for_each (seqZ lo (hi + 1 - lo)) body.

(** [for (double x = lo; x <= hi; x += step) body(x)]: the loop need not
    end (the sum absorbs [step] for a large [x]), so it runs on fuel. *)
Fixpoint for_double_le {S} (fuel : nat) (x hi step : double)
    (body : double -> M S unit) : M S unit :=
  if (x <=? hi)%D then
    match fuel with
    | O => timeout
    | Datatypes.S fuel' => body x ;; for_double_le fuel' (x + step)%D hi step body
    end
  else ret tt.

(** ** The data model *)

(** Modelled from the spec: the enum [Traversability], whose declaration
    is not part of the sources; the classification of a cell of the
    traversability grid, four tags. *)
Inductive Traversability : Type :=
| UNCLASSIFIED
| TRAVERSABLE
| OBSTACLE
| UNKNOWN_OBSTACLE.

#[global] Instance Traversability_eq_dec : EqDecision Traversability.
Proof. solve_decision. Defined.

#[global] Instance Traversability_inhabited : Inhabited Traversability :=
  populate UNCLASSIFIED.

(** [entry == UNCLASSIFIED || entry == UNKNOWN_OBSTACLE] *)
Definition is_unknown (t : Traversability) : bool :=
  match t with
  | UNCLASSIFIED | UNKNOWN_OBSTACLE => true
  | TRAVERSABLE | OBSTACLE => false
  end.

(** Modelled from the spec: the cell of the elevation grid, [ElevationEntry],
    whose class is not part of the sources.  A cell keeps its measurement
    count, minimum, maximum and median and its interpolated flag; the source
    keeps the insertion history ([heights]). *)
Record ElevationEntry : Type := mkEntry {
  heights : list double;
  getMeasurementCount : Z;
  getMinimum : double;
  getMaximum : double;
  getMedian : double;
  isInterpolated : bool
}.

(** The sentinel of a cell that has no maximum. *)
Definition NO_MAXIMUM : double := (- DBL_MAX)%D.

(** Modelled from the spec: the empty cell, count 0 and the sentinel as its
    maximum. *)
Definition empty_entry : ElevationEntry :=
  mkEntry [] 0 DBL_MAX NO_MAXIMUM 0%float false.

#[global] Instance ElevationEntry_inhabited : Inhabited ElevationEntry :=
  populate empty_entry.

(** [entry.getMeasurementCount()] read as a condition *)
Definition measured (e : ElevationEntry) : bool :=
  negb (getMeasurementCount e =? 0).

(** The history of a cell has one height per measurement. *)
Definition entry_wf (e : ElevationEntry) : Prop :=
  getMeasurementCount e = Z.of_nat (length (heights e)).

(** Modelled from the spec: the grid [Grid<T>], whose template is not part
    of the sources: width and height in cells, the resolution in meters per
    cell, the world position of the centre and the cells.  A cell that the
    map does not hold has the empty value of [T]. *)
Record Grid (T : Type) : Type := mkGrid {
  getWidth : Z;
  getHeight : Z;
  getGridResolution : double;
  getGridPosition : Vector3d;
  cells : gmap (Z * Z) T
}.
Arguments mkGrid {T} _ _ _ _ _.
Arguments getWidth {T} _.
Arguments getHeight {T} _.
Arguments getGridResolution {T} _.
Arguments getGridPosition {T} _.
Arguments cells {T} _.

Abbreviation ElevationGrid := (Grid ElevationEntry).
Abbreviation TraversabilityGrid := (Grid Traversability).

Section GridOps.
Context {T : Type} `{Inhabited T}.

(** Modelled from the spec: [in_grid(ix, iy)]. *)
Definition inGrid (g : Grid T) (p : Vector2i) : bool :=
  (0 <=? p.1) && (p.1 <? getWidth g) && (0 <=? p.2) && (p.2 <? getHeight g).

(** The cell at [p], whether or not [p] is in the grid. *)
Definition cell (g : Grid T) (p : Vector2i) : T := cells g !!! p.

(** Modelled from the spec: [entry(ix, iy)], read; the access is
    bounds-checked. *)
Definition getEntry (g : Grid T) (p : Vector2i) : option T :=
  if inGrid g p then Some (cell g p) else None.

(** Modelled from the spec: [entry(ix, iy)], assigned through the
    reference. *)
(** The grid with [v] in the cell [p]. *)
Definition with_cell (g : Grid T) (p : Vector2i) (v : T) : Grid T :=
  mkGrid (getWidth g) (getHeight g) (getGridResolution g)
    (getGridPosition g) (<[p := v]> (cells g)).
Definition setEntry (g : Grid T) (p : Vector2i) (v : T) : option (Grid T) :=
  if inGrid g p then Some (with_cell g p v) else None.

(** Modelled from the spec: the position of the grid is its origin. *)
Definition setGridPosition (pos : Vector3d) (g : Grid T) : Grid T :=
  mkGrid (getWidth g) (getHeight g) (getGridResolution g) pos (cells g).

(** Modelled from the spec: [get_grid_point(p)], the index
    [floor((p - origin)/r + (W/2, H/2))] when it is in the grid. *)
Definition getGridPoint (g : Grid T) (p_w : Vector3d) : option Vector2i :=
  let r := getGridResolution g in
  let o := getGridPosition g in
  match floor_to_int ((v3x p_w - v3x o) / r + of_int (getWidth g) / 2%float)%D,
        floor_to_int ((v3y p_w - v3y o) / r + of_int (getHeight g) / 2%float)%D with
  | Some x, Some y => if inGrid g (x, y) then Some (x, y) else None
  | _, _ => None
  end.

(** The two accesses as computations. *)
Definition readEntry {S} (g : Grid T) (p : Vector2i) : M S T :=
  check out_of_range (getEntry g p).
Definition writeEntry (p : Vector2i) (v : T) : M (Grid T) unit :=
  g <- get ;;
  g' <- check out_of_range (setEntry g p v) ;;
  put g'.

(** The points of a grid in the order of the two loops over it. *)
Definition grid_points (g : Grid T) : list Vector2i :=
  flat_map (fun x => map (fun y => (x, y)) (seqZ 0 (getHeight g - 0)))
    (seqZ 0 (getWidth g - 0)).

(** Writing [F q] to every cell [q] of a list. *)
Definition fill (F : Vector2i -> T) (g : Grid T) (qs : list Vector2i) : Grid T :=
  foldl (fun g q => with_cell g q (F q)) g qs.

Definition same_size {U} (g : Grid T) (g' : Grid U) : Prop :=
  getWidth g = getWidth g' /\ getHeight g = getHeight g'.
End GridOps.

(** ** Classification: [updateTraversabilityGrid] *)

Section Classification.
(** the member [maxStepSize] *)
Variable maxStepSize : double.

(** The height that a cell of the 3x3 block is compared with; [None] for
    the cell that the loop skips ([continue]). *)
Definition neighbourHeight (neighbourEntry : ElevationEntry) : option double :=
  if measured neighbourEntry then
    (* use real measurement if available *)
    Some (getMedian neighbourEntry)
  else if (getMaximum neighbourEntry == NO_MAXIMUM)%D then None
  else Some (getMinimum neighbourEntry).

(** The body of the two loops over the 3x3 block, at the offset [(x, y)];
    the local variable is [cl]. *)
Definition compareNeighbour (p : Vector2i) (elGrid : ElevationGrid)
    (curHeight : double) (x y : Z) : M (TraversabilityGrid * Traversability) unit :=
  let rx := p.1 + x in
  let ry := p.2 + y in
  if inGrid elGrid (rx, ry) then
    neighbourEntry <- readEntry elGrid (rx, ry) ;;
    match neighbourHeight neighbourEntry with
    | None => ret tt   (* continue *)
    | Some nh =>
        (* TODO correct formula *)
        if (fabs (nh - curHeight) >? maxStepSize)%D
        then set_local OBSTACLE
        else ret tt
    end
  else ret tt.

Definition testNeighbourEntry (p : Vector2i) (elGrid : ElevationGrid)
  : M TraversabilityGrid unit :=
  if negb (inGrid elGrid p) then ret tt
  else
    entry <- readEntry elGrid p ;;
    if negb (measured entry) && (getMaximum entry == NO_MAXIMUM)%D then
      writeEntry p UNCLASSIFIED
    else
      let curHeight :=
        if negb (measured entry) then getMaximum entry else getMedian entry in
      let cl0 :=
        if negb (measured entry) then UNKNOWN_OBSTACLE else TRAVERSABLE in
      cl <- with_local cl0
        (for_int_le (-1) 1 (fun x =>
           for_int_le (-1) 1 (fun y =>
             compareNeighbour p elGrid curHeight x y))) ;;
      writeEntry p cl.

Definition updateTraversabilityGrid (elGrid : ElevationGrid)
  : M TraversabilityGrid unit :=
  modify (setGridPosition (getGridPosition elGrid)) ;;
  for_int_lt 0 (getWidth elGrid) (fun x =>
    for_int_lt 0 (getHeight elGrid) (fun y =>
      testNeighbourEntry (x, y) elGrid)).

(** *** The rule of the specification, cell by cell *)

(** The eight neighbours of a cell, and the 3x3 block around it in the
    order of the two loops. *)
Definition offsets3 : list Z := [-1; 0; 1].
Definition block (p : Vector2i) : list Vector2i :=
  flat_map (fun x => map (fun y => (p.1 + x, p.2 + y)) offsets3) offsets3.
Definition neighbours8 (p : Vector2i) : list Vector2i :=
  filter (fun q => q <> p) (block p).

(** Does the cell [q] raise a step higher than [maxStepSize] against
    [curHeight]?  A cell outside the grid or without maximum raises
    none. *)
Definition step_too_high (elGrid : ElevationGrid) (curHeight : double)
    (q : Vector2i) : bool :=
  match getEntry elGrid q with
  | Some n =>
      match neighbourHeight n with
      | Some nh => (fabs (nh - curHeight) >? maxStepSize)%D
      | None => false
      end
  | None => false
  end.

(** The class of a cell from the cells [around] it. *)
Definition classify_from (around : Vector2i -> list Vector2i)
    (elGrid : ElevationGrid) (p : Vector2i) : Traversability :=
  let c := cell elGrid p in
  if negb (measured c) && (getMaximum c == NO_MAXIMUM)%D then UNCLASSIFIED
  else
    let curHeight := if measured c then getMedian c else getMaximum c in
    let tentative := if measured c then TRAVERSABLE else UNKNOWN_OBSTACLE in
    if existsb (step_too_high elGrid curHeight) (around p)
    then OBSTACLE else tentative.

(** The rule as the specification words it: the eight neighbours. *)
Definition classify_spec : ElevationGrid -> Vector2i -> Traversability :=
  classify_from neighbours8.

(** The rule over the 3x3 block, the cell itself included. *)
Definition classify_block : ElevationGrid -> Vector2i -> Traversability :=
  classify_from block.
End Classification.

(** ** Conservative interpolation: [smoothElevationGrid] *)

Definition get_local {S L} : M (S * L) L := fun sl => Ok (snd sl) sl.
Definition modify_local {S L} (f : L -> L) : M (S * L) unit :=
  modify (fun sl => (fst sl, f (snd sl))).

Section GridState.
Context {T : Type} `{Inhabited T}.

(** The entry of the grid that is the state, read and updated. *)
Definition readState (p : Vector2i) : M (Grid T) T :=
  g <- get ;; readEntry g p.
Definition modifyEntry (p : Vector2i) (f : T -> T) : M (Grid T) unit :=
  e <- readState p ;; writeEntry p (f e).
End GridState.

(** [found |= count]: the [int] is or-ed into the [bool]. *)
Definition or_count (found : bool) (e : ElevationEntry) : bool :=
  found || measured e.

Section Interpolation.
(** The median estimate that a cell computes from its history; the class
    of the cell is not part of the sources and the specification leaves
    the estimator open. *)
Variable median_of : list double -> double.

(** Modelled from the spec: [add_measurement(h)] appends [h], updates
    minimum, maximum and median, clears the interpolated flag and
    increments the count. *)
Definition addHeightMeasurement (h : double) (e : ElevationEntry) : ElevationEntry :=
  let hs := heights e ++ [h] in
  mkEntry hs (getMeasurementCount e + 1)
    (if (h <? getMinimum e)%D then h else getMinimum e)
    (if (getMaximum e <? h)%D then h else getMaximum e)
    (median_of hs) false.

(** Modelled from the spec: [set_interpolated(h)] sets the median to [h]
    and marks the cell interpolated; the count does not change. *)
Definition setInterpolatedMeasurement (h : double) (e : ElevationEntry) : ElevationEntry :=
  mkEntry (heights e) (getMeasurementCount e) (getMinimum e) (getMaximum e) h true.

(** The body of the first search, over the rows [y-1] and [y+1]; the
    locals are [firstFound] and [secondFound]. *)
Definition searchRows {S} (source : ElevationGrid) (p : Vector2i) (x : Z)
  : M (S * (bool * bool)) unit :=
  let rx := p.1 + x in
  let ry := p.2 - 1 in
  (if inGrid source (rx, ry) then
     e <- readEntry source (rx, ry) ;;
     modify_local (fun f => (or_count f.1 e, f.2))
   else ret tt) ;;
  let ry := p.2 + 1 in
  if inGrid source (rx, ry) then
    e <- readEntry source (rx, ry) ;;
    modify_local (fun f => (f.1, or_count f.2 e))
  else ret tt.

(** The body of the second search. *)
Definition searchColumns {S} (source : ElevationGrid) (p : Vector2i) (y : Z)
  : M (S * (bool * bool)) unit :=
  let rx := p.1 - 1 in
  let ry := p.2 + y in
  (if inGrid source (rx, ry) then
     e <- readEntry source (rx, ry) ;;
     modify_local (fun f => (or_count f.1 e, f.2))
   else ret tt) ;;
  let ry := p.1 + 1 in
  if inGrid source (rx, ry) then
    e <- readEntry source (rx, ry) ;;
    modify_local (fun f => (f.1, or_count f.2 e))
  else ret tt.

(** The two searches for measured cells on opposite sides of [p]: the
    final values of [firstFound] and [secondFound]. *)
Definition find_opposite_sides {S} (source : ElevationGrid) (p : Vector2i)
  : M S (bool * bool) :=
  with_local (false, false)
    (for_int_le (-1) 1 (searchRows source p) ;;
     f <- get_local ;;
     if negb f.1 || negb f.2 then
       set_local (false, false) ;;
       for_int_le (-1) 1 (searchColumns source p)
     else ret tt).

(** The body of the two loops that collect the heights, at the offset
    [(x, y)]; the state is the target grid. *)
Definition addNeighbour (source : ElevationGrid) (p : Vector2i) (x y : Z)
  : M ElevationGrid unit :=
  let rx := p.1 + x in
  let ry := p.2 + y in
  if inGrid source (rx, ry) then
    n <- readEntry source (rx, ry) ;;
    if measured n then
      modifyEntry p (addHeightMeasurement (getMedian n))
    else ret tt
  else ret tt.

(** The state is the target grid. *)
Definition doConservativeInterpolation (source : ElevationGrid) (p : Vector2i)
  : M ElevationGrid unit :=
  if negb (inGrid source p) then ret tt
  else
    e <- readEntry source p ;;
    writeEntry p e ;;
    (* point has a measurement *)
    e <- readEntry source p ;;
    if measured e then ret tt
    else
      found <- find_opposite_sides source p ;;
      if found.1 && found.2 then
        for_int_le (-1) 1 (fun x =>
          for_int_le (-1) 1 (fun y => addNeighbour source p x y)) ;;
        t <- readState p ;;
        writeEntry p (setInterpolatedMeasurement (getMedian t) t)
      else ret tt.

Definition smoothElevationGrid (source : ElevationGrid) : M ElevationGrid unit :=
  modify (setGridPosition (getGridPosition source)) ;;
  for_int_lt 0 (getWidth source) (fun x =>
    for_int_lt 0 (getHeight source) (fun y =>
      doConservativeInterpolation source (x, y))).

(** *** The condition of the specification *)

Definition measured_at (source : ElevationGrid) (q : Vector2i) : bool :=
  match getEntry source q with
  | Some e => measured e
  | None => false
  end.

(** At least one of the three cells of row [y] is measured. *)
Definition row_measured (source : ElevationGrid) (p : Vector2i) (y : Z) : bool :=
  existsb (fun dx => measured_at source (p.1 + dx, y)) offsets3.
(** At least one of the three cells of column [x] is measured. *)
Definition column_measured (source : ElevationGrid) (p : Vector2i) (x : Z) : bool :=
  existsb (fun dy => measured_at source (x, p.2 + dy)) offsets3.

(** Interpolation fires, in the words of the specification. *)
Definition fires_spec (source : ElevationGrid) (p : Vector2i) : bool :=
  (row_measured source p (p.2 - 1) && row_measured source p (p.2 + 1))
  || (column_measured source p (p.1 - 1) && column_measured source p (p.1 + 1)).

(** Interpolation fires, as the two searches of the source decide it: the
    second search looks at column [x-1] and at the one cell
    [(x-1, x+1)]. *)
Definition fires_code (source : ElevationGrid) (p : Vector2i) : bool :=
  (row_measured source p (p.2 - 1) && row_measured source p (p.2 + 1))
  || (column_measured source p (p.1 - 1) && measured_at source (p.1 - 1, p.1 + 1)).

(** The medians of the measured cells among [qs]. *)
Definition measured_median (source : ElevationGrid) (q : Vector2i) : option double :=
  match getEntry source q with
  | Some n => if measured n then Some (getMedian n) else None
  | None => None
  end.
Definition measured_medians (source : ElevationGrid) (qs : list Vector2i)
  : list double :=
  omap (measured_median source) qs.

(** The entry that one call leaves in the target at a point of the grid. *)
Definition interpolated_entry (source : ElevationGrid) (p : Vector2i)
  : ElevationEntry :=
  let e := cell source p in
  if measured e then e
  else if fires_code source p then
    let t := foldl (fun t h => addHeightMeasurement h t) e
               (measured_medians source (block p)) in
    setInterpolatedMeasurement (getMedian t) t
  else e.
End Interpolation.

(** ** The generator *)

(** Eigen's affine transform, as its linear part (three rows) and its
    translation. *)
Record Transform3d : Type := mkTransform {
  row1 : Vector3d; row2 : Vector3d; row3 : Vector3d;
  translation : Vector3d
}.

Definition t_linear_apply (t : Transform3d) (v : Vector3d) : Vector3d :=
  mkVector3d (dot (row1 t) v) (dot (row2 t) v) (dot (row3 t) v).
(** [t * v] *)
Definition t_apply (t : Transform3d) (v : Vector3d) : Vector3d :=
  v3add (t_linear_apply t v) (translation t).
Definition column (t : Transform3d) (proj : Vector3d -> double) : Vector3d :=
  mkVector3d (proj (row1 t)) (proj (row2 t)) (proj (row3 t)).
(** [a * b] *)
Definition t_mul (a b : Transform3d) : Transform3d :=
  let row r := mkVector3d (dot r (column b v3x)) (dot r (column b v3y))
                 (dot r (column b v3z)) in
  mkTransform (row (row1 a)) (row (row2 a)) (row (row3 a))
    (t_apply a (translation b)).

Record Quaterniond : Type := mkQuaternion { qw : double; qx : double; qy : double; qz : double }.

(** [base::Pose] *)
Record Pose : Type := mkPose { position : Vector3d; orientation : Quaterniond }.

(** [Eigen::AlignedBox<double, 3>] *)
Record AlignedBox : Type := mkBox { box_min : Vector3d; box_max : Vector3d }.

Definition contains (b : AlignedBox) (p : Vector3d) : bool :=
  (v3x (box_min b) <=? v3x p)%D && (v3y (box_min b) <=? v3y p)%D
  && (v3z (box_min b) <=? v3z p)%D
  && (v3x p <=? v3x (box_max b))%D && (v3y p <=? v3y (box_max b))%D
  && (v3z p <=? v3z (box_max b))%D.

Record TraversabilityMapGenerator : Type := mkGenerator {
  laserGrid : ElevationGrid;
  interpolatedGrid : ElevationGrid;
  traversabilityGrid : TraversabilityGrid;
  boundarySize : double;
  maxStepSize : double;
  lastBody2Odo : Transform3d;
  lastLaser2Odo : Transform3d
}.

Definition set_laserGrid (g : ElevationGrid) (st : TraversabilityMapGenerator) :=
  mkGenerator g (interpolatedGrid st) (traversabilityGrid st) (boundarySize st)
    (maxStepSize st) (lastBody2Odo st) (lastLaser2Odo st).
Definition set_interpolatedGrid (g : ElevationGrid) (st : TraversabilityMapGenerator) :=
  mkGenerator (laserGrid st) g (traversabilityGrid st) (boundarySize st)
    (maxStepSize st) (lastBody2Odo st) (lastLaser2Odo st).
Definition set_traversabilityGrid (g : TraversabilityGrid) (st : TraversabilityMapGenerator) :=
  mkGenerator (laserGrid st) (interpolatedGrid st) g (boundarySize st)
    (maxStepSize st) (lastBody2Odo st) (lastLaser2Odo st).
Definition set_last (body2Odo laser2Odo : Transform3d) (st : TraversabilityMapGenerator) :=
  mkGenerator (laserGrid st) (interpolatedGrid st) (traversabilityGrid st)
    (boundarySize st) (maxStepSize st) body2Odo laser2Odo.

(** The three grids as parts of the state. *)
Definition on_laserGrid {A} : M ElevationGrid A -> M TraversabilityMapGenerator A :=
  zoom laserGrid set_laserGrid.
Definition on_interpolatedGrid {A} : M ElevationGrid A -> M TraversabilityMapGenerator A :=
  zoom interpolatedGrid set_interpolatedGrid.
Definition on_traversabilityGrid {A}
  : M TraversabilityGrid A -> M TraversabilityMapGenerator A :=
  zoom traversabilityGrid set_traversabilityGrid.

(** The three grids of a generator have one size (the assertion of
    [getGridDump]). *)
Definition grids_same_size (st : TraversabilityMapGenerator) : Prop :=
  same_size (laserGrid st) (interpolatedGrid st)
  /\ same_size (laserGrid st) (traversabilityGrid st).

Definition grids_same_sizeb (st : TraversabilityMapGenerator) : bool :=
  (getHeight (laserGrid st) =? getHeight (interpolatedGrid st))
  && (getHeight (laserGrid st) =? getHeight (traversabilityGrid st))
  && (getWidth (laserGrid st) =? getWidth (interpolatedGrid st))
  && (getWidth (laserGrid st) =? getWidth (traversabilityGrid st)).

(** Modelled from the spec: [GridDump], whose declaration is not part of
    the sources: four arrays and the position of the grid. *)
Record GridDump : Type := mkDump {
  gd_height : list double;
  gd_max : list double;
  gd_interpolated : list bool;
  gd_traversability : list Traversability;
  gridPositionX : double;
  gridPositionY : double;
  gridPositionZ : double
}.

(** [a[i] = v]; a write outside the array is undefined. *)
Definition array_set {A} (i : Z) (v : A) (a : list A) : option (list A) :=
  if (0 <=? i) && (i <? Z.of_nat (length a))
  then Some (<[Z.to_nat i := v]> a) else None.

Definition set_height i v (gd : GridDump) : option GridDump :=
  a ← array_set i v (gd_height gd);
  Some (mkDump a (gd_max gd) (gd_interpolated gd) (gd_traversability gd)
          (gridPositionX gd) (gridPositionY gd) (gridPositionZ gd)).
Definition set_max i v (gd : GridDump) : option GridDump :=
  a ← array_set i v (gd_max gd);
  Some (mkDump (gd_height gd) a (gd_interpolated gd) (gd_traversability gd)
          (gridPositionX gd) (gridPositionY gd) (gridPositionZ gd)).
Definition set_interpolated i v (gd : GridDump) : option GridDump :=
  a ← array_set i v (gd_interpolated gd);
  Some (mkDump (gd_height gd) (gd_max gd) a (gd_traversability gd)
          (gridPositionX gd) (gridPositionY gd) (gridPositionZ gd)).
Definition set_traversability i v (gd : GridDump) : option GridDump :=
  a ← array_set i v (gd_traversability gd);
  Some (mkDump (gd_height gd) (gd_max gd) (gd_interpolated gd) a
          (gridPositionX gd) (gridPositionY gd) (gridPositionZ gd)).
Definition set_gridPosition (p : Vector3d) (gd : GridDump) : GridDump :=
  mkDump (gd_height gd) (gd_max gd) (gd_interpolated gd) (gd_traversability gd)
    (v3x p) (v3y p) (v3z p).

(** The lengths of the four arrays, and a dump whose arrays have at least
    [n] elements. *)
Definition dump_lengths (gd : GridDump) : nat * nat * nat * nat :=
  (length (gd_height gd), length (gd_max gd), length (gd_interpolated gd),
   length (gd_traversability gd)).
Definition dump_capacity (n : Z) (gd : GridDump) : Prop :=
  n <= Z.of_nat (length (gd_height gd))
  /\ n <= Z.of_nat (length (gd_max gd))
  /\ n <= Z.of_nat (length (gd_interpolated gd))
  /\ n <= Z.of_nat (length (gd_traversability gd)).

(** The height that the dump gives for a cell. *)
Definition dump_height (e : ElevationEntry) : double :=
  if measured e then getMedian e else INFINITY.

(** What the body of the loops of [getGridDump] writes for the cell [q]:
    the four arrays at the index [x * width + y]. *)
Definition dump_cell (width : Z) (interpolated : ElevationGrid)
    (traversability : TraversabilityGrid) (gd : GridDump) (q : Vector2i) : GridDump :=
  let i := Z.to_nat (q.1 * width + q.2) in
  let e := cell interpolated q in
  mkDump (<[i := dump_height e]> (gd_height gd))
    (<[i := getMaximum e]> (gd_max gd))
    (<[i := isInterpolated e]> (gd_interpolated gd))
    (<[i := cell traversability q]> (gd_traversability gd))
    (gridPositionX gd) (gridPositionY gd) (gridPositionZ gd).

(** An assignment to an element of an array of the dump. *)
Definition assign (f : GridDump -> option GridDump) : M GridDump unit :=
  gd <- get ;; gd' <- check undefined_behaviour (f gd) ;; put gd'.

Section Methods.
(** The median estimate of a cell (see [addHeightMeasurement]). *)
Variable median_of : list double -> double.
(** [acos] of the C library. *)
Variable acos : double -> double.
(** [Transform3d::inverse()] *)
Variable t_inverse : Transform3d -> Transform3d.
(** [orientation.toRotationMatrix().eulerAngles(2,1,0)[0]] *)
Variable heading_of : Quaterniond -> double.
(** [AngleAxisd(heading, Vector3d::UnitZ()) * v] *)
Variable rotateZ : double -> Vector3d -> Vector3d.
(** [Grid::moveGrid(position)], not part of the sources. *)
Variable moveGrid : Vector3d -> ElevationGrid -> ElevationGrid.
(** [base::samples::LaserScan] and the three members that are used. *)
Context {LaserScan : Type}.
Variable ranges_size : LaserScan -> nat.
Variable convertScanToPointCloud : LaserScan -> Transform3d -> list Vector3d.
Variable getPointFromScanBeam : LaserScan -> nat -> option Vector3d.

Definition computeNewMap : M TraversabilityMapGenerator unit :=
  (* interpolate grid *)
  st <- get ;;
  on_interpolatedGrid (smoothElevationGrid median_of (laserGrid st)) ;;
  st <- get ;;
  on_traversabilityGrid
    (updateTraversabilityGrid (maxStepSize st) (interpolatedGrid st)).

(** The state is the dump [gd]; the generator is read only. *)
Definition getGridDump (st : TraversabilityMapGenerator) : M GridDump unit :=
  if negb (grids_same_sizeb st) then throw assertion_failed
  else
    let laser := laserGrid st in
    for_int_lt 0 (getWidth laser) (fun x =>
      for_int_lt 0 (getHeight laser) (fun y =>
        let i := x * getWidth laser + y in
        e <- readEntry (interpolatedGrid st) (x, y) ;;
        (if measured e then assign (set_height i (getMedian e))
         else assign (set_height i INFINITY)) ;;
        e <- readEntry (interpolatedGrid st) (x, y) ;;
        assign (set_max i (getMaximum e)) ;;
        e <- readEntry (interpolatedGrid st) (x, y) ;;
        assign (set_interpolated i (isInterpolated e)) ;;
        t <- readEntry (traversabilityGrid st) (x, y) ;;
        assign (set_traversability i t))) ;;
    modify (set_gridPosition (getGridPosition (traversabilityGrid st))).

(** The state is the grid; [boundarySize] is the member. *)
Definition moveGridIfRobotNearBoundary (boundarySize : double)
    (robotPosition_world : Vector3d) : M ElevationGrid bool :=
  grid <- get ;;
  let posInGrid := v3sub robotPosition_world (getGridPosition grid) in
  let width := (of_int (getWidth grid) * getGridResolution grid / 2%float)%D in
  let height := (of_int (getHeight grid) * getGridResolution grid / 2%float)%D in
  if (fabs (v3x posInGrid) >? width - boundarySize)%D
     || (fabs (v3y posInGrid) >? height - boundarySize)%D then
    let posInGrid :=
      if (fabs (v3x posInGrid) >? width)%D || (fabs (v3y posInGrid) >? height)%D
      then (* inital case, robot might be out of grid *)
        mkVector3d 0%float 0%float 0%float
      else posInGrid in
    (* we assume the robot keeps moving into the same direction *)
    modify (moveGrid (v3add robotPosition_world
                        (v3div (v3scale posInGrid 2%float) 3%float))) ;;
    ret true
  else ret false.

(** Is [pointsFilterFrame[i]] in one of the boxes?  The element is read
    once per box; the read outside the vector is undefined ([None]). *)
Fixpoint isMasked (maskedAreas : list AlignedBox) (pointsFilterFrame : list Vector3d)
    (i : nat) : option bool :=
  match maskedAreas with
  | [] => Some false
  | it :: rest =>
      p ← pointsFilterFrame !! i;
      if contains it p then Some true
      else isMasked rest pointsFilterFrame i
  end.

(** The points that [filterLaserScan] leaves in [result]. *)
Definition filterLaserScan (ls : LaserScan) (filterFrame resultFrame : Transform3d)
    (maskedAreas : list AlignedBox) : option (list Vector3d) :=
  let pointsFilterFrame := convertScanToPointCloud ls filterFrame in
  foldl (fun (result : option (list Vector3d)) (i : nat) =>
           r ← result;
           masked ← isMasked maskedAreas pointsFilterFrame i;
           if (masked : bool) then Some r
           else match getPointFromScanBeam ls i with
                | Some point => Some (r ++ [t_apply resultFrame point])
                | None => Some r
                end)
        (Some []) (seq 0 (ranges_size ls)).

(** Modelled from the spec: [ElevationGrid::addLaserScan], whose class is
    not part of the sources: for each point [p], if it is in the grid,
    append [p.z] to that cell. *)
Definition grid_addLaserScan (points : list Vector3d) (grid : ElevationGrid)
  : ElevationGrid :=
  foldl (fun g p =>
           match getGridPoint g p with
           | Some q =>
               default g (setEntry g q (addHeightMeasurement median_of (v3z p) (cell g q)))
           | None => g
           end) grid points.

Definition leftWheel : AlignedBox :=
  mkBox (mkVector3d 0.285%float (-0.215)%float (-0.18)%float)
        (mkVector3d (0.285%float - 0.06%float)%D 0.215%float 0.25%float).
Definition rightWheel : AlignedBox :=
  mkBox (mkVector3d (-0.285)%float (-0.215)%float (-0.18)%float)
        (mkVector3d ((-0.285)%float + 0.06%float)%D 0.215%float 0.25%float).

(** The two quantities of movement since the last accepted scan. *)
Definition distanceBodyToLastBody (st : TraversabilityMapGenerator)
    (body2Odo : Transform3d) : double :=
  let body2LastBody := t_mul (t_inverse (lastBody2Odo st)) body2Odo in
  norm (translation body2LastBody).
Definition laserChange (st : TraversabilityMapGenerator)
    (laser2Odo : Transform3d) : double :=
  let Ylaser2Odo :=
    normalize (v3sub (t_apply laser2Odo UnitY) (translation laser2Odo)) in
  let YlastLaser2Odo :=
    normalize (v3sub (t_apply (lastLaser2Odo st) UnitY)
                 (translation (lastLaser2Odo st))) in
  acos (dot Ylaser2Odo YlastLaser2Odo).

Definition addLaserScan (ls : LaserScan) (body2Odo laser2Body : Transform3d)
  : M TraversabilityMapGenerator bool :=
  st <- get ;;
  let laser2Odo := t_mul body2Odo laser2Body in
  let distance := distanceBodyToLastBody st body2Odo in
  let change := laserChange st laser2Odo in
  on_laserGrid (moveGridIfRobotNearBoundary (boundarySize st) (translation body2Odo)) ;;
  (* filter out wheels *)
  let maskedAreas := [leftWheel; rightWheel] in
  currentLaserPoints <-
    check undefined_behaviour (filterLaserScan ls laser2Body laser2Odo maskedAreas) ;;
  on_laserGrid (modify (grid_addLaserScan currentLaserPoints)) ;;
  if (distance <? 0.05%float)%D && (change <? M_PI / 36%float)%D then ret false
  else
    modify (set_last body2Odo laser2Odo) ;;
    ret true.
End Methods.

(** ** Region stamping *)

Section Stamping.
Variable median_of : list double -> double.
(** [orientation.toRotationMatrix().eulerAngles(2,1,0)[0]] *)
Variable heading_of : Quaterniond -> double.
(** [AngleAxisd(heading, Vector3d::UnitZ()) * v] *)
Variable rotateZ : double -> Vector3d -> Vector3d.

Definition pose_out_of_grid : exn :=
  runtime_error "markUnknownInRadiusAsObstacle: Pose out of grid".
Definition access_out_of_grid : exn :=
  runtime_error "markUnknownInRadiusAsObstacle: Access out of grid".

(** The body of the two loops of [markUnknownInRadiusAs] at the offset
    [(x, y)].  What the source prints is left out. *)
Definition markRadiusCell (gridp : Vector2i) (radius : double)
    (type : Traversability) (x y : Z) : M TraversabilityMapGenerator unit :=
  st <- get ;;
  let resolution := getGridResolution (traversabilityGrid st) in
  let xd := (of_int x * resolution)%D in
  let yd := (of_int y * resolution)%D in
  let distToRobot := Double.sqrt (xd * xd + yd * yd)%D in
  (* check if outside circle *)
  if (distToRobot >? radius)%D then ret tt   (* continue *)
  else
    let rx := gridp.1 + x in
    let ry := gridp.2 + y in
    if negb (inGrid (traversabilityGrid st) (rx, ry)) then
      throw access_out_of_grid
    else
      entry <- on_traversabilityGrid (readState (rx, ry)) ;;
      if is_unknown entry then
        on_traversabilityGrid (writeEntry (rx, ry) type) ;;
        if decide (type = TRAVERSABLE) then
          e <- on_laserGrid (readState (rx, ry)) ;;
          on_laserGrid
            (modifyEntry (rx, ry) (addHeightMeasurement median_of (getMedian e)))
        else ret tt
      else ret tt.

Definition markUnknownInRadiusAs (pose : Pose) (radius : double)
    (type : Traversability) : M TraversabilityMapGenerator unit :=
  st <- get ;;
  match getGridPoint (traversabilityGrid st) (position pose) with
  | None => throw pose_out_of_grid
  | Some gridp =>
      radiusGrid <- check undefined_behaviour
        (to_int (radius / getGridResolution (traversabilityGrid st))%D) ;;
      lo <- check undefined_behaviour (in_int_range (- radiusGrid)) ;;
      for_int_lt lo radiusGrid (fun x =>
        for_int_lt lo radiusGrid (fun y =>
          markRadiusCell gridp radius type x y))
  end.

(** The body of the two loops of [markUnknownInRectangeAs] at the point
    [(x, y)] of the rectangle. *)
Definition markRectPoint (pose : Pose) (heading : double)
    (type : Traversability) (x y : double) : M TraversabilityMapGenerator unit :=
  st <- get ;;
  let p_w := v3add (position pose) (rotateZ heading (mkVector3d x y 0%float)) in
  match getGridPoint (laserGrid st) p_w with
  | Some p_g =>
      entry <- on_traversabilityGrid (readState p_g) ;;
      if is_unknown entry then
        on_traversabilityGrid (writeEntry p_g type) ;;
        if decide (type = TRAVERSABLE) then
          entry <- on_laserGrid (readState p_g) ;;
          if negb (measured entry) then
            on_laserGrid (writeEntry p_g (addHeightMeasurement median_of 0%float entry))
          else ret tt
        else ret tt
      else ret tt
  | None => ret tt   (* prints "Error point not in grid" *)
  end.

Definition markUnknownInRectangeAs (fuel : nat) (pose : Pose)
    (width height forwardOffset : double) (type : Traversability)
  : M TraversabilityMapGenerator unit :=
  let heading := heading_of (orientation pose) in
  for_double_le fuel (- width / 2%float)%D (width / 2%float)%D 0.03%float (fun x =>
    for_double_le fuel (- height / 2%float)%D
      (height / 2%float + forwardOffset)%D 0.03%float (fun y =>
        markRectPoint pose heading type x y)).

Definition markUnknownInRectangeAsObstacle fuel pose width height forwardOffset :=
  markUnknownInRectangeAs fuel pose width height forwardOffset OBSTACLE.
Definition markUnknownInRectangeAsTraversable fuel pose width height forwardOffset :=
  markUnknownInRectangeAs fuel pose width height forwardOffset TRAVERSABLE.
Definition markUnknownInRadiusAsTraversable pose radius :=
  markUnknownInRadiusAs pose radius TRAVERSABLE.
Definition markUnknownInRadiusAsObstacle pose radius :=
  markUnknownInRadiusAs pose radius OBSTACLE.

(** *** The rectangle of the specification *)

(** The points of a lattice of step 0.03 m over [xlo, xhi] x [ylo, yhi],
    in the order of the two loops; [None] when the fuel runs out. *)
Fixpoint lattice1 (fuel : nat) (x hi : double) : option (list double) :=
  if (x <=? hi)%D then
    match fuel with
    | O => None
    | S fuel' => l ← lattice1 fuel' (x + 0.03%float)%D hi; Some (x :: l)
    end
  else Some [].
Definition lattice (fuel : nat) (xlo xhi ylo yhi : double)
  : option (list (double * double)) :=
  xs ← lattice1 fuel xlo xhi;
  ys ← lattice1 fuel ylo yhi;
  Some (flat_map (fun x => map (fun y => (x, y)) ys) xs).

(** The points that the source visits: the rectangle reaches from
    [-height/2] to [height/2 + forwardOffset]. *)
Definition rect_points_code fuel (width height forwardOffset : double) :=
  lattice fuel (- width / 2%float)%D (width / 2%float)%D
    (- height / 2%float)%D (height / 2%float + forwardOffset)%D.

(** The points of the rectangle of the specification: [width] x [height],
    moved forward by [forwardOffset]. *)
Definition rect_points_spec fuel (width height forwardOffset : double) :=
  lattice fuel (- width / 2%float)%D (width / 2%float)%D
    (- height / 2%float + forwardOffset)%D (height / 2%float + forwardOffset)%D.

(** The cells of the laser grid under a list of points of the rectangle. *)
Definition cells_under (st : TraversabilityMapGenerator) (pose : Pose)
    (points : list (double * double)) : list Vector2i :=
  omap (fun xy =>
          getGridPoint (laserGrid st)
            (v3add (position pose)
               (rotateZ (heading_of (orientation pose))
                  (mkVector3d xy.1 xy.2 0%float)))) points.

(** The overwrite policy on one cell. *)
Definition stamp_traversability (type old : Traversability) : Traversability :=
  if is_unknown old then type else old.
Definition stamp_elevation (type old : Traversability) (e : ElevationEntry)
  : ElevationEntry :=
  if is_unknown old && bool_decide (type = TRAVERSABLE) && negb (measured e)
  then addHeightMeasurement median_of 0%float e else e.

(** The stamp of the rectangle on the cell [c] of the two grids. *)
Definition stamp_cell (type : Traversability) (st : TraversabilityMapGenerator)
    (c : Vector2i) : TraversabilityMapGenerator :=
  let old := cell (traversabilityGrid st) c in
  let e := cell (laserGrid st) c in
  if is_unknown old then
    let st1 := set_traversabilityGrid (with_cell (traversabilityGrid st) c type) st in
    if bool_decide (type = TRAVERSABLE) && negb (measured e) then
      set_laserGrid (with_cell (laserGrid st) c (addHeightMeasurement median_of 0%float e)) st1
    else st1
  else st.

(** The stamp of the disc on the cell [c] of the two grids. *)
Definition stamp_radius_cell (type : Traversability) (st : TraversabilityMapGenerator)
    (c : Vector2i) : TraversabilityMapGenerator :=
  let old := cell (traversabilityGrid st) c in
  let e := cell (laserGrid st) c in
  if is_unknown old then
    let st1 := set_traversabilityGrid (with_cell (traversabilityGrid st) c type) st in
    if bool_decide (type = TRAVERSABLE) then
      set_laserGrid
        (with_cell (laserGrid st) c (addHeightMeasurement median_of (getMedian e) e)) st1
    else st1
  else st.

(** [distToRobot > radius] at the offset [xy]. *)
Definition outside_circle (resolution radius : double) (xy : Z * Z) : bool :=
  let xd := (of_int xy.1 * resolution)%D in
  let yd := (of_int xy.2 * resolution)%D in
  (Double.sqrt (xd * xd + yd * yd) >? radius)%D.

(** The offsets of the two loops of the disc, in their order. *)
Definition radius_offsets (lo radiusGrid : Z) : list (Z * Z) :=
  flat_map (fun x => map (fun y => (x, y)) (seqZ lo (radiusGrid - lo)))
    (seqZ lo (radiusGrid - lo)).
(** The cells under the offsets [qs] that are within the circle. *)
Definition radius_cells (resolution radius : double) (gridp : Vector2i)
    (qs : list (Z * Z)) : list Vector2i :=
  map (fun q => (gridp.1 + q.1, gridp.2 + q.2))
    (filter (fun q => outside_circle resolution radius q = false) qs).
(** The step of the loops at an offset whose cell is in the grid. *)
Definition radius_step (gridp : Vector2i) (radius : double) (type : Traversability)
    (st : TraversabilityMapGenerator) (xy : Z * Z) : TraversabilityMapGenerator :=
  if outside_circle (getGridResolution (traversabilityGrid st)) radius xy then st
  else stamp_radius_cell type st (gridp.1 + xy.1, gridp.2 + xy.2).
End Stamping.

(** Two grids with one frame: size, resolution and position. *)
Definition same_frame {T U} (g : Grid T) (g' : Grid U) : Prop :=
  getWidth g = getWidth g' /\ getHeight g = getHeight g'
  /\ getGridResolution g = getGridResolution g'
  /\ getGridPosition g = getGridPosition g'.

(** The outcome is no exception, and a normal return keeps [I]. *)
Definition no_throw {S A} (I : S -> Prop) (o : outcome S A) : Prop :=
  match o with
  | Ok _ s => I s
  | Throw _ _ => False
  | Timeout => True
  end.

(** The state that an outcome leaves, a return or an exception, has [I]. *)
Definition leaves {S A} (I : S -> Prop) (o : outcome S A) : Prop :=
  match o with
  | Ok _ s => I s
  | Throw _ s => I s
  | Timeout => True
  end.

(** The two setters of the thresholds. *)
Definition setBoundarySize (size : double) : M TraversabilityMapGenerator unit :=
  modify (fun st =>
            mkGenerator (laserGrid st) (interpolatedGrid st) (traversabilityGrid st)
              size (maxStepSize st) (lastBody2Odo st) (lastLaser2Odo st)).
Definition setMaxStepSize (size : double) : M TraversabilityMapGenerator unit :=
  modify (fun st =>
            mkGenerator (laserGrid st) (interpolatedGrid st) (traversabilityGrid st)
              (boundarySize st) size (lastBody2Odo st) (lastLaser2Odo st)).

(** The fields of a generator that no stamp writes. *)
Definition same_but_grids (st st' : TraversabilityMapGenerator) : Prop :=
  interpolatedGrid st' = interpolatedGrid st
  /\ boundarySize st' = boundarySize st
  /\ maxStepSize st' = maxStepSize st
  /\ lastBody2Odo st' = lastBody2Odo st
  /\ lastLaser2Odo st' = lastLaser2Odo st.

(** What the radius stamp leaves in the elevation entry [e] of a cell of
    the class [old]: one more measurement, of the median of the cell, when
    the cell is stamped TRAVERSABLE. *)
Definition stamp_radius_elevation (median_of : list double -> double)
    (type old : Traversability) (e : ElevationEntry) : ElevationEntry :=
  if is_unknown old && bool_decide (type = TRAVERSABLE)
  then addHeightMeasurement median_of (getMedian e) e else e.

(** The beam [i] is masked: its point in the filter frame lies in one of
    the boxes. *)
Definition masked_at (maskedAreas : list AlignedBox) (pointsFilterFrame : list Vector3d)
    (i : nat) : bool :=
  match pointsFilterFrame !! i with
  | Some p => existsb (fun b => contains b p) maskedAreas
  | None => false
  end.

(** The points of the beams that are not masked and that hold a valid
    range, in the result frame and in the order of the beams. *)
Definition filtered_points {LaserScan : Type} (ranges_size : LaserScan -> nat)
    (convertScanToPointCloud : LaserScan -> Transform3d -> list Vector3d)
    (getPointFromScanBeam : LaserScan -> nat -> option Vector3d)
    (ls : LaserScan) (filterFrame resultFrame : Transform3d)
    (maskedAreas : list AlignedBox) : list Vector3d :=
  map (t_apply resultFrame)
    (omap (getPointFromScanBeam ls)
       (List.filter
          (fun i => negb (masked_at maskedAreas (convertScanToPointCloud ls filterFrame) i))
          (seq 0 (ranges_size ls)))).

(** The fields of a generator that a scan does not write. *)
Definition same_but_scan (st st' : TraversabilityMapGenerator) : Prop :=
  interpolatedGrid st' = interpolatedGrid st
  /\ traversabilityGrid st' = traversabilityGrid st
  /\ boundarySize st' = boundarySize st
  /\ maxStepSize st' = maxStepSize st.

(** * Concrete inputs *)

Module Inputs.

(** The median of a history as the element in the middle of the sorted
    history, one estimator that a cell may use. *)
Fixpoint insert_sorted (h : double) (l : list double) : list double :=
  match l with
  | [] => [h]
  | k :: l' => if (h <=? k)%D then h :: l else k :: insert_sorted h l'
  end.
Definition sort_heights (l : list double) : list double :=
  foldr insert_sorted [] l.
Definition middle (l : list double) : double :=
  nth (length l / 2)%nat (sort_heights l) 0%float.

Definition origin : Vector3d := mkVector3d 0%float 0%float 0%float.

(** A cell with [n] measurements of the height [h]. *)
Definition flat_entry (n : nat) (h : double) : ElevationEntry :=
  mkEntry (replicate n h) (Z.of_nat n) h h h false.

(** A cell without measurement that has a minimum of 0 and a maximum of 1. *)
Definition unmeasured_step : ElevationEntry :=
  mkEntry [] 0 0%float 1%float 0.5%float false.

Definition elevation (w h : Z) (resolution : double)
    (l : list (Vector2i * ElevationEntry)) : ElevationGrid :=
  mkGrid w h resolution origin (list_to_map l).
Definition unclassified (w h : Z) (resolution : double) : TraversabilityGrid :=
  mkGrid w h resolution origin ∅.

(** One cell, without measurement, that has a maximum. *)
Definition one_cell : ElevationGrid := elevation 1 1 1%float [((0, 0), unmeasured_step)].

(** Scenario S3 on a 3x3 grid: height 0 everywhere but 1 in the middle. *)
Definition bump : ElevationGrid :=
  elevation 3 3 1%float
    (((1, 1), flat_entry 1 1%float)
     :: map (fun q => (q, flat_entry 1 0%float))
          [(0,0); (0,1); (0,2); (1,0); (1,2); (2,0); (2,1); (2,2)]).

(** Two measured cells to the left and to the right of the cell (1,3) of a
    grid of 3x5 cells; the cell (0,2) is not measured. *)
Definition bracketed : ElevationGrid :=
  elevation 3 5 1%float
    [((0, 3), flat_entry 1 1%float); ((2, 3), flat_entry 1 1%float)].

(** One measured cell, at (0,2), in a grid of 3x3 cells. *)
Definition lone : ElevationGrid :=
  elevation 3 3 1%float [((0, 2), flat_entry 1 1%float)].

(** Scenario S2 on a 3x3 grid: the cell (1,1) lies between measured cells
    of row 0 (heights 1 and 3) and of row 2 (height 2). *)
Definition between : ElevationGrid :=
  elevation 3 3 1%float
    [((0, 0), flat_entry 1 1%float); ((1, 0), flat_entry 2 3%float);
     ((1, 2), flat_entry 1 2%float)].

Definition identity : Transform3d :=
  mkTransform (mkVector3d 1%float 0%float 0%float)
    (mkVector3d 0%float 1%float 0%float)
    (mkVector3d 0%float 0%float 1%float) origin.

(** A generator whose laser grid is [laser]; the other two grids are
    empty, of the same size. *)
Definition generator (laser : ElevationGrid) : TraversabilityMapGenerator :=
  mkGenerator laser
    (elevation (getWidth laser) (getHeight laser) (getGridResolution laser) [])
    (unclassified (getWidth laser) (getHeight laser) (getGridResolution laser))
    0%float 0.2%float identity identity.

(** A scan as the list of the points of its beams in the laser frame. *)
Definition Scan : Type := list Vector3d.
Definition scan_size (ls : Scan) : nat := length ls.
Definition scan_cloud (ls : Scan) (frame : Transform3d) : list Vector3d :=
  map (t_apply frame) ls.
Definition scan_beam (ls : Scan) (i : nat) : option Vector3d := ls !! i.

(** The transform that moves by [v] without turning, and the inverse of
    such a transform. *)
Definition shift_by (v : Vector3d) : Transform3d :=
  mkTransform (row1 identity) (row2 identity) (row3 identity) v.
Definition shift_back (t : Transform3d) : Transform3d :=
  mkTransform (row1 t) (row2 t) (row3 t)
    (mkVector3d (- v3x (translation t))%D (- v3y (translation t))%D
       (- v3z (translation t))%D).

(** The arc cosine at the two arguments that these inputs reach. *)
Definition acos_0_1 (c : double) : double :=
  if (c == 1%float)%D then 0%float else (M_PI / 2%float)%D.

(** A grid that does not move. *)
Definition stay (position : Vector3d) (g : ElevationGrid) : ElevationGrid := g.

(** The heading of a pose that is not turned, and the rotation by it. *)
Definition no_heading (q : Quaterniond) : double := 0%float.
Definition no_turn (heading : double) (v : Vector3d) : Vector3d := v.
Definition pose_at (x y : double) : Pose :=
  mkPose (mkVector3d x y 0%float) (mkQuaternion 1%float 0%float 0%float 0%float).

(** Generators with empty grids of 4x4 cells of 1 m and of 8x8 cells of
    0.5 m, around the origin. *)
Definition empty4 : TraversabilityMapGenerator := generator (elevation 4 4 1%float []).
Definition empty8 : TraversabilityMapGenerator := generator (elevation 8 8 0.5%float []).

(** A generator with grids of 2x3 cells: the cell (x,y) of the interpolated
    grid has one measurement of the height 10x + y + 10, and the cell (0,2)
    of the traversability grid is an obstacle. *)
Definition tall : TraversabilityMapGenerator :=
  mkGenerator (elevation 2 3 1%float [])
    (elevation 2 3 1%float
       [((0, 0), flat_entry 1 10%float); ((0, 1), flat_entry 1 11%float);
        ((0, 2), flat_entry 1 12%float); ((1, 0), flat_entry 1 20%float);
        ((1, 1), flat_entry 1 21%float); ((1, 2), flat_entry 1 22%float)])
    (mkGrid 2 3 1%float origin
       (list_to_map
          [((0, 0), TRAVERSABLE); ((0, 1), TRAVERSABLE); ((0, 2), OBSTACLE);
           ((1, 0), TRAVERSABLE); ((1, 1), TRAVERSABLE); ((1, 2), TRAVERSABLE)]))
    0%float 0.2%float identity identity.

(** A dump with arrays of [n] elements. *)
Definition blank_dump (n : nat) : GridDump :=
  mkDump (replicate n 0%float) (replicate n 0%float) (replicate n false)
    (replicate n UNCLASSIFIED) 0%float 0%float 0%float.

(** The turn by 45 degrees about Z: every entry of the rotation is the
    double closest to the square root of 1/2. *)
Definition eighth_turn : Transform3d :=
  mkTransform (mkVector3d 0.7071067811865476%float (-0.7071067811865476)%float 0%float)
    (mkVector3d 0.7071067811865476%float 0.7071067811865476%float 0%float)
    (mkVector3d 0%float 0%float 1%float) origin.

(** The inverse of a transform whose linear part is a rotation: the
    transposed rotation, and the translation turned back and negated. *)
Definition rigid_inverse (t : Transform3d) : Transform3d :=
  let back := mkTransform (column t v3x) (column t v3y) (column t v3z) origin in
  let moved := t_linear_apply back (translation t) in
  mkTransform (row1 back) (row2 back) (row3 back)
    (mkVector3d (- v3x moved)%D (- v3y moved)%D (- v3z moved)%D).

(** The arc cosine of the C library at the arguments that these inputs
    reach: a NaN for a NaN and outside [-1, 1] (the domain error), 0 at 1
    and pi/4 at the square root of 1/2. *)
Definition acos_lib (c : double) : double :=
  if negb (c == c)%D || (c >? 1%float)%D || (c <? (-1)%float)%D then PrimFloat.nan
  else if (c == 1%float)%D then 0%float
  else if (c == 0.7071067811865476%float)%D then (M_PI / 4%float)%D
  else (M_PI / 2%float)%D.

End Inputs.

(** * Properties *)

(** ** The monad and the loops *)

Lemma bind_Ok {S A B} (m : M S A) (k : A -> M S B) s a s' :
  m s = Ok a s' -> bind m k s = k a s'.
Proof. intros E. unfold bind. now rewrite E. Qed.

Lemma for_each_app {S X} (l1 l2 : list X) (body : X -> M S unit) s :
  for_each (l1 ++ l2) body s = bind (for_each l1 body) (fun _ => for_each l2 body) s.
Proof.
  revert s. induction l1 as [|x l1 IH]; intros s; cbn; [reflexivity|].
  unfold bind. destruct (body x s) as [[] s'|e s'|]; [|reflexivity..].
  rewrite IH. reflexivity.
Qed.

Lemma for_each_map {S X Y} (f : X -> Y) (l : list X) (body : Y -> M S unit) s :
  for_each (map f l) body s = for_each l (fun x => body (f x)) s.
Proof.
  revert s. induction l as [|x l IH]; intros s; cbn; [reflexivity|].
  unfold bind. destruct (body (f x) s); auto.
Qed.

(** Two nested loops are one loop over the pairs, in the same order. *)
Lemma for_each_nested {S X Y} (xs : list X) (ys : list Y) (body : X -> Y -> M S unit) s :
  for_each xs (fun x => for_each ys (body x)) s
  = for_each (flat_map (fun x => map (fun y => (x, y)) ys) xs)
      (fun q => body q.1 q.2) s.
Proof.
  revert s. induction xs as [|x xs IH]; intros s; cbn; [reflexivity|].
  rewrite for_each_app. unfold bind.
  rewrite for_each_map. cbn.
  destruct (for_each ys _ s) as [[] s'| |]; auto.
Qed.

(** A loop whose body is a total step [f] that keeps the invariant [I]
    returns, and its final state is the fold of [f]. *)
Lemma for_each_fold {S X} (I : S -> Prop) (f : S -> X -> S) (body : X -> M S unit) l s :
  I s ->
  (forall x s, x ∈ l -> I s -> body x s = Ok tt (f s x) /\ I (f s x)) ->
  for_each l body s = Ok tt (foldl f s l) /\ I (foldl f s l).
Proof.
  revert s. induction l as [|x l IH]; intros s Hs Hbody; cbn; [auto|].
  destruct (Hbody x s) as [E HI]; [left|assumption|].
  unfold bind. rewrite E. apply IH; [assumption|].
  intros y s' Hy. apply Hbody. now right.
Qed.

Lemma seqZ_3 : seqZ (-1) (1 + 1 - -1) = offsets3.
Proof. reflexivity. Qed.

(** ** Grids *)

Section GridFacts.
Context {T : Type} `{Inhabited T}.

Lemma cell_with_cell (g : Grid T) p v q :
  cell (with_cell g p v) q = if decide (p = q) then v else cell g q.
Proof.
  unfold cell, with_cell; cbn. destruct (decide (p = q)) as [->|Hne].
  - apply lookup_total_insert_eq.
  - now apply lookup_total_insert_ne.
Qed.

Lemma inGrid_same_size {U} (g : Grid T) (g' : Grid U) q :
  same_size g g' -> inGrid g' q = inGrid g q.
Proof. intros [Hw Hh]. unfold inGrid. now rewrite Hw, Hh. Qed.

Lemma inGrid_spec (g : Grid T) q :
  inGrid g q = true <-> (0 <= q.1 < getWidth g /\ 0 <= q.2 < getHeight g).
Proof. unfold inGrid. rewrite !andb_true_iff. lia. Qed.

Lemma readEntry_in {S} (g : Grid T) p (s : S) :
  inGrid g p = true -> readEntry g p s = Ok (cell g p) s.
Proof. intros E. unfold readEntry, getEntry. now rewrite E. Qed.

Lemma writeEntry_in (g : Grid T) p v :
  inGrid g p = true -> writeEntry p v g = Ok tt (with_cell g p v).
Proof.
  intros E. unfold writeEntry, bind, get, setEntry. now rewrite E.
Qed.

Lemma readState_in (g : Grid T) p :
  inGrid g p = true -> readState p g = Ok (cell g p) g.
Proof. intros E. unfold readState, bind, get. now apply readEntry_in. Qed.

Lemma elem_of_grid_points (g : Grid T) q :
  q ∈ grid_points g <-> inGrid g q = true.
Proof.
  rewrite inGrid_spec. unfold grid_points. destruct q as [x y]; cbn.
  rewrite list_elem_of_In, in_flat_map. split.
  - intros (x' & Hx & Hy). apply in_map_iff in Hy as (y' & [= <- <-] & Hy).
    apply list_elem_of_In, elem_of_seqZ in Hx, Hy. lia.
  - intros [Hx Hy]. exists x. split.
    + apply list_elem_of_In, elem_of_seqZ. lia.
    + apply in_map_iff. exists y. split; [reflexivity|].
      apply list_elem_of_In, elem_of_seqZ. lia.
Qed.

Lemma fill_shape F (g : Grid T) qs :
  getWidth (fill F g qs) = getWidth g
  /\ getHeight (fill F g qs) = getHeight g
  /\ getGridResolution (fill F g qs) = getGridResolution g
  /\ getGridPosition (fill F g qs) = getGridPosition g.
Proof.
  revert g. induction qs as [|q qs IH]; intros g; cbn; [auto|].
  apply (IH (with_cell g q (F q))).
Qed.

Lemma cell_fill F (g : Grid T) qs q :
  cell (fill F g qs) q = if decide (q ∈ qs) then F q else cell g q.
Proof.
  revert g. induction qs as [|p qs IH]; intros g; cbn.
  - destruct (decide (q ∈ [])) as [Hin|]; [inversion Hin|reflexivity].
  - fold (fill F (with_cell g p (F p)) qs). rewrite IH, cell_with_cell.
    destruct (decide (q ∈ qs)) as [Hin|Hnin].
    + rewrite decide_True by now right. reflexivity.
    + destruct (decide (p = q)) as [->|Hne].
      * rewrite decide_True by now left. reflexivity.
      * rewrite decide_False; [reflexivity|].
        intros Hin. apply elem_of_cons in Hin as [->|]; auto.
Qed.
End GridFacts.

(** ** Classification *)

Section ClassificationFacts.
Variable maxStepSize : double.
Variable elGrid : ElevationGrid.

Lemma foldl_raise_obstacle (curHeight : double) qs :
  foldl (fun cl q =>
           if step_too_high maxStepSize elGrid curHeight q then OBSTACLE else cl)
        OBSTACLE qs = OBSTACLE.
Proof. induction qs as [|q qs IH]; cbn; [reflexivity|]. now destruct step_too_high. Qed.

(** The class never leaves [OBSTACLE]: the loop computes an "exists". *)
Lemma foldl_raise (curHeight : double) cl qs :
  foldl (fun cl q =>
           if step_too_high maxStepSize elGrid curHeight q then OBSTACLE else cl)
        cl qs
  = if existsb (step_too_high maxStepSize elGrid curHeight) qs then OBSTACLE else cl.
Proof.
  revert cl. induction qs as [|q qs IH]; intros cl; cbn; [reflexivity|].
  destruct (step_too_high maxStepSize elGrid curHeight q); cbn.
  - apply foldl_raise_obstacle.
  - apply IH.
Qed.

Lemma compareNeighbour_step p curHeight x y (tr : TraversabilityGrid) cl :
  compareNeighbour maxStepSize p elGrid curHeight x y (tr, cl)
  = Ok tt (tr, if step_too_high maxStepSize elGrid curHeight (p.1 + x, p.2 + y)
               then OBSTACLE else cl).
Proof.
  unfold compareNeighbour, step_too_high, getEntry.
  destruct (inGrid elGrid (p.1 + x, p.2 + y)) eqn:Hin; [|reflexivity].
  rewrite (bind_Ok _ _ _ _ _ (readEntry_in _ _ _ Hin)).
  destruct (neighbourHeight (cell elGrid (p.1 + x, p.2 + y))) as [nh|]; [|reflexivity].
  now destruct (fabs (nh - curHeight) >? maxStepSize)%D.
Qed.

Lemma compare_block p curHeight (tr : TraversabilityGrid) cl :
  for_int_le (-1) 1 (fun x =>
    for_int_le (-1) 1 (fun y => compareNeighbour maxStepSize p elGrid curHeight x y))
    (tr, cl)
  = Ok tt (tr, if existsb (step_too_high maxStepSize elGrid curHeight) (block p)
               then OBSTACLE else cl).
Proof.
  unfold for_int_le. rewrite seqZ_3, for_each_nested.
  pose proof (for_each_fold (fun _ => True)
    (fun (s : TraversabilityGrid * Traversability) (q : Z * Z) =>
       (s.1, if step_too_high maxStepSize elGrid curHeight (p.1 + q.1, p.2 + q.2)
             then OBSTACLE else s.2))
    (fun q => compareNeighbour maxStepSize p elGrid curHeight q.1 q.2)
    (flat_map (fun x => map (fun y => (x, y)) offsets3) offsets3)
    (tr, cl) I) as [E _].
  { intros q [tr' cl'] _ _. split; [apply compareNeighbour_step|exact I]. }
  rewrite E, <- foldl_raise. reflexivity.
Qed.

(** One call of [testNeighbourEntry] on a point of the grid writes the
    class of the rule over the 3x3 block, and nothing else. *)
Lemma testNeighbourEntry_run p (tr : TraversabilityGrid) :
  same_size elGrid tr -> inGrid elGrid p = true ->
  testNeighbourEntry maxStepSize p elGrid tr
  = Ok tt (with_cell tr p (classify_block maxStepSize elGrid p)).
Proof.
  intros Hsize Hin. unfold testNeighbourEntry, classify_block, classify_from.
  assert (Htr : inGrid tr p = true) by now rewrite (inGrid_same_size elGrid tr).
  rewrite Hin; cbn [negb].
  rewrite (bind_Ok _ _ _ _ _ (readEntry_in _ _ _ Hin)).
  destruct (negb (measured (cell elGrid p)) && (getMaximum (cell elGrid p) == NO_MAXIMUM)%D).
  { now apply writeEntry_in. }
  set (cur := if negb (measured (cell elGrid p)) then _ else _).
  set (cl0 := if negb (measured (cell elGrid p)) then _ else _).
  unfold bind, with_local. rewrite compare_block.
  rewrite (writeEntry_in _ _ _ Htr). f_equal. f_equal.
  subst cur cl0. now destruct (measured (cell elGrid p)).
Qed.

(** The whole pass: it returns, and it leaves the position of the
    elevation grid and, in every cell, the class of the rule. *)
Lemma updateTraversabilityGrid_run (tr : TraversabilityGrid) :
  same_size elGrid tr ->
  updateTraversabilityGrid maxStepSize elGrid tr
  = Ok tt (fill (classify_block maxStepSize elGrid)
             (setGridPosition (getGridPosition elGrid) tr) (grid_points elGrid)).
Proof.
  intros Hsize. unfold updateTraversabilityGrid, bind, modify, for_int_lt.
  rewrite for_each_nested.
  pose proof (for_each_fold (same_size elGrid)
    (fun g q => with_cell g q (classify_block maxStepSize elGrid q))
    (fun q => testNeighbourEntry maxStepSize (q.1, q.2) elGrid)
    (grid_points elGrid) (setGridPosition (getGridPosition elGrid) tr)) as HF.
  destruct HF as [E _]; [exact Hsize| |exact E].
  intros [x y] g Hq Hg. split; [|exact Hg].
  apply testNeighbourEntry_run; [exact Hg|]. now apply elem_of_grid_points.
Qed.

Lemma classify_block_measured p :
  measured (cell elGrid p) = true ->
  classify_block maxStepSize elGrid p = TRAVERSABLE
  \/ classify_block maxStepSize elGrid p = OBSTACLE.
Proof.
  intros Hm. unfold classify_block, classify_from. rewrite Hm. cbn [negb andb].
  match goal with |- context [if ?b then OBSTACLE else _] => destruct b end; auto.
Qed.

Lemma existsb_filter_false {A} (f : A -> bool) (P : A -> Prop)
    `{forall x, Decision (P x)} (l : list A) :
  (forall x, x ∈ l -> ~ P x -> f x = false) ->
  existsb f (filter P l) = existsb f l.
Proof.
  induction l as [|y l IH]; intros Hf; [reflexivity|].
  assert (IH' : existsb f (filter P l) = existsb f l).
  { apply IH. intros x Hx. apply Hf. now right. }
  destruct (decide (P y)) as [Hy|Hy].
  - rewrite filter_cons_True by exact Hy. cbn. now rewrite IH'.
  - rewrite filter_cons_False by exact Hy. cbn.
    rewrite (Hf y) by (assumption || now left). exact IH'.
Qed.

(** The rule over the block is the rule over the eight neighbours for
    every cell that raises no step against itself. *)
Lemma classify_block_spec p :
  step_too_high maxStepSize elGrid
    (if measured (cell elGrid p) then getMedian (cell elGrid p)
     else getMaximum (cell elGrid p)) p = false ->
  classify_block maxStepSize elGrid p = classify_spec maxStepSize elGrid p.
Proof.
  intros Hself. unfold classify_block, classify_spec, classify_from, neighbours8.
  destruct (negb (measured (cell elGrid p)) && _); [reflexivity|].
  rewrite existsb_filter_false; [reflexivity|].
  intros q _ Hq.
  assert (q = p) as -> by (destruct (decide (q = p)); [assumption|contradiction]).
  exact Hself.
Qed.
End ClassificationFacts.

(** C1 (as amended): for every cell of the elevation grid the pass computes
    the per-cell rule over the in-grid cells of the 3x3 block around the
    cell, the cell itself included: count 0 and no maximum gives
    UNCLASSIFIED; count 0 with a maximum takes the maximum as height and is
    tentatively UNKNOWN_OBSTACLE; a measured cell takes its median and is
    tentatively TRAVERSABLE; a cell of the block contributes its median if
    measured, nothing if it has no maximum, its minimum otherwise, and one
    height difference above max_step_size makes the class OBSTACLE for
    good.  Cells outside the grid are not written. *)
Theorem classification_rule (maxStepSize : double) (elGrid : ElevationGrid)
    (trGrid : TraversabilityGrid) :
  same_size elGrid trGrid ->
  exists trGrid',
    updateTraversabilityGrid maxStepSize elGrid trGrid = Ok tt trGrid'
    /\ (forall p, inGrid elGrid p = true ->
                  cell trGrid' p = classify_block maxStepSize elGrid p)
    /\ (forall p, inGrid elGrid p = false -> cell trGrid' p = cell trGrid p).
Proof.
  intros Hsize. eexists. split; [now apply updateTraversabilityGrid_run|].
  split; intros p Hp; rewrite cell_fill.
  - rewrite decide_True; [reflexivity|]. now apply elem_of_grid_points.
  - rewrite decide_False; [reflexivity|].
    rewrite elem_of_grid_points. now rewrite Hp.
Qed.

Lemma classification_rule_witness :
  same_size Inputs.bump (Inputs.unclassified 3 3 1%float)
  /\ exists trGrid',
       updateTraversabilityGrid 0.2%float Inputs.bump (Inputs.unclassified 3 3 1%float)
       = Ok tt trGrid'
       /\ (forall p, inGrid Inputs.bump p = true ->
                     cell trGrid' p = classify_block 0.2%float Inputs.bump p)
       /\ (forall p, inGrid Inputs.bump p = false ->
                     cell trGrid' p = cell (Inputs.unclassified 3 3 1%float) p).
Proof.
  split; [split; reflexivity|].
  apply (classification_rule 0.2%float Inputs.bump (Inputs.unclassified 3 3 1%float)).
  split; reflexivity.
Defined.

(** C1, counterexample: on a grid of one cell that has no measurement, the
    minimum 0 and the maximum 1, there is no neighbour, so the rule of the
    eight neighbours gives UNKNOWN_OBSTACLE; the pass compares the cell with
    itself and writes OBSTACLE. *)
Lemma classification_counterexample :
  exists trGrid',
    updateTraversabilityGrid 0.2%float Inputs.one_cell (Inputs.unclassified 1 1 1%float)
    = Ok tt trGrid'
    /\ cell trGrid' (0, 0) = OBSTACLE
    /\ classify_spec 0.2%float Inputs.one_cell (0, 0) = UNKNOWN_OBSTACLE
    /\ cell trGrid' (0, 0) <> classify_spec 0.2%float Inputs.one_cell (0, 0).
Proof.
  eexists. split; [vm_compute; reflexivity|].
  split; [vm_compute; reflexivity|].
  split; [vm_compute; reflexivity|].
  vm_compute. discriminate.
Qed.

(** C8: after reclassification every cell whose elevation entry has a
    measurement count above 0 is TRAVERSABLE or OBSTACLE, whatever its
    neighbours. *)
Theorem measured_cell_traversable_or_obstacle (maxStepSize : double)
    (elGrid : ElevationGrid) (trGrid : TraversabilityGrid) (p : Vector2i) :
  same_size elGrid trGrid ->
  inGrid elGrid p = true ->
  0 < getMeasurementCount (cell elGrid p) ->
  exists trGrid',
    updateTraversabilityGrid maxStepSize elGrid trGrid = Ok tt trGrid'
    /\ (cell trGrid' p = TRAVERSABLE \/ cell trGrid' p = OBSTACLE).
Proof.
  intros Hsize Hp Hcount. eexists. split; [now apply updateTraversabilityGrid_run|].
  rewrite cell_fill, decide_True by now apply elem_of_grid_points.
  apply classify_block_measured. unfold measured.
  apply negb_true_iff, Z.eqb_neq. lia.
Qed.

Lemma measured_cell_traversable_or_obstacle_witness :
  exists trGrid',
    updateTraversabilityGrid 0.2%float Inputs.bump (Inputs.unclassified 3 3 1%float)
    = Ok tt trGrid'
    /\ (cell trGrid' (1, 1) = TRAVERSABLE \/ cell trGrid' (1, 1) = OBSTACLE).
Proof.
  apply (measured_cell_traversable_or_obstacle 0.2%float Inputs.bump
           (Inputs.unclassified 3 3 1%float) (1, 1)).
  - split; reflexivity.
  - reflexivity.
  - vm_compute. reflexivity.
Defined.

(** ** Conservative interpolation *)

Section InterpolationFacts.
Variable median_of : list double -> double.
Variable source : ElevationGrid.

Lemma with_cell_twice {T} (g : Grid T) p (v w : T) :
  with_cell (with_cell g p v) p w = with_cell g p w.
Proof. unfold with_cell; cbn. now rewrite insert_insert_eq. Qed.

Lemma searchRows_step {S} p x (s : S) (f : bool * bool) :
  searchRows source p x (s, f)
  = Ok tt (s, (f.1 || measured_at source (p.1 + x, p.2 - 1),
               f.2 || measured_at source (p.1 + x, p.2 + 1))).
Proof.
  destruct f as [f1 f2]. unfold searchRows, measured_at, getEntry, bind.
  destruct (inGrid source (p.1 + x, p.2 - 1)) eqn:H1;
    destruct (inGrid source (p.1 + x, p.2 + 1)) eqn:H2;
    rewrite ?(readEntry_in _ _ _ H1); cbn;
    rewrite ?(readEntry_in _ _ _ H2); cbn;
    now rewrite ?orb_false_r.
Qed.

Lemma searchColumns_step {S} p y (s : S) (f : bool * bool) :
  searchColumns source p y (s, f)
  = Ok tt (s, (f.1 || measured_at source (p.1 - 1, p.2 + y),
               f.2 || measured_at source (p.1 - 1, p.1 + 1))).
Proof.
  destruct f as [f1 f2]. unfold searchColumns, measured_at, getEntry, bind.
  destruct (inGrid source (p.1 - 1, p.2 + y)) eqn:H1;
    destruct (inGrid source (p.1 - 1, p.1 + 1)) eqn:H2;
    rewrite ?(readEntry_in _ _ _ H1); cbn;
    rewrite ?(readEntry_in _ _ _ H2); cbn;
    now rewrite ?orb_false_r.
Qed.

(** The two searches return, and both flags are set exactly when the rows
    [y-1] and [y+1] both hold a measured cell or column [x-1] and the cell
    [(x-1, x+1)] do. *)
Lemma find_opposite_sides_run {S} p (s : S) :
  exists found,
    find_opposite_sides source p s = Ok found s
    /\ found.1 && found.2 = fires_code source p.
Proof.
  unfold find_opposite_sides, with_local, for_int_le. rewrite seqZ_3.
  cbn [for_each offsets3]. unfold bind, ret, get_local, set_local, modify.
  rewrite !searchRows_step. cbn [fst snd].
  unfold fires_code, row_measured, column_measured. cbn [existsb offsets3].
  set (a1 := measured_at source (p.1 + -1, p.2 - 1)).
  set (a2 := measured_at source (p.1 + 0, p.2 - 1)).
  set (a3 := measured_at source (p.1 + 1, p.2 - 1)).
  set (b1 := measured_at source (p.1 + -1, p.2 + 1)).
  set (b2 := measured_at source (p.1 + 0, p.2 + 1)).
  set (b3 := measured_at source (p.1 + 1, p.2 + 1)).
  destruct (negb (false || a1 || a2 || a3) || negb (false || b1 || b2 || b3)) eqn:E.
  - rewrite !searchColumns_step. cbn [fst snd]. eexists. split; [reflexivity|].
    cbn [fst snd].
    destruct a1, a2, a3, b1, b2, b3; cbn in E; try discriminate; cbn;
      destruct (measured_at source (p.1 - 1, p.2 + -1)),
               (measured_at source (p.1 - 1, p.2 + 0)),
               (measured_at source (p.1 - 1, p.2 + 1)),
               (measured_at source (p.1 - 1, p.1 + 1)); reflexivity.
  - eexists. split; [reflexivity|]. cbn [fst snd].
    destruct a1, a2, a3, b1, b2, b3; cbn in E; try discriminate; reflexivity.
Qed.

Lemma addNeighbour_step p x y (g : ElevationGrid) (e : ElevationEntry) :
  inGrid g p = true ->
  addNeighbour median_of source p x y (with_cell g p e)
  = Ok tt (with_cell g p
             (match measured_median source (p.1 + x, p.2 + y) with
              | Some h => addHeightMeasurement median_of h e
              | None => e
              end)).
Proof.
  intros Hp. unfold addNeighbour, measured_median, getEntry.
  destruct (inGrid source (p.1 + x, p.2 + y)) eqn:Hin; [|reflexivity].
  rewrite (bind_Ok _ _ _ _ _ (readEntry_in _ _ _ Hin)).
  destruct (measured (cell source (p.1 + x, p.2 + y))); [|reflexivity].
  unfold modifyEntry.
  rewrite (bind_Ok _ _ _ _ _ (readState_in (with_cell g p e) p Hp)).
  rewrite (writeEntry_in (with_cell g p e) p _ Hp).
  rewrite cell_with_cell, decide_True by reflexivity.
  now rewrite with_cell_twice.
Qed.

Lemma addNeighbour_loop p qs (g : ElevationGrid) (e : ElevationEntry) :
  inGrid g p = true ->
  for_each qs (fun q => addNeighbour median_of source p q.1 q.2) (with_cell g p e)
  = Ok tt (with_cell g p
             (foldl (fun t h => addHeightMeasurement median_of h t) e
                (measured_medians source
                   (map (fun q => (p.1 + q.1, p.2 + q.2)) qs)))).
Proof.
  intros Hp. revert e. induction qs as [|q qs IH]; intros e; [reflexivity|].
  cbn [for_each]. rewrite (bind_Ok _ _ _ _ _ (addNeighbour_step p q.1 q.2 g e Hp)).
  rewrite IH. unfold measured_medians. cbn [map omap list_omap].
  now destruct (measured_median source (p.1 + q.1, p.2 + q.2)).
Qed.

(** One call on a point of the grid writes [interpolated_entry] to the
    target, and nothing else. *)
Lemma doConservativeInterpolation_run p (target : ElevationGrid) :
  same_size source target -> inGrid source p = true ->
  doConservativeInterpolation median_of source p target
  = Ok tt (with_cell target p (interpolated_entry median_of source p)).
Proof.
  intros Hsize Hin. unfold doConservativeInterpolation, interpolated_entry.
  assert (Ht : inGrid target p = true) by now rewrite (inGrid_same_size source target).
  rewrite Hin; cbn [negb].
  rewrite (bind_Ok _ _ _ _ _ (readEntry_in _ _ _ Hin)).
  rewrite (bind_Ok _ _ _ _ _ (writeEntry_in _ _ _ Ht)).
  rewrite (bind_Ok _ _ _ _ _ (readEntry_in _ _ _ Hin)).
  destruct (measured (cell source p)); [reflexivity|].
  destruct (find_opposite_sides_run p (with_cell target p (cell source p)))
    as (found & Efound & Hfound).
  rewrite (bind_Ok _ _ _ _ _ Efound), Hfound.
  destruct (fires_code source p); [|reflexivity].
  unfold for_int_le. rewrite seqZ_3.
  erewrite bind_Ok; cycle 1.
  { rewrite for_each_nested. now apply addNeighbour_loop. }
  erewrite bind_Ok; cycle 1.
  { apply (readState_in (with_cell target p _) p Ht). }
  rewrite (writeEntry_in (with_cell target p _) p _ Ht).
  rewrite cell_with_cell, decide_True by reflexivity.
  now rewrite with_cell_twice.
Qed.

Lemma smoothElevationGrid_run (target : ElevationGrid) :
  same_size source target ->
  smoothElevationGrid median_of source target
  = Ok tt (fill (interpolated_entry median_of source)
             (setGridPosition (getGridPosition source) target) (grid_points source)).
Proof.
  intros Hsize. unfold smoothElevationGrid, bind, modify, for_int_lt.
  rewrite for_each_nested.
  pose proof (for_each_fold (same_size source)
    (fun g q => with_cell g q (interpolated_entry median_of source q))
    (fun q => doConservativeInterpolation median_of source (q.1, q.2))
    (grid_points source) (setGridPosition (getGridPosition source) target)) as HF.
  destruct HF as [E _]; [exact Hsize| |exact E].
  intros [x y] g Hq Hg. split; [|exact Hg].
  apply doConservativeInterpolation_run; [exact Hg|]. now apply elem_of_grid_points.
Qed.
End InterpolationFacts.

Section InterpolatedMedian.
Variable median_of : list double -> double.
Variable source : ElevationGrid.

Lemma heights_foldl_add (e : ElevationEntry) hs :
  heights (foldl (fun t h => addHeightMeasurement median_of h t) e hs)
  = heights e ++ hs.
Proof.
  induction hs as [|h hs IH] using rev_ind; [now rewrite app_nil_r|].
  rewrite foldl_snoc. cbn. rewrite IH. now rewrite app_assoc.
Qed.

(** After at least one measurement the median is the estimate over the
    whole history. *)
Lemma median_foldl_add (e : ElevationEntry) hs :
  hs <> [] ->
  getMedian (foldl (fun t h => addHeightMeasurement median_of h t) e hs)
  = median_of (heights e ++ hs).
Proof.
  destruct hs as [|h hs _] using rev_ind; [congruence|]. intros _.
  rewrite foldl_snoc. cbn. rewrite heights_foldl_add. now rewrite app_assoc.
Qed.

Lemma measured_median_None q :
  measured_median source q = None <-> measured_at source q = false.
Proof.
  unfold measured_median, measured_at. destruct (getEntry source q) as [n|]; [|tauto].
  destruct (measured n); split; congruence.
Qed.

Lemma omap_nil_inv {A B} (f : A -> option B) (l : list A) x :
  omap f l = [] -> x ∈ l -> f x = None.
Proof.
  induction l as [|y l IH]; intros E Hx; [inversion Hx|].
  cbn in E. destruct (f y) eqn:Ey; [discriminate|].
  apply elem_of_cons in Hx as [->|Hx]; auto.
Qed.

Lemma omap_filter_None {A B} (f : A -> option B) (P : A -> Prop)
    `{forall x, Decision (P x)} (l : list A) :
  (forall x, x ∈ l -> ~ P x -> f x = None) ->
  omap f (filter P l) = omap f l.
Proof.
  induction l as [|y l IH]; intros Hf; [reflexivity|].
  assert (IH' : omap f (filter P l) = omap f l).
  { apply IH. intros x Hx. apply Hf. now right. }
  destruct (decide (P y)) as [Hy|Hy].
  - rewrite filter_cons_True by exact Hy. cbn. now rewrite IH'.
  - rewrite filter_cons_False by exact Hy. cbn.
    rewrite (Hf y) by (assumption || now left). exact IH'.
Qed.

(** When interpolation fires, some cell of the block is measured. *)
Lemma fires_code_measured p :
  fires_code source p = true -> measured_medians source (block p) <> [].
Proof.
  intros Hfire Hnil.
  assert (Hnone : forall x y, x ∈ offsets3 -> y ∈ offsets3 ->
                    measured_at source (p.1 + x, p.2 + y) = false).
  { intros x y Hx Hy. apply measured_median_None.
    apply (omap_nil_inv _ _ _ Hnil). unfold block.
    apply list_elem_of_In, in_flat_map. exists x.
    split; [now apply list_elem_of_In|].
    apply in_map_iff. exists y. split; [reflexivity|now apply list_elem_of_In]. }
  unfold fires_code, row_measured, column_measured in Hfire.
  cbn [existsb offsets3] in Hfire.
  change (p.2 - 1) with (p.2 + -1) in Hfire.
  change (p.1 - 1) with (p.1 + -1) in Hfire.
  rewrite !Hnone in Hfire by (unfold offsets3; set_solver). discriminate.
Qed.

(** The centre of the block is not measured: the measured cells of the
    block are the measured neighbours. *)
Lemma measured_medians_neighbours p :
  measured (cell source p) = false ->
  measured_medians source (neighbours8 p) = measured_medians source (block p).
Proof.
  intros Hp. unfold measured_medians, neighbours8.
  apply omap_filter_None. intros q _ Hq.
  assert (q = p) as -> by (destruct (decide (q = p)); [assumption|contradiction]).
  unfold measured_median, getEntry. destruct (inGrid source p); [|reflexivity].
  now rewrite Hp.
Qed.
End InterpolatedMedian.

(** C3: for an unmeasured cell on which interpolation fires, the median of
    the target cell is the median estimate of the medians of all measured
    in-grid 8-neighbours, and the target cell is flagged interpolated. *)
Theorem interpolated_median (median_of : list double -> double)
    (source target : ElevationGrid) (p : Vector2i) :
  same_size source target ->
  inGrid source p = true ->
  entry_wf (cell source p) ->
  measured (cell source p) = false ->
  fires_code source p = true ->
  exists target',
    doConservativeInterpolation median_of source p target = Ok tt target'
    /\ getMedian (cell target' p)
       = median_of (measured_medians source (neighbours8 p))
    /\ isInterpolated (cell target' p) = true.
Proof.
  intros Hsize Hin Hwf Hm Hfire. eexists.
  split; [now apply doConservativeInterpolation_run|].
  rewrite cell_with_cell, decide_True by reflexivity.
  unfold interpolated_entry. rewrite Hm, Hfire. cbn [getMedian isInterpolated setInterpolatedMeasurement].
  split; [|reflexivity].
  rewrite median_foldl_add by now apply fires_code_measured.
  rewrite measured_medians_neighbours by exact Hm.
  assert (heights (cell source p) = []) as ->; [|reflexivity].
  unfold entry_wf, measured in *.
  apply negb_false_iff, Z.eqb_eq in Hm. rewrite Hm in Hwf.
  destruct (heights (cell source p)); [reflexivity|discriminate].
Qed.

Lemma interpolated_median_witness :
  exists target',
    doConservativeInterpolation Inputs.middle Inputs.between (1, 1)
      (Inputs.elevation 3 3 1%float []) = Ok tt target'
    /\ getMedian (cell target' (1, 1))
       = Inputs.middle (measured_medians Inputs.between (neighbours8 (1, 1)))
    /\ isInterpolated (cell target' (1, 1)) = true.
Proof.
  apply (interpolated_median Inputs.middle Inputs.between
           (Inputs.elevation 3 3 1%float []) (1, 1)).
  - split; reflexivity.
  - reflexivity.
  - vm_compute. reflexivity.
  - vm_compute. reflexivity.
  - vm_compute. reflexivity.
Defined.

(** C2, the code at a failing input: the cell (1,3) has a measured cell in
    column 0 and one in column 2, so the condition of the specification
    holds; the second search of the source looks at the cell (0,2) instead
    of column 2, and the cell is not interpolated. *)
Theorem interpolation_misses_column_bracket :
  fires_spec Inputs.bracketed (1, 3) = true
  /\ exists target',
       doConservativeInterpolation Inputs.middle Inputs.bracketed (1, 3)
         (Inputs.elevation 3 5 1%float []) = Ok tt target'
       /\ measured (cell target' (1, 3)) = false
       /\ isInterpolated (cell target' (1, 3)) = false.
Proof.
  split; [vm_compute; reflexivity|].
  eexists. split; [vm_compute; reflexivity|].
  split; vm_compute; reflexivity.
Qed.

(** The same defect the other way round: with the single measured cell
    (0,2) the cell (1,1) is not bracketed, and the source interpolates it. *)
Lemma interpolation_fires_on_one_cell :
  fires_spec Inputs.lone (1, 1) = false
  /\ exists target',
       doConservativeInterpolation Inputs.middle Inputs.lone (1, 1)
         (Inputs.elevation 3 3 1%float []) = Ok tt target'
       /\ isInterpolated (cell target' (1, 1)) = true.
Proof.
  split; [vm_compute; reflexivity|].
  eexists. split; vm_compute; reflexivity.
Qed.

(** ** The map pipeline *)

(** C9: after [computeNewMap] (which returns), the interpolated grid and
    the traversability grid carry the position of the laser grid: each pass
    copies the position of its source grid before it writes cells. *)
Theorem computeNewMap_positions (median_of : list double -> double)
    (st : TraversabilityMapGenerator) :
  grids_same_size st ->
  exists st',
    computeNewMap median_of st = Ok tt st'
    /\ laserGrid st' = laserGrid st
    /\ getGridPosition (interpolatedGrid st') = getGridPosition (laserGrid st')
    /\ getGridPosition (traversabilityGrid st') = getGridPosition (laserGrid st').
Proof.
  intros [Hi Ht].
  unfold computeNewMap, bind, get, on_interpolatedGrid, on_traversabilityGrid, zoom.
  rewrite (smoothElevationGrid_run median_of (laserGrid st) (interpolatedGrid st) Hi).
  cbn [interpolatedGrid traversabilityGrid maxStepSize set_interpolatedGrid].
  set (interpolated := fill _ _ _).
  assert (Hshape := fill_shape (interpolated_entry median_of (laserGrid st))
            (setGridPosition (getGridPosition (laserGrid st)) (interpolatedGrid st))
            (grid_points (laserGrid st))).
  fold interpolated in Hshape. cbn in Hshape. destruct Hshape as (Hw & Hh & _ & Hpos).
  rewrite (updateTraversabilityGrid_run (maxStepSize st) interpolated (traversabilityGrid st)).
  - eexists. split; [reflexivity|]. cbn.
    split; [reflexivity|]. split; [exact Hpos|].
    set (f := fill _ _ _).
    assert (Hf := fill_shape (classify_block (maxStepSize st) interpolated)
              (setGridPosition (getGridPosition interpolated) (traversabilityGrid st))
              (grid_points interpolated)).
    fold f in Hf. cbn in Hf. destruct Hf as (_ & _ & _ & ->). exact Hpos.
  - destruct Hi as [Hiw Hih], Ht as [Htw Hth]. split; congruence.
Qed.

Lemma computeNewMap_positions_witness :
  exists st',
    computeNewMap Inputs.middle (Inputs.generator Inputs.between) = Ok tt st'
    /\ laserGrid st' = laserGrid (Inputs.generator Inputs.between)
    /\ getGridPosition (interpolatedGrid st') = getGridPosition (laserGrid st')
    /\ getGridPosition (traversabilityGrid st') = getGridPosition (laserGrid st').
Proof.
  apply (computeNewMap_positions Inputs.middle (Inputs.generator Inputs.between)).
  split; split; reflexivity.
Defined.

Section ScanIngest.
Variable median_of : list double -> double.
Variable acos : double -> double.
Variable t_inverse : Transform3d -> Transform3d.
Variable moveGrid : Vector3d -> ElevationGrid -> ElevationGrid.
Context {LaserScan : Type}.
Variable ranges_size : LaserScan -> nat.
Variable convertScanToPointCloud : LaserScan -> Transform3d -> list Vector3d.
Variable getPointFromScanBeam : LaserScan -> nat -> option Vector3d.

(** The grid after the recentering step; the step always returns. *)
Lemma moveGridIfRobotNearBoundary_returns boundary position (grid : ElevationGrid) :
  exists moved grid',
    moveGridIfRobotNearBoundary moveGrid boundary position grid = Ok moved grid'.
Proof.
  unfold moveGridIfRobotNearBoundary, bind, get.
  match goal with |- context [if ?c then _ else _] => destruct c end;
    eexists; eexists; reflexivity.
Qed.

(** The outcome of [addLaserScan] on a scan that can be filtered: the
    filtered points are added to the (recentred) laser grid whatever it
    returns; it returns false exactly when the two comparisons of the
    source hold of the two doubles that it computes; the two stored
    transforms are the new ones when it returns true and the old ones when
    it returns false. *)
Lemma addLaserScan_result (st : TraversabilityMapGenerator) (ls : LaserScan)
    (body2Odo laser2Body : Transform3d) (points : list Vector3d) :
  filterLaserScan ranges_size convertScanToPointCloud getPointFromScanBeam ls
    laser2Body (t_mul body2Odo laser2Body) [leftWheel; rightWheel] = Some points ->
  exists moved grid' accepted st',
    moveGridIfRobotNearBoundary moveGrid (boundarySize st) (translation body2Odo)
      (laserGrid st) = Ok moved grid'
    /\ addLaserScan median_of acos t_inverse moveGrid ranges_size
         convertScanToPointCloud getPointFromScanBeam ls body2Odo laser2Body st
       = Ok accepted st'
    /\ laserGrid st' = grid_addLaserScan median_of points grid'
    /\ (accepted = false <->
        (distanceBodyToLastBody t_inverse st body2Odo <? 0.05%float)%D = true
        /\ (laserChange acos st (t_mul body2Odo laser2Body) <? M_PI / 36%float)%D = true)
    /\ (accepted = true ->
        lastBody2Odo st' = body2Odo
        /\ lastLaser2Odo st' = t_mul body2Odo laser2Body)
    /\ (accepted = false ->
        lastBody2Odo st' = lastBody2Odo st
        /\ lastLaser2Odo st' = lastLaser2Odo st).
Proof.
  intros Hfilter.
  destruct (moveGridIfRobotNearBoundary_returns (boundarySize st)
              (translation body2Odo) (laserGrid st)) as (moved & grid' & Hmove).
  exists moved, grid'.
  unfold addLaserScan, bind, get, on_laserGrid, zoom.
  rewrite Hmove, Hfilter. cbn [check ret modify laserGrid set_laserGrid].
  destruct (distanceBodyToLastBody t_inverse st body2Odo <? 0.05%float)%D;
    destruct (laserChange acos st (t_mul body2Odo laser2Body) <? M_PI / 36%float)%D;
    cbn [andb]; eexists; eexists;
    (split; [reflexivity|]); (split; [reflexivity|]); cbn;
    repeat split; intros; try discriminate; try tauto;
    match goal with H : _ /\ _ |- _ => destruct H; discriminate end.
Qed.
End ScanIngest.

Lemma addLaserScan_result_witness :
  let st := Inputs.generator Inputs.bump in
  let ls : Inputs.Scan := [mkVector3d 0.5%float 0.5%float 0.25%float] in
  let body2Odo := Inputs.shift_by (mkVector3d 0.25%float 0%float 0%float) in
  let laser2Body := Inputs.identity in
  exists moved grid' accepted st',
    moveGridIfRobotNearBoundary Inputs.stay (boundarySize st) (translation body2Odo)
      (laserGrid st) = Ok moved grid'
    /\ addLaserScan Inputs.middle Inputs.acos_0_1 Inputs.shift_back Inputs.stay
         Inputs.scan_size Inputs.scan_cloud Inputs.scan_beam ls body2Odo laser2Body st
       = Ok accepted st'
    /\ laserGrid st'
       = grid_addLaserScan Inputs.middle [mkVector3d 0.75%float 0.5%float 0.25%float] grid'
    /\ (accepted = false <->
        (distanceBodyToLastBody Inputs.shift_back st body2Odo <? 0.05%float)%D = true
        /\ (laserChange Inputs.acos_0_1 st (t_mul body2Odo laser2Body)
            <? M_PI / 36%float)%D = true)
    /\ (accepted = true ->
        lastBody2Odo st' = body2Odo /\ lastLaser2Odo st' = t_mul body2Odo laser2Body)
    /\ (accepted = false ->
        lastBody2Odo st' = lastBody2Odo st /\ lastLaser2Odo st' = lastLaser2Odo st).
Proof.
  intros st ls body2Odo laser2Body.
  apply (addLaserScan_result Inputs.middle Inputs.acos_0_1 Inputs.shift_back Inputs.stay
           Inputs.scan_size Inputs.scan_cloud Inputs.scan_beam st ls body2Odo laser2Body
           [mkVector3d 0.75%float 0.5%float 0.25%float]).
  vm_compute. reflexivity.
Defined.

(** C4, the input on which the source fails: a robot that stands still,
    turned by 45 degrees.  The first scan is accepted and stores the two
    transforms.  The second scan comes with the same two transforms: the
    distance is 0, and the two laser Y axes are one and the same vector
    [Y], but the dot product of [Y] with itself is rounded to
    1.0000000000000002, above 1, so that [acos] gives a NaN and
    [laserChange < M_PI / 36.0] is false: the call returns true and
    stores the transforms again, although the robot has moved by less than
    0.05 m and turned by less than 5 degrees.  Where the dot product is
    not above 1 the test works: without the turn a scan at the stored pose
    returns false, and a scan 0.25 m away from it returns true. *)
Theorem addLaserScan_stationary_accepted :
  let st := Inputs.generator Inputs.bump in
  let ls : Inputs.Scan := [mkVector3d 0.5%float 0.5%float 0.25%float] in
  let laser2Body := Inputs.identity in
  let scan body2Odo :=
    addLaserScan Inputs.middle Inputs.acos_lib Inputs.rigid_inverse Inputs.stay
      Inputs.scan_size Inputs.scan_cloud Inputs.scan_beam ls body2Odo laser2Body in
  let body2Odo := Inputs.eighth_turn in
  let laser2Odo := t_mul body2Odo laser2Body in
  let Y := normalize (v3sub (t_apply laser2Odo UnitY) (translation laser2Odo)) in
  exists st1 st2 st3 st4,
    scan body2Odo st = Ok true st1
    /\ lastBody2Odo st1 = body2Odo
    /\ lastLaser2Odo st1 = laser2Odo
    /\ distanceBodyToLastBody Inputs.rigid_inverse st1 body2Odo = 0%float
    /\ normalize (v3sub (t_apply (lastLaser2Odo st1) UnitY)
                    (translation (lastLaser2Odo st1))) = Y
    /\ dot Y Y = 1.0000000000000002%float
    /\ laserChange Inputs.acos_lib st1 laser2Odo = PrimFloat.nan
    /\ scan body2Odo st1 = Ok true st2
    /\ scan Inputs.identity st = Ok false st3
    /\ distanceBodyToLastBody Inputs.rigid_inverse st
         (Inputs.shift_by (mkVector3d 0.25%float 0%float 0%float)) = 0.25%float
    /\ scan (Inputs.shift_by (mkVector3d 0.25%float 0%float 0%float)) st = Ok true st4.
Proof.
  cbv zeta. eexists. eexists. eexists. eexists.
  split; [vm_compute; reflexivity|].
  repeat split; vm_compute; reflexivity.
Qed.

(** ** Region stamping *)

Lemma getGridPoint_inGrid {T} (g : Grid T) p c :
  getGridPoint g p = Some c -> inGrid g c = true.
Proof.
  unfold getGridPoint.
  destruct (floor_to_int _) as [x|]; [|discriminate].
  destruct (floor_to_int _) as [y|]; [|discriminate].
  destruct (inGrid g (x, y)) eqn:E; [|discriminate]. now intros [= <-].
Qed.

Lemma getGridPoint_same_frame {T U} (g : Grid T) (g' : Grid U) p :
  same_frame g g' -> getGridPoint g' p = getGridPoint g p.
Proof.
  intros (Hw & Hh & Hr & Hp). unfold getGridPoint, inGrid.
  now rewrite Hw, Hh, Hr, Hp.
Qed.

Lemma for_each_ext {S X} (l : list X) (body body' : X -> M S unit) s :
  (forall x s, body x s = body' x s) -> for_each l body s = for_each l body' s.
Proof.
  intros E. revert s. induction l as [|x l IH]; intros s; cbn; [reflexivity|].
  unfold bind. rewrite E. destruct (body' x s); auto.
Qed.

(** A loop over doubles that ends within the fuel is the loop over the
    points of the lattice. *)
Lemma for_double_le_lattice1 {S} fuel x hi xs (body : double -> M S unit) s :
  lattice1 fuel x hi = Some xs ->
  for_double_le fuel x hi 0.03%float body s = for_each xs body s.
Proof.
  revert x xs s. induction fuel as [|fuel IH]; intros x xs s; cbn.
  - destruct (x <=? hi)%D; [discriminate|]. now intros [= <-].
  - destruct (x <=? hi)%D; [|now intros [= <-]].
    destruct (lattice1 fuel (x + 0.03%float)%D hi) as [l|] eqn:El; [|discriminate].
    intros [= <-]. cbn. unfold bind. destruct (body x s); auto.
Qed.

(** A loop over doubles whose body raises no exception raises none. *)
Lemma for_double_le_no_throw {S} (I : S -> Prop) fuel x hi step
    (body : double -> M S unit) s :
  (forall x s, I s -> no_throw I (body x s)) ->
  I s -> no_throw I (for_double_le fuel x hi step body s).
Proof.
  intros Hbody. revert x s. induction fuel as [|fuel IH]; intros x s Hs; cbn.
  - now destruct (x <=? hi)%D.
  - destruct (x <=? hi)%D; [|exact Hs].
    unfold bind. specialize (Hbody x s Hs).
    destruct (body x s) as [[] s'|e s'|]; cbn in *; auto.
Qed.

(** Reduce the projections of a generator that is given by its fields. *)
Ltac simpl_state :=
  cbn [traversabilityGrid laserGrid interpolatedGrid boundarySize maxStepSize
       lastBody2Odo lastLaser2Odo set_traversabilityGrid set_laserGrid
       set_interpolatedGrid set_last] in *.

Section StampingFacts.
Variable median_of : list double -> double.
Variable heading_of : Quaterniond -> double.
Variable rotateZ : double -> Vector3d -> Vector3d.

Lemma stamp_cell_frame type st c :
  grids_same_size st ->
  grids_same_size (stamp_cell median_of type st c)
  /\ same_frame (laserGrid st) (laserGrid (stamp_cell median_of type st c)).
Proof.
  intros [[Hiw Hih] [Htw Hth]]. unfold stamp_cell.
  destruct (is_unknown _); [|repeat split; assumption].
  destruct (bool_decide _ && negb _); repeat split; assumption.
Qed.

(** The body of the loops of the rectangle is the stamp of the cell under
    the point, if there is one. *)
Lemma markRectPoint_step pose heading type x y st :
  grids_same_size st ->
  markRectPoint median_of rotateZ pose heading type x y st
  = Ok tt (match getGridPoint (laserGrid st)
                   (v3add (position pose) (rotateZ heading (mkVector3d x y 0%float))) with
           | Some c => stamp_cell median_of type st c
           | None => st
           end).
Proof.
  intros [_ Ht]. unfold markRectPoint, bind, get.
  destruct (getGridPoint _ _) as [c|] eqn:Ec; [|reflexivity].
  apply getGridPoint_inGrid in Ec.
  assert (Etr : inGrid (traversabilityGrid st) c = true)
    by now rewrite (inGrid_same_size (laserGrid st) (traversabilityGrid st)).
  destruct st as [laser interp trav bs ms lb ll]; cbn in Ec, Etr.
  unfold on_traversabilityGrid, on_laserGrid, zoom, stamp_cell. simpl_state.
  rewrite (readState_in trav c Etr).
  destruct (is_unknown (cell trav c)); [|reflexivity]. simpl_state.
  rewrite (writeEntry_in trav c type Etr). simpl_state.
  destruct (decide (type = TRAVERSABLE)) as [->|Hne].
  - rewrite (readState_in laser c Ec). simpl_state.
    rewrite bool_decide_eq_true_2 by reflexivity. cbn [andb].
    destruct (measured (cell laser c)); cbn [negb]; [reflexivity|].
    now rewrite (writeEntry_in laser c _ Ec).
  - rewrite bool_decide_eq_false_2 by exact Hne. reflexivity.
Qed.

(** The loop over a list of points of the rectangle stamps the cells under
    them, one after the other. *)
Lemma markRectPoint_loop pose type st0 points st :
  grids_same_size st -> same_frame (laserGrid st0) (laserGrid st) ->
  for_each points
    (fun xy => markRectPoint median_of rotateZ pose (heading_of (orientation pose))
                 type xy.1 xy.2) st
  = Ok tt (foldl (stamp_cell median_of type) st
             (cells_under heading_of rotateZ st0 pose points)).
Proof.
  revert st. induction points as [|xy points IH]; intros st Hs Hf; [reflexivity|].
  cbn [for_each]. rewrite (bind_Ok _ _ _ _ _ (markRectPoint_step _ _ _ _ _ _ Hs)).
  unfold cells_under. cbn [omap list_omap].
  rewrite (getGridPoint_same_frame _ _ _ Hf).
  destruct (getGridPoint (laserGrid st0) _) as [c|]; [|now apply IH].
  destruct (stamp_cell_frame type st c Hs) as [Hs' Hf'].
  apply IH; [exact Hs'|].
  destruct Hf as (? & ? & ? & ?), Hf' as (? & ? & ? & ?). repeat split; congruence.
Qed.

(** The rectangle stamp, when its loops end within the fuel. *)
Lemma markUnknownInRectangeAs_run fuel pose width height forwardOffset type st points :
  grids_same_size st ->
  rect_points_code fuel width height forwardOffset = Some points ->
  markUnknownInRectangeAs median_of heading_of rotateZ fuel pose width height
    forwardOffset type st
  = Ok tt (foldl (stamp_cell median_of type) st
             (cells_under heading_of rotateZ st pose points)).
Proof.
  intros Hs Hpoints. unfold rect_points_code, lattice in Hpoints.
  destruct (lattice1 fuel (- width / 2%float)%D (width / 2%float)%D)
    as [xs|] eqn:Exs; [|discriminate].
  cbn [mbind option_bind] in Hpoints.
  destruct (lattice1 fuel (- height / 2%float)%D (height / 2%float + forwardOffset)%D)
    as [ys|] eqn:Eys; [|discriminate].
  cbn [mbind option_bind] in Hpoints. injection Hpoints as <-.
  unfold markUnknownInRectangeAs.
  rewrite (for_double_le_lattice1 _ _ _ _ _ _ Exs).
  rewrite (for_each_ext _ _
             (fun x => for_each ys (fun y =>
                markRectPoint median_of rotateZ pose (heading_of (orientation pose))
                  type x y))).
  - rewrite for_each_nested. apply markRectPoint_loop; [exact Hs|now repeat split].
  - intros x s. now apply for_double_le_lattice1.
Qed.

(** The rectangle stamp raises no exception, whatever the fuel. *)
Lemma markUnknownInRectangeAs_no_throw fuel pose width height forwardOffset type st :
  grids_same_size st ->
  no_throw grids_same_size
    (markUnknownInRectangeAs median_of heading_of rotateZ fuel pose width height
       forwardOffset type st).
Proof.
  intros Hs. unfold markUnknownInRectangeAs.
  apply for_double_le_no_throw; [|exact Hs].
  intros x s Hx. apply for_double_le_no_throw; [|exact Hx].
  intros y s' Hy. rewrite markRectPoint_step by exact Hy. cbn.
  destruct (getGridPoint _ _); [|exact Hy]. now apply stamp_cell_frame.
Qed.
End StampingFacts.

Section OverwritePolicy.
Variable median_of : list double -> double.

Lemma stamp_traversability_idem type v :
  stamp_traversability type (stamp_traversability type v) = stamp_traversability type v.
Proof. unfold stamp_traversability. destruct v, type; reflexivity. Qed.

(** A cell is seeded once: the stamp leaves it TRAVERSABLE. *)
Lemma stamp_elevation_idem type v e :
  stamp_elevation median_of type (stamp_traversability type v)
    (stamp_elevation median_of type v e)
  = stamp_elevation median_of type v e.
Proof.
  unfold stamp_elevation, stamp_traversability.
  destruct (is_unknown v) eqn:Ev; cbn [andb]; [|now rewrite Ev].
  destruct (decide (type = TRAVERSABLE)) as [->|Hne].
  - reflexivity.
  - rewrite bool_decide_eq_false_2 by exact Hne. now rewrite andb_false_r.
Qed.

Lemma stamp_cell_cells type st c0 c :
  cell (traversabilityGrid (stamp_cell median_of type st c0)) c
  = (if decide (c0 = c)
     then stamp_traversability type (cell (traversabilityGrid st) c)
     else cell (traversabilityGrid st) c)
  /\ cell (laserGrid (stamp_cell median_of type st c0)) c
     = (if decide (c0 = c)
        then stamp_elevation median_of type (cell (traversabilityGrid st) c)
               (cell (laserGrid st) c)
        else cell (laserGrid st) c).
Proof.
  unfold stamp_cell, stamp_traversability, stamp_elevation.
  destruct (decide (c0 = c)) as [->|Hne].
  - destruct (is_unknown (cell (traversabilityGrid st) c)); cbn [andb]; [|auto].
    destruct (bool_decide (type = TRAVERSABLE) && negb (measured (cell (laserGrid st) c)));
      simpl_state; rewrite ?cell_with_cell, ?decide_True by reflexivity; auto.
  - destruct (is_unknown (cell (traversabilityGrid st) c0)); [|auto].
    destruct (bool_decide (type = TRAVERSABLE) && negb (measured (cell (laserGrid st) c0)));
      simpl_state; rewrite ?cell_with_cell, ?decide_False by exact Hne; auto.
Qed.

(** The stamps of a list of cells: every cell of the list is stamped once,
    the others are as they were. *)
Lemma stamp_cells type cs st c :
  cell (traversabilityGrid (foldl (stamp_cell median_of type) st cs)) c
  = (if decide (c ∈ cs)
     then stamp_traversability type (cell (traversabilityGrid st) c)
     else cell (traversabilityGrid st) c)
  /\ cell (laserGrid (foldl (stamp_cell median_of type) st cs)) c
     = (if decide (c ∈ cs)
        then stamp_elevation median_of type (cell (traversabilityGrid st) c)
               (cell (laserGrid st) c)
        else cell (laserGrid st) c).
Proof.
  revert st. induction cs as [|c0 cs IH]; intros st.
  - cbn. rewrite decide_False by apply not_elem_of_nil. auto.
  - cbn [foldl]. destruct (IH (stamp_cell median_of type st c0)) as [-> ->].
    destruct (stamp_cell_cells type st c0 c) as [-> ->].
    destruct (decide (c0 = c)) as [->|Hne].
    + destruct (decide (c ∈ c :: cs)) as [_|Hn]; [|exfalso; apply Hn; now left].
      rewrite stamp_traversability_idem, stamp_elevation_idem.
      destruct (decide (c ∈ cs)); auto.
    + destruct (decide (c ∈ cs)) as [Hin|Hnin];
        destruct (decide (c ∈ c0 :: cs)) as [Hin'|Hnin']; auto.
      * exfalso. apply Hnin'. now right.
      * exfalso. apply elem_of_cons in Hin' as [->|]; auto.
Qed.
End OverwritePolicy.

(** C5 (as amended): the rectangle stamp visits the cells of the laser grid
    under the points of a lattice of step 0.03 m over the rectangle that
    reaches from -width/2 to width/2 across and from -height/2 to
    height/2 + forward_offset along the heading (the rectangle is made
    longer by forward_offset, it is not moved), turned by the heading and
    moved to the position of the pose.  When the two loops end, the call
    returns; every visited cell that was UNCLASSIFIED or UNKNOWN_OBSTACLE
    holds the given class, and when that class is TRAVERSABLE and the
    elevation entry of the cell has the count 0, the entry is seeded with
    one measurement of height 0; every other cell is as it was. *)
Theorem rectangle_stamp (median_of : list double -> double)
    (heading_of : Quaterniond -> double) (rotateZ : double -> Vector3d -> Vector3d)
    (fuel : nat) (pose : Pose) (width height forwardOffset : double)
    (type : Traversability) (st : TraversabilityMapGenerator)
    (points : list (double * double)) :
  grids_same_size st ->
  rect_points_code fuel width height forwardOffset = Some points ->
  exists st',
    markUnknownInRectangeAs median_of heading_of rotateZ fuel pose width height
      forwardOffset type st = Ok tt st'
    /\ forall c,
         cell (traversabilityGrid st') c
         = (if decide (c ∈ cells_under heading_of rotateZ st pose points)
            then stamp_traversability type (cell (traversabilityGrid st) c)
            else cell (traversabilityGrid st) c)
         /\ cell (laserGrid st') c
            = (if decide (c ∈ cells_under heading_of rotateZ st pose points)
               then stamp_elevation median_of type (cell (traversabilityGrid st) c)
                      (cell (laserGrid st) c)
               else cell (laserGrid st) c).
Proof.
  intros Hs Hpoints. eexists. split.
  - exact (markUnknownInRectangeAs_run median_of heading_of rotateZ fuel pose width
             height forwardOffset type st points Hs Hpoints).
  - intros c. apply stamp_cells.
Qed.

Lemma rectangle_stamp_witness :
  let st := Inputs.empty8 in
  let pose := Inputs.pose_at 0%float 0%float in
  let points := [((-0)%float, (-0.03125)%float);
                 ((-0)%float, (-0.0012500000000000011)%float);
                 ((-0)%float, 0.028749999999999998%float)] in
  exists st',
    markUnknownInRectangeAs Inputs.middle Inputs.no_heading Inputs.no_turn 10 pose
      0%float 0.0625%float 0%float TRAVERSABLE st = Ok tt st'
    /\ forall c,
         cell (traversabilityGrid st') c
         = (if decide (c ∈ cells_under Inputs.no_heading Inputs.no_turn st pose points)
            then stamp_traversability TRAVERSABLE (cell (traversabilityGrid st) c)
            else cell (traversabilityGrid st) c)
         /\ cell (laserGrid st') c
            = (if decide (c ∈ cells_under Inputs.no_heading Inputs.no_turn st pose points)
               then stamp_elevation Inputs.middle TRAVERSABLE
                      (cell (traversabilityGrid st) c) (cell (laserGrid st) c)
               else cell (laserGrid st) c).
Proof.
  intros st pose points.
  apply (rectangle_stamp Inputs.middle Inputs.no_heading Inputs.no_turn 10 pose
           0%float 0.0625%float 0%float TRAVERSABLE st points).
  - split; split; reflexivity.
  - vm_compute. reflexivity.
Defined.

(** C5, counterexample: a pose at the origin without turn, width 0, height
    0.0625 m and forward offset 1 m on a grid of cells of 0.5 m.  The
    rectangle of the specification lies between y = 0.96875 and
    y = 1.03125, over the cells (4,5) and (4,6); the source also stamps the
    cell (4,4), which lies between y = 0 and y = 0.5. *)
Lemma rectangle_stamp_counterexample :
  let st := Inputs.empty8 in
  let pose := Inputs.pose_at 0%float 0%float in
  exists st' points,
    markUnknownInRectangeAs Inputs.middle Inputs.no_heading Inputs.no_turn 100 pose
      0%float 0.0625%float 1%float OBSTACLE st = Ok tt st'
    /\ rect_points_spec 100 0%float 0.0625%float 1%float = Some points
    /\ cells_under Inputs.no_heading Inputs.no_turn st pose points = [(4, 5); (4, 5); (4, 6)]
    /\ cell (traversabilityGrid st) (4, 4) = UNCLASSIFIED
    /\ cell (traversabilityGrid st') (4, 4) = OBSTACLE.
Proof.
  eexists. eexists.
  split; [vm_compute; reflexivity|].
  split; [vm_compute; reflexivity|].
  repeat split; vm_compute; reflexivity.
Qed.

(** *** The radius stamp *)

(** A loop raises the exception of the first element whose body raises
    one; the state is the one that the elements before it have left. *)
Lemma for_each_prefix_throw {S X} (I : S -> Prop) (f : S -> X -> S)
    (body : X -> M S unit) l1 x0 l2 s e s' :
  I s ->
  (forall x s, x ∈ l1 -> I s -> body x s = Ok tt (f s x) /\ I (f s x)) ->
  body x0 (foldl f s l1) = Throw e s' ->
  for_each (l1 ++ x0 :: l2) body s = Throw e s'.
Proof.
  intros Hs Hbody Hthrow. rewrite for_each_app. unfold bind.
  destruct (for_each_fold I f body l1 s Hs Hbody) as [-> _].
  cbn [for_each]. unfold bind. now rewrite Hthrow.
Qed.

Section RadiusFacts.
Variable median_of : list double -> double.

Lemma stamp_radius_cell_frame type st c :
  grids_same_size st ->
  grids_same_size (stamp_radius_cell median_of type st c)
  /\ same_frame (traversabilityGrid st)
       (traversabilityGrid (stamp_radius_cell median_of type st c)).
Proof.
  intros [[Hiw Hih] [Htw Hth]]. unfold stamp_radius_cell.
  destruct (is_unknown _); [|repeat split; assumption].
  destruct (bool_decide _); repeat split; assumption.
Qed.

(** The body of the loops of the disc: skip outside the circle, fail on a
    cell outside the grid, stamp the cell otherwise. *)
Lemma markRadiusCell_step gridp radius type x y st :
  grids_same_size st ->
  markRadiusCell median_of gridp radius type x y st
  = if outside_circle (getGridResolution (traversabilityGrid st)) radius (x, y)
    then Ok tt st
    else if inGrid (traversabilityGrid st) (gridp.1 + x, gridp.2 + y)
         then Ok tt (stamp_radius_cell median_of type st (gridp.1 + x, gridp.2 + y))
         else Throw access_out_of_grid st.
Proof.
  intros [_ Ht]. unfold markRadiusCell, outside_circle, bind, get. cbn [fst snd].
  destruct (_ >? radius)%D; [reflexivity|].
  destruct (inGrid (traversabilityGrid st) (gridp.1 + x, gridp.2 + y)) eqn:Etr;
    [|reflexivity].
  assert (Ec : inGrid (laserGrid st) (gridp.1 + x, gridp.2 + y) = true)
    by now rewrite <- (inGrid_same_size (laserGrid st) (traversabilityGrid st)).
  set (c := (gridp.1 + x, gridp.2 + y)) in *.
  destruct st as [laser interp trav bs ms lb ll]. simpl_state. cbn [negb].
  unfold on_traversabilityGrid, on_laserGrid, zoom, stamp_radius_cell. simpl_state.
  rewrite (readState_in trav c Etr).
  destruct (is_unknown (cell trav c)); [|reflexivity]. simpl_state.
  rewrite (writeEntry_in trav c type Etr). simpl_state.
  destruct (decide (type = TRAVERSABLE)) as [->|Hne].
  - rewrite (readState_in laser c Ec). simpl_state.
    rewrite bool_decide_eq_true_2 by reflexivity.
    unfold modifyEntry, bind. rewrite (readState_in laser c Ec).
    now rewrite (writeEntry_in laser c _ Ec).
  - rewrite bool_decide_eq_false_2 by exact Hne. reflexivity.
Qed.

Lemma radius_step_frame gridp radius type st xy :
  grids_same_size st ->
  grids_same_size (radius_step median_of gridp radius type st xy)
  /\ same_frame (traversabilityGrid st)
       (traversabilityGrid (radius_step median_of gridp radius type st xy)).
Proof.
  intros Hs. unfold radius_step.
  destruct (outside_circle _ _ _); [|now apply stamp_radius_cell_frame].
  split; [exact Hs|now repeat split].
Qed.

(** The radius stamp is not atomic.  When the pose is in the cell [gridp]
    and the first offset of the loops that is within the circle and whose
    cell is outside the grid is [xy], the call raises "Access out of grid",
    and the state that it leaves is the one after the steps at the offsets
    [before] it. *)
Lemma radius_stamp_access_error (pose : Pose) radius type st gridp radiusGrid lo
    before xy after :
  grids_same_size st ->
  getGridPoint (traversabilityGrid st) (position pose) = Some gridp ->
  to_int (radius / getGridResolution (traversabilityGrid st))%D = Some radiusGrid ->
  in_int_range (- radiusGrid) = Some lo ->
  radius_offsets lo radiusGrid = before ++ xy :: after ->
  (forall q, q ∈ before ->
     outside_circle (getGridResolution (traversabilityGrid st)) radius q = true
     \/ inGrid (traversabilityGrid st) (gridp.1 + q.1, gridp.2 + q.2) = true) ->
  outside_circle (getGridResolution (traversabilityGrid st)) radius xy = false ->
  inGrid (traversabilityGrid st) (gridp.1 + xy.1, gridp.2 + xy.2) = false ->
  markUnknownInRadiusAs median_of pose radius type st
  = Throw access_out_of_grid (foldl (radius_step median_of gridp radius type) st before).
Proof.
  intros Hs Hpose Hrg Hlo Hoffsets Hbefore Hin Hout.
  unfold markUnknownInRadiusAs, bind, get. rewrite Hpose, Hrg. cbn [check ret].
  rewrite Hlo. cbn [check ret]. unfold for_int_lt. rewrite for_each_nested.
  fold (radius_offsets lo radiusGrid). rewrite Hoffsets.
  pose (I := fun s => grids_same_size s
                      /\ same_frame (traversabilityGrid st) (traversabilityGrid s)).
  assert (HI : forall l s, I s -> I (foldl (radius_step median_of gridp radius type) s l)).
  { induction l as [|q l IH]; intros s Hi; [exact Hi|]. cbn [foldl]. apply IH.
    destruct Hi as [Hi1 (? & ? & ? & ?)].
    destruct (radius_step_frame gridp radius type s q Hi1) as [Hs' (? & ? & ? & ?)].
    split; [exact Hs'|]. repeat split; congruence. }
  assert (Hst : I st) by (split; [exact Hs|now repeat split]).
  apply (for_each_prefix_throw I (radius_step median_of gridp radius type)); [exact Hst| |].
  - intros q s Hq Hi. split; [|now apply (HI [q])].
    destruct Hi as [Hi1 (Hw & Hh & Hr & _)].
    rewrite markRadiusCell_step by exact Hi1. unfold radius_step.
    rewrite <- Hr. destruct q as [x y]; cbn [fst snd] in *.
    destruct (Hbefore (x, y) Hq) as [Hc|Hg]; [now rewrite Hc|].
    destruct (outside_circle _ radius (x, y)); [reflexivity|].
    unfold inGrid in *. rewrite <- Hw, <- Hh. cbn [fst snd] in *. now rewrite Hg.
  - destruct (HI before st Hst) as [Hi1 (Hw & Hh & Hr & _)].
    rewrite markRadiusCell_step by exact Hi1.
    destruct xy as [x y]; cbn [fst snd] in *.
    rewrite <- Hr, Hin. unfold inGrid in *. rewrite <- Hw, <- Hh. cbn [fst snd] in *.
    now rewrite Hout.
Qed.

(** When every cell within the circle is in the grid, the stamp returns. *)
Lemma radius_stamp_returns (pose : Pose) radius type st gridp radiusGrid lo :
  grids_same_size st ->
  getGridPoint (traversabilityGrid st) (position pose) = Some gridp ->
  to_int (radius / getGridResolution (traversabilityGrid st))%D = Some radiusGrid ->
  in_int_range (- radiusGrid) = Some lo ->
  (forall q, q ∈ radius_offsets lo radiusGrid ->
     outside_circle (getGridResolution (traversabilityGrid st)) radius q = true
     \/ inGrid (traversabilityGrid st) (gridp.1 + q.1, gridp.2 + q.2) = true) ->
  markUnknownInRadiusAs median_of pose radius type st
  = Ok tt (foldl (radius_step median_of gridp radius type) st
             (radius_offsets lo radiusGrid)).
Proof.
  intros Hs Hpose Hrg Hlo Hall.
  unfold markUnknownInRadiusAs, bind, get. rewrite Hpose, Hrg. cbn [check ret].
  rewrite Hlo. cbn [check ret]. unfold for_int_lt. rewrite for_each_nested.
  fold (radius_offsets lo radiusGrid).
  pose (I := fun s => grids_same_size s
                      /\ same_frame (traversabilityGrid st) (traversabilityGrid s)).
  apply (for_each_fold I (radius_step median_of gridp radius type));
    [split; [exact Hs|now repeat split]|].
  intros q s Hq [Hi1 (Hw & Hh & Hr & Hp)]. split.
  - rewrite markRadiusCell_step by exact Hi1. unfold radius_step.
    rewrite <- Hr. destruct q as [x y]; cbn [fst snd] in *.
    destruct (Hall (x, y) Hq) as [Hc|Hg]; [now rewrite Hc|].
    destruct (outside_circle _ radius (x, y)); [reflexivity|].
    unfold inGrid in *. rewrite <- Hw, <- Hh. cbn [fst snd] in *. now rewrite Hg.
  - destruct (radius_step_frame gridp radius type s q Hi1) as [Hs' (? & ? & ? & ?)].
    split; [exact Hs'|]. repeat split; congruence.
Qed.

Lemma stamp_radius_cell_traversability type st c0 c :
  cell (traversabilityGrid (stamp_radius_cell median_of type st c0)) c
  = if decide (c0 = c)
    then stamp_traversability type (cell (traversabilityGrid st) c)
    else cell (traversabilityGrid st) c.
Proof.
  unfold stamp_radius_cell, stamp_traversability.
  destruct (decide (c0 = c)) as [->|Hne].
  - destruct (is_unknown (cell (traversabilityGrid st) c)); [|reflexivity].
    destruct (bool_decide (type = TRAVERSABLE)); simpl_state;
      now rewrite cell_with_cell, decide_True.
  - destruct (is_unknown (cell (traversabilityGrid st) c0)); [|reflexivity].
    destruct (bool_decide (type = TRAVERSABLE)); simpl_state;
      now rewrite cell_with_cell, decide_False.
Qed.

Lemma stamp_traversability_cons type (v : Traversability) (c0 c : Vector2i) cs :
  (if decide (c ∈ cs)
   then stamp_traversability type
          (if decide (c0 = c) then stamp_traversability type v else v)
   else if decide (c0 = c) then stamp_traversability type v else v)
  = if decide (c ∈ c0 :: cs) then stamp_traversability type v else v.
Proof.
  destruct (decide (c0 = c)) as [E|Hne];
    destruct (decide (c ∈ cs)) as [Hin|Hnin];
    destruct (decide (c ∈ c0 :: cs)) as [Hin'|Hnin'];
    rewrite ?stamp_traversability_idem; try reflexivity.
  - exfalso. apply Hnin'. now right.
  - exfalso. apply Hnin'. rewrite E. now left.
  - exfalso. apply Hnin'. now right.
  - exfalso. apply elem_of_cons in Hin' as [->|]; auto.
Qed.

Lemma radius_cells_cons resolution radius gridp q qs :
  radius_cells resolution radius gridp (q :: qs)
  = if outside_circle resolution radius q
    then radius_cells resolution radius gridp qs
    else (gridp.1 + q.1, gridp.2 + q.2) :: radius_cells resolution radius gridp qs.
Proof.
  unfold radius_cells. rewrite filter_cons.
  destruct (outside_circle resolution radius q).
  - now rewrite decide_False by discriminate.
  - now rewrite decide_True by reflexivity.
Qed.

(** The classes after the steps at a list of offsets: the cells within the
    circle hold the stamp, the others are as they were. *)
Lemma radius_steps_traversability gridp radius type qs st c :
  grids_same_size st ->
  cell (traversabilityGrid (foldl (radius_step median_of gridp radius type) st qs)) c
  = if decide (c ∈ radius_cells (getGridResolution (traversabilityGrid st)) radius
                     gridp qs)
    then stamp_traversability type (cell (traversabilityGrid st) c)
    else cell (traversabilityGrid st) c.
Proof.
  revert st. induction qs as [|q qs IH]; intros st Hs.
  - cbn. now rewrite decide_False by apply not_elem_of_nil.
  - cbn [foldl].
    destruct (radius_step_frame gridp radius type st q Hs) as [Hs' (_ & _ & Hr & _)].
    rewrite (IH _ Hs'), <- Hr, radius_cells_cons.
    unfold radius_step.
    destruct (outside_circle (getGridResolution (traversabilityGrid st)) radius q) eqn:Eq;
      [reflexivity|].
    + rewrite stamp_radius_cell_traversability. apply stamp_traversability_cons.
Qed.

Lemma first_split {X} (P : X -> bool) (l : list X) :
  (exists x, x ∈ l /\ P x = true) ->
  exists before x after,
    l = before ++ x :: after /\ P x = true /\ forall y, y ∈ before -> P y = false.
Proof.
  induction l as [|a l IH]; intros (x & Hx & HP); [inversion Hx|].
  destruct (P a) eqn:Ea.
  - exists [], a, l. repeat split; [exact Ea|]. intros y Hy. inversion Hy.
  - destruct IH as (before & x' & after & -> & HP' & Hbefore).
    + exists x. split; [|exact HP].
      apply elem_of_cons in Hx as [->|Hx]; [congruence|exact Hx].
    + exists (a :: before), x', after. repeat split; [exact HP'|].
      intros y Hy. apply elem_of_cons in Hy as [->|Hy]; auto.
Qed.

End RadiusFacts.

(** C6 (as amended): with a pose whose position is outside the
    traversability grid, the radius stamp fails with the error "Pose out of
    grid" and leaves the generator as it was; the rectangle stamp makes no
    such check and raises no error: when its loops end it has stamped the
    cells of the laser grid under the points of its rectangle, and a point
    outside the grid is skipped. *)
Theorem stamp_pose_out_of_grid (median_of : list double -> double)
    (heading_of : Quaterniond -> double) (rotateZ : double -> Vector3d -> Vector3d)
    (fuel : nat) (pose : Pose) (radius width height forwardOffset : double)
    (type : Traversability) (st : TraversabilityMapGenerator) :
  grids_same_size st ->
  getGridPoint (traversabilityGrid st) (position pose) = None ->
  markUnknownInRadiusAs median_of pose radius type st = Throw pose_out_of_grid st
  /\ (forall e st',
        markUnknownInRectangeAs median_of heading_of rotateZ fuel pose width height
          forwardOffset type st <> Throw e st')
  /\ (forall points,
        rect_points_code fuel width height forwardOffset = Some points ->
        markUnknownInRectangeAs median_of heading_of rotateZ fuel pose width height
          forwardOffset type st
        = Ok tt (foldl (stamp_cell median_of type) st
                   (cells_under heading_of rotateZ st pose points))).
Proof.
  intros Hs Hout. split; [|split].
  - unfold markUnknownInRadiusAs, bind, get. now rewrite Hout.
  - intros e st' E.
    pose proof (markUnknownInRectangeAs_no_throw median_of heading_of rotateZ fuel
                  pose width height forwardOffset type st Hs) as Hsafe.
    now rewrite E in Hsafe.
  - intros points Hpoints. now apply markUnknownInRectangeAs_run.
Qed.

Lemma stamp_pose_out_of_grid_witness :
  let st := Inputs.empty4 in
  let pose := Inputs.pose_at 2.0078125%float 0.5%float in
  markUnknownInRadiusAs Inputs.middle pose 1%float OBSTACLE st
  = Throw pose_out_of_grid st
  /\ (forall e st',
        markUnknownInRectangeAs Inputs.middle Inputs.no_heading Inputs.no_turn 100 pose
          0.0625%float 0.0625%float 0%float OBSTACLE st <> Throw e st')
  /\ (forall points,
        rect_points_code 100 0.0625%float 0.0625%float 0%float = Some points ->
        markUnknownInRectangeAs Inputs.middle Inputs.no_heading Inputs.no_turn 100 pose
          0.0625%float 0.0625%float 0%float OBSTACLE st
        = Ok tt (foldl (stamp_cell Inputs.middle OBSTACLE) st
                   (cells_under Inputs.no_heading Inputs.no_turn st pose points))).
Proof.
  intros st pose.
  apply (stamp_pose_out_of_grid Inputs.middle Inputs.no_heading Inputs.no_turn 100 pose
           1%float 0.0625%float 0.0625%float 0%float OBSTACLE st).
  - split; split; reflexivity.
  - vm_compute. reflexivity.
Defined.

(** C6, counterexample: the pose (2.0078125, 0.5) is outside the grid of
    4x4 cells of 1 m around the origin; the rectangle stamp returns without
    error and has stamped the cell (3,2). *)
Lemma stamp_pose_out_of_grid_counterexample :
  let st := Inputs.empty4 in
  let pose := Inputs.pose_at 2.0078125%float 0.5%float in
  getGridPoint (traversabilityGrid st) (position pose) = None
  /\ exists st',
       markUnknownInRectangeAs Inputs.middle Inputs.no_heading Inputs.no_turn 100 pose
         0.0625%float 0.0625%float 0%float OBSTACLE st = Ok tt st'
       /\ cell (traversabilityGrid st) (3, 2) = UNCLASSIFIED
       /\ cell (traversabilityGrid st') (3, 2) = OBSTACLE.
Proof.
  split; [vm_compute; reflexivity|].
  eexists. split; [vm_compute; reflexivity|].
  split; vm_compute; reflexivity.
Qed.

(** C10, the code at a failing input: the pose (1.5, 0.5) is in the cell
    (3,2) of the grid of 4x4 cells of 1 m, the radius is 1.5 m.  The cell
    (4,2) is at 1 m of the pose, within the radius, and outside the grid;
    the loops run over the offsets -1 and 0 only ([x < radiusGrid]), never
    reach it, and the call returns without error. *)
Theorem radius_stamp_misses_far_edge :
  let st := Inputs.empty4 in
  let pose := Inputs.pose_at 1.5%float 0.5%float in
  let resolution := getGridResolution (traversabilityGrid st) in
  getGridPoint (traversabilityGrid st) (position pose) = Some (3, 2)
  /\ inGrid (traversabilityGrid st) (3 + 1, 2 + 0) = false
  /\ (Double.sqrt (of_int 1 * resolution * (of_int 1 * resolution)
                   + of_int 0 * resolution * (of_int 0 * resolution))
      >? 1.5%float)%D = false
  /\ exists st',
       markUnknownInRadiusAs Inputs.middle pose 1.5%float OBSTACLE st = Ok tt st'.
Proof.
  repeat split; try (vm_compute; reflexivity).
  eexists. vm_compute. reflexivity.
Qed.

(** The part of C10 that the source does: the pose (0.5, -1.5) is in the
    cell (2,0), the radius is 1 m.  The cell (1,0) is stamped, then the
    cell (2,-1) is outside the grid: the error "Access out of grid" leaves,
    and the cell (1,0) keeps the class OBSTACLE. *)
Lemma radius_stamp_not_atomic :
  let st := Inputs.empty4 in
  let pose := Inputs.pose_at 0.5%float (-1.5)%float in
  getGridPoint (traversabilityGrid st) (position pose) = Some (2, 0)
  /\ exists st',
       markUnknownInRadiusAs Inputs.middle pose 1%float OBSTACLE st
       = Throw access_out_of_grid st'
       /\ cell (traversabilityGrid st) (1, 0) = UNCLASSIFIED
       /\ cell (traversabilityGrid st') (1, 0) = OBSTACLE.
Proof.
  split; [vm_compute; reflexivity|].
  eexists. split; [vm_compute; reflexivity|].
  split; vm_compute; reflexivity.
Qed.

(** ** The grid dump *)

(** Writes at the indices [idx q] of an array, for the elements [q] of a
    list on which [idx] is injective: every write is still there. *)
Lemma length_foldl_insert {A X} (idx : X -> nat) (v : X -> A) (qs : list X) (l : list A) :
  length (foldl (fun l q => <[idx q := v q]> l) l qs) = length l.
Proof.
  revert l. induction qs as [|q qs IH]; intros l; cbn; [reflexivity|].
  now rewrite IH, length_insert.
Qed.

Lemma lookup_foldl_insert {A X} (idx : X -> nat) (v : X -> A) (qs : list X)
    (l : list A) (q0 : X) :
  q0 ∈ qs ->
  (forall q q', q ∈ qs -> q' ∈ qs -> idx q = idx q' -> q = q') ->
  (idx q0 < length l)%nat ->
  foldl (fun l q => <[idx q := v q]> l) l qs !! idx q0 = Some (v q0).
Proof.
  induction qs as [|q qs IH] using rev_ind; intros Hin Hinj Hlen; [inversion Hin|].
  rewrite foldl_snoc.
  destruct (decide (idx q = idx q0)) as [E|Hne].
  - assert (q = q0) as ->.
    { apply Hinj; [apply elem_of_app; right; now left|exact Hin|exact E]. }
    apply list_lookup_insert_eq. now rewrite length_foldl_insert.
  - rewrite list_lookup_insert_ne by exact Hne.
    apply IH; [|intros a b Ha Hb; apply Hinj; apply elem_of_app; now left|exact Hlen].
    apply elem_of_app in Hin as [Hin|Hin]; [exact Hin|].
    apply list_elem_of_singleton in Hin. congruence.
Qed.

Lemma array_set_in {A} i (v : A) (a : list A) :
  0 <= i -> i + 1 <= Z.of_nat (length a) ->
  array_set i v a = Some (<[Z.to_nat i := v]> a).
Proof.
  intros H0 H1. unfold array_set.
  replace (0 <=? i) with true by (symmetry; apply Z.leb_le; lia).
  replace (i <? Z.of_nat (length a)) with true by (symmetry; apply Z.ltb_lt; lia).
  reflexivity.
Qed.

Lemma assign_Some f gd gd' : f gd = Some gd' -> assign f gd = Ok tt gd'.
Proof. intros E. unfold assign, bind, get. now rewrite E. Qed.

Section DumpFacts.
Variable st : TraversabilityMapGenerator.

Lemma dump_cell_fold gd qs :
  let step := dump_cell (getWidth (laserGrid st)) (interpolatedGrid st)
                (traversabilityGrid st) in
  let idx := fun q : Vector2i => Z.to_nat (q.1 * getWidth (laserGrid st) + q.2) in
  gd_height (foldl step gd qs)
  = foldl (fun l q => <[idx q := dump_height (cell (interpolatedGrid st) q)]> l)
      (gd_height gd) qs
  /\ gd_max (foldl step gd qs)
     = foldl (fun l q => <[idx q := getMaximum (cell (interpolatedGrid st) q)]> l)
         (gd_max gd) qs
  /\ gd_interpolated (foldl step gd qs)
     = foldl (fun l q => <[idx q := isInterpolated (cell (interpolatedGrid st) q)]> l)
         (gd_interpolated gd) qs
  /\ gd_traversability (foldl step gd qs)
     = foldl (fun l q => <[idx q := cell (traversabilityGrid st) q]> l)
         (gd_traversability gd) qs
  /\ gridPositionX (foldl step gd qs) = gridPositionX gd
  /\ gridPositionY (foldl step gd qs) = gridPositionY gd
  /\ gridPositionZ (foldl step gd qs) = gridPositionZ gd.
Proof.
  intros step idx. revert gd. induction qs as [|q qs IH]; intros gd; cbn [foldl].
  - repeat split.
  - apply (IH (step gd q)).
Qed.

(** The body of the two loops at a cell of the grid whose index is inside
    the four arrays. *)
Lemma getGridDump_step x y gd :
  grids_same_size st ->
  inGrid (laserGrid st) (x, y) = true ->
  dump_capacity (x * getWidth (laserGrid st) + y + 1) gd ->
  (let laser := laserGrid st in
   let i := x * getWidth laser + y in
   e <- readEntry (interpolatedGrid st) (x, y) ;;
   (if measured e then assign (set_height i (getMedian e))
    else assign (set_height i INFINITY)) ;;
   e <- readEntry (interpolatedGrid st) (x, y) ;;
   assign (set_max i (getMaximum e)) ;;
   e <- readEntry (interpolatedGrid st) (x, y) ;;
   assign (set_interpolated i (isInterpolated e)) ;;
   t <- readEntry (traversabilityGrid st) (x, y) ;;
   assign (set_traversability i t)) gd
  = Ok tt (dump_cell (getWidth (laserGrid st)) (interpolatedGrid st)
             (traversabilityGrid st) gd (x, y)).
Proof.
  intros [Hi Ht] Hin (Hh & Hm & Hint & Htr).
  assert (Ei : inGrid (interpolatedGrid st) (x, y) = true)
    by now rewrite (inGrid_same_size (laserGrid st) (interpolatedGrid st)).
  assert (Et : inGrid (traversabilityGrid st) (x, y) = true)
    by now rewrite (inGrid_same_size (laserGrid st) (traversabilityGrid st)).
  apply inGrid_spec in Hin. cbn [fst snd] in Hin.
  assert (0 <= x * getWidth (laserGrid st) + y) by nia.
  cbn zeta. unfold dump_cell, dump_height. cbn [fst snd].
  set (i := x * getWidth (laserGrid st) + y) in *.
  rewrite (bind_Ok _ _ _ _ _ (readEntry_in _ _ _ Ei)).
  destruct (measured (cell (interpolatedGrid st) (x, y)));
    (erewrite bind_Ok;
     [|apply assign_Some; unfold set_height; rewrite array_set_in by assumption;
       reflexivity]);
    rewrite (bind_Ok _ _ _ _ _ (readEntry_in _ _ _ Ei));
    (erewrite bind_Ok;
     [|apply assign_Some; unfold set_max; cbn [gd_max];
       rewrite array_set_in by assumption; reflexivity]);
    rewrite (bind_Ok _ _ _ _ _ (readEntry_in _ _ _ Ei));
    (erewrite bind_Ok;
     [|apply assign_Some; unfold set_interpolated; cbn [gd_interpolated];
       rewrite array_set_in by assumption; reflexivity]);
    rewrite (bind_Ok _ _ _ _ _ (readEntry_in _ _ _ Et));
    (erewrite assign_Some;
     [|unfold set_traversability; cbn [gd_traversability];
       rewrite array_set_in by assumption; reflexivity]);
    reflexivity.
Qed.

Lemma grids_same_sizeb_true : grids_same_size st -> grids_same_sizeb st = true.
Proof.
  intros [[Hiw Hih] [Htw Hth]]. unfold grids_same_sizeb.
  rewrite <- Hiw, <- Hih, <- Htw, <- Hth. now rewrite !Z.eqb_refl.
Qed.

Lemma dump_cell_lengths gd q :
  dump_lengths (dump_cell (getWidth (laserGrid st)) (interpolatedGrid st)
                  (traversabilityGrid st) gd q) = dump_lengths gd.
Proof. unfold dump_lengths, dump_cell. cbn. now rewrite !length_insert. Qed.

(** The index [x * width + y] is in the arrays and tells the cells of the
    grid apart when the height is at most the width. *)
Lemma dump_index_bound x y :
  getHeight (laserGrid st) <= getWidth (laserGrid st) ->
  inGrid (laserGrid st) (x, y) = true ->
  0 <= x * getWidth (laserGrid st) + y
  /\ x * getWidth (laserGrid st) + y + 1
     <= getWidth (laserGrid st) * getWidth (laserGrid st).
Proof. intros Hle Hin. apply inGrid_spec in Hin. cbn [fst snd] in Hin. nia. Qed.

Lemma dump_index_inj (q q' : Vector2i) :
  getHeight (laserGrid st) <= getWidth (laserGrid st) ->
  inGrid (laserGrid st) q = true -> inGrid (laserGrid st) q' = true ->
  Z.to_nat (q.1 * getWidth (laserGrid st) + q.2)
  = Z.to_nat (q'.1 * getWidth (laserGrid st) + q'.2) ->
  q = q'.
Proof.
  intros Hle Hq Hq' E. destruct q as [x y], q' as [x' y'].
  apply inGrid_spec in Hq, Hq'. cbn [fst snd] in *.
  assert (x * getWidth (laserGrid st) + y = x' * getWidth (laserGrid st) + y') by nia.
  assert (x = x') by nia. subst x'. f_equal. lia.
Qed.

(** X12: on grids whose height is at most their width (square grids among
    them) and with arrays of width x width elements, [getGridDump] returns
    and the element [x * width + y] of each array holds the value of the
    cell (x, y). *)
Lemma getGridDump_wide gd :
  grids_same_size st ->
  getHeight (laserGrid st) <= getWidth (laserGrid st) ->
  dump_capacity (getWidth (laserGrid st) * getWidth (laserGrid st)) gd ->
  exists gd',
    getGridDump st gd = Ok tt gd'
    /\ (forall x y, inGrid (laserGrid st) (x, y) = true ->
          let i := Z.to_nat (x * getWidth (laserGrid st) + y) in
          let e := cell (interpolatedGrid st) (x, y) in
          gd_height gd' !! i = Some (dump_height e)
          /\ gd_max gd' !! i = Some (getMaximum e)
          /\ gd_interpolated gd' !! i = Some (isInterpolated e)
          /\ gd_traversability gd' !! i = Some (cell (traversabilityGrid st) (x, y)))
    /\ gridPositionX gd' = v3x (getGridPosition (traversabilityGrid st))
    /\ gridPositionY gd' = v3y (getGridPosition (traversabilityGrid st))
    /\ gridPositionZ gd' = v3z (getGridPosition (traversabilityGrid st)).
Proof.
  intros Hs Hle Hcap.
  set (step := dump_cell (getWidth (laserGrid st)) (interpolatedGrid st)
                 (traversabilityGrid st)).
  assert (Erun : getGridDump st gd
                 = Ok tt (set_gridPosition (getGridPosition (traversabilityGrid st))
                            (foldl step gd (grid_points (laserGrid st))))).
  { unfold getGridDump. rewrite (grids_same_sizeb_true Hs). cbn [negb]. cbn zeta.
    eapply eq_trans; [apply bind_Ok|reflexivity].
    unfold for_int_lt. rewrite for_each_nested. fold (grid_points (laserGrid st)).
    refine (proj1 (for_each_fold (fun g => dump_lengths g = dump_lengths gd) step
                     _ _ gd eq_refl _)).
    intros [x y] g Hq Hg. apply elem_of_grid_points in Hq.
    split; [|unfold step; now rewrite dump_cell_lengths].
    apply getGridDump_step; [exact Hs|exact Hq|].
    destruct (dump_index_bound x y Hle Hq) as [_ Hb].
    destruct Hcap as (? & ? & ? & ?). unfold dump_lengths in Hg.
    injection Hg as E1 E2 E3 E4. unfold dump_capacity.
    rewrite E1, E2, E3, E4. repeat split; lia. }
  eexists. split; [exact Erun|].
  destruct (dump_cell_fold gd (grid_points (laserGrid st)))
    as (Eh & Em & Ei & Et & Ex & Ey & Ez).
  fold step in Eh, Em, Ei, Et, Ex, Ey, Ez.
  cbn [set_gridPosition gd_height gd_max gd_interpolated gd_traversability
       gridPositionX gridPositionY gridPositionZ].
  split; [|auto].
  intros x y Hin. cbn zeta. rewrite Eh, Em, Ei, Et.
  destruct (dump_index_bound x y Hle Hin) as [H0 Hb].
  destruct Hcap as (? & ? & ? & ?).
  assert (Hq : (x, y) ∈ grid_points (laserGrid st)) by now apply elem_of_grid_points.
  assert (Hinj : forall q q' : Vector2i,
            q ∈ grid_points (laserGrid st) -> q' ∈ grid_points (laserGrid st) ->
            Z.to_nat (q.1 * getWidth (laserGrid st) + q.2)
            = Z.to_nat (q'.1 * getWidth (laserGrid st) + q'.2) -> q = q').
  { intros q q' Hq1 Hq2. apply dump_index_inj; [exact Hle| |];
      now apply elem_of_grid_points. }
  pose (idx := fun q : Vector2i => Z.to_nat (q.1 * getWidth (laserGrid st) + q.2)).
  split; [|split; [|split]].
  - apply (lookup_foldl_insert idx
             (fun q => dump_height (cell (interpolatedGrid st) q)) _ _ (x, y) Hq Hinj).
    unfold idx. cbn [fst snd]. lia.
  - apply (lookup_foldl_insert idx
             (fun q => getMaximum (cell (interpolatedGrid st) q)) _ _ (x, y) Hq Hinj).
    unfold idx. cbn [fst snd]. lia.
  - apply (lookup_foldl_insert idx
             (fun q => isInterpolated (cell (interpolatedGrid st) q)) _ _ (x, y) Hq Hinj).
    unfold idx. cbn [fst snd]. lia.
  - apply (lookup_foldl_insert idx
             (fun q => cell (traversabilityGrid st) q) _ _ (x, y) Hq Hinj).
    unfold idx. cbn [fst snd]. lia.
Qed.
End DumpFacts.

(** C7, the code at a failing input: on grids of 2x3 cells the cells (0,2)
    and (1,0) share the index [x * width + y = 2]; the dump holds the
    values of (1,0) there, the median 12 and the class OBSTACLE of the cell
    (0,2) are nowhere in the arrays, and the element 5 is never written. *)
Theorem grid_dump_loses_cell :
  getMedian (cell (interpolatedGrid Inputs.tall) (0, 2)) = 12%float
  /\ cell (traversabilityGrid Inputs.tall) (0, 2) = OBSTACLE
  /\ exists gd,
       getGridDump Inputs.tall (Inputs.blank_dump 6) = Ok tt gd
       /\ gd_height gd = [10; 11; 20; 21; 22; 0]%float
       /\ gd_max gd = [10; 11; 20; 21; 22; 0]%float
       /\ gd_traversability gd
          = [TRAVERSABLE; TRAVERSABLE; TRAVERSABLE; TRAVERSABLE; TRAVERSABLE;
             UNCLASSIFIED].
Proof.
  split; [vm_compute; reflexivity|].
  split; [vm_compute; reflexivity|].
  eexists. split; [vm_compute; reflexivity|].
  repeat split; vm_compute; reflexivity.
Qed.


(** * Further properties of the passes *)

(** ** The smoothing pass *)

Section SmoothingPass.
Variable median_of : list double -> double.

Lemma count_foldl_add (e : ElevationEntry) hs :
  getMeasurementCount (foldl (fun t h => addHeightMeasurement median_of h t) e hs)
  = getMeasurementCount e + Z.of_nat (length hs).
Proof.
  induction hs as [|h hs IH] using rev_ind; [cbn; lia|].
  rewrite foldl_snoc, length_app. cbn. rewrite IH. lia.
Qed.

Lemma interpolated_entry_measured source p :
  measured (interpolated_entry median_of source p)
  = measured (cell source p) || fires_code source p.
Proof.
  unfold interpolated_entry.
  destruct (measured (cell source p)) eqn:Em; [now rewrite Em|].
  destruct (fires_code source p) eqn:Ef; [|now rewrite Em].
  unfold measured in *. cbn [getMeasurementCount setInterpolatedMeasurement orb].
  rewrite count_foldl_add.
  apply negb_false_iff, Z.eqb_eq in Em. rewrite Em.
  pose proof (fires_code_measured source p Ef) as Hne.
  destruct (measured_medians source (block p)); [congruence|].
  apply negb_true_iff, Z.eqb_neq. cbn [length]. lia.
Qed.
End SmoothingPass.

(** X1: [smoothElevationGrid] on grids of one size returns; the target has
    the position of the source and keeps its size and resolution; a
    measured cell of the source is copied unchanged, an unmeasured cell on
    which interpolation does not fire is copied unchanged too, and the cells
    outside the grid are not written. *)
Theorem smoothElevationGrid_copies (median_of : list double -> double)
    (source target : ElevationGrid) :
  same_size source target ->
  exists target',
    smoothElevationGrid median_of source target = Ok tt target'
    /\ getGridPosition target' = getGridPosition source
    /\ same_size target target'
    /\ getGridResolution target' = getGridResolution target
    /\ (forall p, inGrid source p = true ->
          measured (cell source p) = true \/ fires_code source p = false ->
          cell target' p = cell source p)
    /\ (forall p, inGrid source p = false -> cell target' p = cell target p).
Proof.
  intros Hsize. eexists. split; [now apply smoothElevationGrid_run|].
  destruct (fill_shape (interpolated_entry median_of source)
              (setGridPosition (getGridPosition source) target) (grid_points source))
    as (Hw & Hh & Hr & Hp).
  split; [exact Hp|]. split; [split; [now rewrite Hw|now rewrite Hh]|].
  split; [exact Hr|]. split; intros p Hin.
  - intros Hcopy. rewrite cell_fill, decide_True by now apply elem_of_grid_points.
    unfold interpolated_entry.
    destruct (measured (cell source p)); [reflexivity|].
    destruct Hcopy as [Hm|Hf]; [discriminate|now rewrite Hf].
  - rewrite cell_fill, decide_False; [reflexivity|].
    rewrite elem_of_grid_points. now rewrite Hin.
Qed.

Lemma smoothElevationGrid_copies_witness :
  exists target',
    smoothElevationGrid Inputs.middle Inputs.between (Inputs.elevation 3 3 1%float [])
    = Ok tt target'
    /\ getGridPosition target' = getGridPosition Inputs.between
    /\ same_size (Inputs.elevation 3 3 1%float []) target'
    /\ getGridResolution target' = getGridResolution (Inputs.elevation 3 3 1%float [])
    /\ (forall p, inGrid Inputs.between p = true ->
          measured (cell Inputs.between p) = true \/ fires_code Inputs.between p = false ->
          cell target' p = cell Inputs.between p)
    /\ (forall p, inGrid Inputs.between p = false ->
          cell target' p = cell (Inputs.elevation 3 3 1%float []) p).
Proof.
  apply (smoothElevationGrid_copies Inputs.middle Inputs.between
           (Inputs.elevation 3 3 1%float [])).
  split; reflexivity.
Defined.

(** X2: after [smoothElevationGrid], a cell of the grid is measured in the
    target exactly when it is measured in the source or interpolation fires
    on it; a cell on which interpolation fires is flagged interpolated and
    its count is the number of measured cells around it.  So a measured
    cell of the target was measured in the source or is interpolated. *)
Theorem smoothElevationGrid_known (median_of : list double -> double)
    (source target : ElevationGrid) (p : Vector2i) :
  same_size source target ->
  inGrid source p = true ->
  exists target',
    smoothElevationGrid median_of source target = Ok tt target'
    /\ measured (cell target' p) = measured (cell source p) || fires_code source p
    /\ (measured (cell source p) = false -> fires_code source p = true ->
        isInterpolated (cell target' p) = true
        /\ getMeasurementCount (cell target' p)
           = Z.of_nat (length (measured_medians source (neighbours8 p))))
    /\ (measured (cell target' p) = true ->
        measured (cell source p) = true \/ isInterpolated (cell target' p) = true).
Proof.
  intros Hsize Hin. eexists. split; [now apply smoothElevationGrid_run|].
  rewrite cell_fill, decide_True by now apply elem_of_grid_points.
  assert (Hfire : measured (cell source p) = false -> fires_code source p = true ->
            isInterpolated (interpolated_entry median_of source p) = true
            /\ getMeasurementCount (interpolated_entry median_of source p)
               = Z.of_nat (length (measured_medians source (neighbours8 p)))).
  { intros Hm Hf. unfold interpolated_entry. rewrite Hm, Hf.
    cbn [isInterpolated getMeasurementCount setInterpolatedMeasurement].
    split; [reflexivity|]. rewrite count_foldl_add.
    rewrite measured_medians_neighbours by exact Hm.
    unfold measured in Hm. apply negb_false_iff, Z.eqb_eq in Hm. lia. }
  split; [apply interpolated_entry_measured|]. split; [exact Hfire|].
  rewrite interpolated_entry_measured. intros Hor.
  destruct (measured (cell source p)) eqn:Hm; [now left|]. right.
  now apply Hfire.
Qed.

Lemma smoothElevationGrid_known_witness :
  exists target',
    smoothElevationGrid Inputs.middle Inputs.between (Inputs.elevation 3 3 1%float [])
    = Ok tt target'
    /\ measured (cell target' (1, 1))
       = measured (cell Inputs.between (1, 1)) || fires_code Inputs.between (1, 1)
    /\ (measured (cell Inputs.between (1, 1)) = false ->
        fires_code Inputs.between (1, 1) = true ->
        isInterpolated (cell target' (1, 1)) = true
        /\ getMeasurementCount (cell target' (1, 1))
           = Z.of_nat (length (measured_medians Inputs.between (neighbours8 (1, 1)))))
    /\ (measured (cell target' (1, 1)) = true ->
        measured (cell Inputs.between (1, 1)) = true
        \/ isInterpolated (cell target' (1, 1)) = true).
Proof.
  apply (smoothElevationGrid_known Inputs.middle Inputs.between
           (Inputs.elevation 3 3 1%float []) (1, 1)).
  - split; reflexivity.
  - reflexivity.
Defined.

(** ** Reclassification and [computeNewMap] *)

Section FillFacts.
Context {T : Type} `{Inhabited T}.

Lemma lookup_fill (F : Vector2i -> T) (g : Grid T) qs q :
  cells (fill F g qs) !! q = if decide (q ∈ qs) then Some (F q) else cells g !! q.
Proof.
  revert g. induction qs as [|p qs IH]; intros g; cbn.
  - now rewrite decide_False by apply not_elem_of_nil.
  - fold (fill F (with_cell g p (F p)) qs). rewrite IH. cbn [with_cell cells].
    destruct (decide (q ∈ qs)) as [Hin|Hnin].
    + now rewrite decide_True by now right.
    + destruct (decide (p = q)) as [->|Hne].
      * rewrite decide_True by now left. apply lookup_insert_eq.
      * rewrite lookup_insert_ne by exact Hne.
        rewrite decide_False; [reflexivity|].
        intros Hin. apply elem_of_cons in Hin as [->|]; auto.
Qed.

(** Filling the cells [qs] of two grids of one frame that agree on the
    other cells gives one grid. *)
Lemma fill_over (F : Vector2i -> T) (g1 g2 : Grid T) pos qs :
  getWidth g1 = getWidth g2 -> getHeight g1 = getHeight g2 ->
  getGridResolution g1 = getGridResolution g2 ->
  (forall q, q ∉ qs -> cells g1 !! q = cells g2 !! q) ->
  fill F (setGridPosition pos g1) qs = fill F (setGridPosition pos g2) qs.
Proof.
  intros Hw Hh Hr Hcells.
  destruct (fill_shape F (setGridPosition pos g1) qs) as (Hw1 & Hh1 & Hr1 & Hp1).
  destruct (fill_shape F (setGridPosition pos g2) qs) as (Hw2 & Hh2 & Hr2 & Hp2).
  assert (Ec : cells (fill F (setGridPosition pos g1) qs)
               = cells (fill F (setGridPosition pos g2) qs)).
  { apply map_eq. intros q. rewrite !lookup_fill.
    case_decide; [reflexivity|]. cbn. now apply Hcells. }
  destruct (fill F (setGridPosition pos g1) qs), (fill F (setGridPosition pos g2) qs).
  cbn in *. congruence.
Qed.

(** Filling again changes nothing. *)
Lemma fill_again (F : Vector2i -> T) (g : Grid T) pos qs :
  fill F (setGridPosition pos (fill F (setGridPosition pos g) qs)) qs
  = fill F (setGridPosition pos g) qs.
Proof.
  destruct (fill_shape F (setGridPosition pos g) qs) as (Hw & Hh & Hr & Hp).
  apply fill_over; [exact Hw|exact Hh|exact Hr|].
  intros q Hq. rewrite lookup_fill. now rewrite decide_False.
Qed.
End FillFacts.

(** X3: the pass [updateTraversabilityGrid] forgets the old classes: from
    two traversability grids of the size of the elevation grid it leaves
    the same class in every cell of the grid (a class stamped before the
    pass is lost), and a second pass over its own result changes nothing. *)
Theorem updateTraversabilityGrid_forgets (maxStepSize : double)
    (elGrid : ElevationGrid) (trGrid1 trGrid2 : TraversabilityGrid) :
  same_size elGrid trGrid1 -> same_size elGrid trGrid2 ->
  exists trGrid1' trGrid2',
    updateTraversabilityGrid maxStepSize elGrid trGrid1 = Ok tt trGrid1'
    /\ updateTraversabilityGrid maxStepSize elGrid trGrid2 = Ok tt trGrid2'
    /\ (forall p, inGrid elGrid p = true -> cell trGrid1' p = cell trGrid2' p)
    /\ updateTraversabilityGrid maxStepSize elGrid trGrid1' = Ok tt trGrid1'.
Proof.
  intros H1 H2. eexists. eexists.
  split; [now apply updateTraversabilityGrid_run|].
  split; [now apply updateTraversabilityGrid_run|]. split.
  - intros p Hp. rewrite !cell_fill.
    now rewrite !decide_True by now apply elem_of_grid_points.
  - rewrite updateTraversabilityGrid_run.
    + now rewrite fill_again.
    + destruct (fill_shape (classify_block maxStepSize elGrid)
                  (setGridPosition (getGridPosition elGrid) trGrid1)
                  (grid_points elGrid)) as (Hw & Hh & _).
      destruct H1 as [H1w H1h]. split; cbn in *; congruence.
Qed.

Lemma updateTraversabilityGrid_forgets_witness :
  exists trGrid1' trGrid2',
    updateTraversabilityGrid 0.2%float Inputs.bump (Inputs.unclassified 3 3 1%float)
    = Ok tt trGrid1'
    /\ updateTraversabilityGrid 0.2%float Inputs.bump
         (traversabilityGrid (Inputs.generator Inputs.between)) = Ok tt trGrid2'
    /\ (forall p, inGrid Inputs.bump p = true -> cell trGrid1' p = cell trGrid2' p)
    /\ updateTraversabilityGrid 0.2%float Inputs.bump trGrid1' = Ok tt trGrid1'.
Proof.
  apply (updateTraversabilityGrid_forgets 0.2%float Inputs.bump
           (Inputs.unclassified 3 3 1%float)
           (traversabilityGrid (Inputs.generator Inputs.between))).
  - split; reflexivity.
  - split; reflexivity.
Defined.

Section ComputeNewMap.
Variable median_of : list double -> double.

(** The state after [computeNewMap]. *)
Lemma computeNewMap_run (st : TraversabilityMapGenerator) :
  grids_same_size st ->
  let interpolated :=
    fill (interpolated_entry median_of (laserGrid st))
      (setGridPosition (getGridPosition (laserGrid st)) (interpolatedGrid st))
      (grid_points (laserGrid st)) in
  computeNewMap median_of st
  = Ok tt (mkGenerator (laserGrid st) interpolated
             (fill (classify_block (maxStepSize st) interpolated)
                (setGridPosition (getGridPosition interpolated) (traversabilityGrid st))
                (grid_points interpolated))
             (boundarySize st) (maxStepSize st) (lastBody2Odo st) (lastLaser2Odo st)).
Proof.
  intros [Hi Ht] interpolated.
  unfold computeNewMap, bind, get, on_interpolatedGrid, on_traversabilityGrid, zoom.
  rewrite (smoothElevationGrid_run median_of (laserGrid st) (interpolatedGrid st) Hi).
  fold interpolated. simpl_state.
  destruct (fill_shape (interpolated_entry median_of (laserGrid st))
              (setGridPosition (getGridPosition (laserGrid st)) (interpolatedGrid st))
              (grid_points (laserGrid st))) as (Hw & Hh & _).
  fold interpolated in Hw, Hh. cbn in Hw, Hh.
  rewrite (updateTraversabilityGrid_run (maxStepSize st) interpolated
             (traversabilityGrid st)); [reflexivity|].
  destruct Hi as [Hiw Hih], Ht as [Htw Hth]. split; congruence.
Qed.

Lemma grid_points_same_size {T U} `{Inhabited T} `{Inhabited U}
    (g : Grid T) (g' : Grid U) :
  same_size g g' -> grid_points g' = grid_points g.
Proof. intros [Hw Hh]. unfold grid_points. now rewrite Hw, Hh. Qed.
End ComputeNewMap.

(** X4: [computeNewMap] on grids of one size returns and leaves the laser
    grid as it is.  A cell of the grid that is measured in the laser grid
    is copied to the interpolated grid; a cell that is measured or on which
    interpolation fires is TRAVERSABLE or OBSTACLE afterwards; a cell
    without measurement and without maximum on which interpolation does
    not fire is UNCLASSIFIED. *)
Theorem computeNewMap_classes (median_of : list double -> double)
    (st : TraversabilityMapGenerator) (p : Vector2i) :
  grids_same_size st ->
  inGrid (laserGrid st) p = true ->
  exists st',
    computeNewMap median_of st = Ok tt st'
    /\ laserGrid st' = laserGrid st
    /\ (measured (cell (laserGrid st) p) = true ->
        cell (interpolatedGrid st') p = cell (laserGrid st) p)
    /\ (measured (cell (laserGrid st) p) = true \/ fires_code (laserGrid st) p = true ->
        cell (traversabilityGrid st') p = TRAVERSABLE
        \/ cell (traversabilityGrid st') p = OBSTACLE)
    /\ (measured (cell (laserGrid st) p) = false ->
        fires_code (laserGrid st) p = false ->
        (getMaximum (cell (laserGrid st) p) == NO_MAXIMUM)%D = true ->
        cell (traversabilityGrid st') p = UNCLASSIFIED).
Proof.
  intros Hs Hin. eexists. split; [now apply computeNewMap_run|].
  simpl_state. set (interpolated := fill _ _ (grid_points (laserGrid st))).
  destruct (fill_shape (interpolated_entry median_of (laserGrid st))
              (setGridPosition (getGridPosition (laserGrid st)) (interpolatedGrid st))
              (grid_points (laserGrid st))) as (Hw & Hh & _).
  fold interpolated in Hw, Hh. cbn in Hw, Hh.
  destruct Hs as [[Hiw Hih] _].
  assert (Hpts : p ∈ grid_points (laserGrid st)) by now apply elem_of_grid_points.
  assert (Hin' : p ∈ grid_points interpolated).
  { apply elem_of_grid_points. unfold inGrid in *. now rewrite Hw, Hh, <- Hiw, <- Hih. }
  assert (Ecell : cell interpolated p = interpolated_entry median_of (laserGrid st) p).
  { unfold interpolated. now rewrite cell_fill, decide_True. }
  split; [reflexivity|]. split; [|split].
  - intros Hm. rewrite Ecell. unfold interpolated_entry. now rewrite Hm.
  - intros Hor. rewrite cell_fill, decide_True by exact Hin'.
    apply classify_block_measured. rewrite Ecell, interpolated_entry_measured.
    destruct Hor as [-> | ->]; [reflexivity|apply orb_true_r].
  - intros Hm Hf Hmax. rewrite cell_fill, decide_True by exact Hin'.
    unfold classify_block, classify_from. rewrite Ecell.
    unfold interpolated_entry. rewrite Hm, Hf, Hm, Hmax. reflexivity.
Qed.

Lemma computeNewMap_classes_witness :
  exists st',
    computeNewMap Inputs.middle (Inputs.generator Inputs.between) = Ok tt st'
    /\ laserGrid st' = laserGrid (Inputs.generator Inputs.between)
    /\ (measured (cell (laserGrid (Inputs.generator Inputs.between)) (1, 1)) = true ->
        cell (interpolatedGrid st') (1, 1)
        = cell (laserGrid (Inputs.generator Inputs.between)) (1, 1))
    /\ (measured (cell (laserGrid (Inputs.generator Inputs.between)) (1, 1)) = true
        \/ fires_code (laserGrid (Inputs.generator Inputs.between)) (1, 1) = true ->
        cell (traversabilityGrid st') (1, 1) = TRAVERSABLE
        \/ cell (traversabilityGrid st') (1, 1) = OBSTACLE)
    /\ (measured (cell (laserGrid (Inputs.generator Inputs.between)) (1, 1)) = false ->
        fires_code (laserGrid (Inputs.generator Inputs.between)) (1, 1) = false ->
        (getMaximum (cell (laserGrid (Inputs.generator Inputs.between)) (1, 1))
         == NO_MAXIMUM)%D = true ->
        cell (traversabilityGrid st') (1, 1) = UNCLASSIFIED).
Proof.
  apply (computeNewMap_classes Inputs.middle (Inputs.generator Inputs.between) (1, 1)).
  - split; split; reflexivity.
  - reflexivity.
Defined.

(** X5: [computeNewMap] is idempotent: a second call without a scan or a
    stamp in between returns the state that the first call left. *)
Theorem computeNewMap_again (median_of : list double -> double)
    (st : TraversabilityMapGenerator) :
  grids_same_size st ->
  exists st',
    computeNewMap median_of st = Ok tt st'
    /\ computeNewMap median_of st' = Ok tt st'.
Proof.
  intros Hs. eexists. split; [now apply computeNewMap_run|].
  set (interpolated := fill _ _ (grid_points (laserGrid st))).
  destruct (fill_shape (interpolated_entry median_of (laserGrid st))
              (setGridPosition (getGridPosition (laserGrid st)) (interpolatedGrid st))
              (grid_points (laserGrid st))) as (Hw & Hh & _ & Hp).
  fold interpolated in Hw, Hh, Hp. cbn in Hw, Hh, Hp.
  set (classified := fill _ _ (grid_points interpolated)).
  destruct (fill_shape (classify_block (maxStepSize st) interpolated)
              (setGridPosition (getGridPosition interpolated) (traversabilityGrid st))
              (grid_points interpolated)) as (Hw' & Hh' & _).
  fold classified in Hw', Hh'. cbn in Hw', Hh'.
  destruct Hs as [[Hiw Hih] [Htw Hth]].
  rewrite computeNewMap_run; simpl_state.
  - assert (E1 : fill (interpolated_entry median_of (laserGrid st))
                   (setGridPosition (getGridPosition (laserGrid st)) interpolated)
                   (grid_points (laserGrid st)) = interpolated)
      by (unfold interpolated; apply fill_again).
    assert (E2 : fill (classify_block (maxStepSize st) interpolated)
                   (setGridPosition (getGridPosition interpolated) classified)
                   (grid_points interpolated) = classified)
      by (unfold classified; apply fill_again).
    rewrite E1, E2. reflexivity.
  - split; split; simpl_state; congruence.
Qed.

Lemma computeNewMap_again_witness :
  exists st',
    computeNewMap Inputs.middle (Inputs.generator Inputs.between) = Ok tt st'
    /\ computeNewMap Inputs.middle st' = Ok tt st'.
Proof.
  apply (computeNewMap_again Inputs.middle (Inputs.generator Inputs.between)).
  split; split; reflexivity.
Defined.

(** ** The stamps *)

(** X7: when every cell under an offset of the loops within the circle is
    in the grid, the radius stamp returns; the cells under those offsets
    that were UNCLASSIFIED or UNKNOWN_OBSTACLE hold the given class, and
    every other cell, a TRAVERSABLE or OBSTACLE cell among them, keeps its
    class. *)
Theorem radius_stamp_classes (median_of : list double -> double) (pose : Pose)
    (radius : double) (type : Traversability) (st : TraversabilityMapGenerator)
    (gridp : Vector2i) (radiusGrid lo : Z) :
  grids_same_size st ->
  getGridPoint (traversabilityGrid st) (position pose) = Some gridp ->
  to_int (radius / getGridResolution (traversabilityGrid st))%D = Some radiusGrid ->
  in_int_range (- radiusGrid) = Some lo ->
  (forall q, q ∈ radius_offsets lo radiusGrid ->
     outside_circle (getGridResolution (traversabilityGrid st)) radius q = true
     \/ inGrid (traversabilityGrid st) (gridp.1 + q.1, gridp.2 + q.2) = true) ->
  exists st',
    markUnknownInRadiusAs median_of pose radius type st = Ok tt st'
    /\ (forall c,
          cell (traversabilityGrid st') c
          = if decide (c ∈ radius_cells (getGridResolution (traversabilityGrid st))
                             radius gridp (radius_offsets lo radiusGrid))
            then stamp_traversability type (cell (traversabilityGrid st) c)
            else cell (traversabilityGrid st) c)
    /\ (forall c, is_unknown (cell (traversabilityGrid st) c) = false ->
          cell (traversabilityGrid st') c = cell (traversabilityGrid st) c).
Proof.
  intros Hs Hpose Hrg Hlo Hall. eexists.
  split; [now apply (radius_stamp_returns median_of pose radius type st gridp
                       radiusGrid lo)|].
  assert (Hcells := fun c =>
            radius_steps_traversability median_of gridp radius type
              (radius_offsets lo radiusGrid) st c Hs).
  split; [exact Hcells|].
  intros c Hc. rewrite Hcells. unfold stamp_traversability. rewrite Hc.
  now case_decide.
Qed.

Lemma radius_stamp_classes_witness :
  let st := Inputs.empty4 in
  let pose := Inputs.pose_at 0.5%float 0.5%float in
  exists st',
    markUnknownInRadiusAs Inputs.middle pose 1%float TRAVERSABLE st = Ok tt st'
    /\ (forall c,
          cell (traversabilityGrid st') c
          = if decide (c ∈ radius_cells (getGridResolution (traversabilityGrid st))
                             1%float (2, 2) (radius_offsets (-1) 1))
            then stamp_traversability TRAVERSABLE (cell (traversabilityGrid st) c)
            else cell (traversabilityGrid st) c)
    /\ (forall c, is_unknown (cell (traversabilityGrid st) c) = false ->
          cell (traversabilityGrid st') c = cell (traversabilityGrid st) c).
Proof.
  intros st pose.
  apply (radius_stamp_classes Inputs.middle pose 1%float TRAVERSABLE st (2, 2) 1 (-1)).
  - split; split; reflexivity.
  - vm_compute. reflexivity.
  - vm_compute. reflexivity.
  - reflexivity.
  - intros q Hq. apply list_elem_of_In in Hq. vm_compute in Hq.
    destruct Hq as [<-|[<-|[<-|[<-|[]]]]]; vm_compute; auto.
Defined.

(** *** What a stamp never writes *)

Lemma leaves_bind {S A B} (I : S -> Prop) (m : M S A) (k : A -> M S B) s :
  leaves I (m s) ->
  (forall a s', I s' -> leaves I (k a s')) ->
  leaves I (bind m k s).
Proof.
  intros Hm Hk. unfold bind. destruct (m s) as [a s'|e s'|]; cbn in *; auto.
Qed.

Lemma for_each_leaves {S X} (I : S -> Prop) (l : list X) (body : X -> M S unit) s :
  (forall x s, I s -> leaves I (body x s)) ->
  I s -> leaves I (for_each l body s).
Proof.
  intros Hbody. revert s. induction l as [|x l IH]; intros s Hs; [exact Hs|].
  cbn [for_each]. apply leaves_bind; [now apply Hbody|]. intros _ s' Hs'. now apply IH.
Qed.

Lemma for_double_le_leaves {S} (I : S -> Prop) fuel x hi step
    (body : double -> M S unit) s :
  (forall x s, I s -> leaves I (body x s)) ->
  I s -> leaves I (for_double_le fuel x hi step body s).
Proof.
  intros Hbody. revert x s. induction fuel as [|fuel IH]; intros x s Hs; cbn.
  - now destruct (x <=? hi)%D.
  - destruct (x <=? hi)%D; [|exact Hs].
    apply leaves_bind; [now apply Hbody|]. intros _ s' Hs'. now apply IH.
Qed.

Lemma check_leaves {S A} (I : S -> Prop) e (o : option A) (s : S) :
  I s -> leaves I (check e o s).
Proof. intros Hs. now destruct o. Qed.

Section StampFrame.
Variable median_of : list double -> double.
Variable st : TraversabilityMapGenerator.
Variable type : Traversability.

(** The fields that a stamp with the class [type] does not write. *)
Let kept (s : TraversabilityMapGenerator) : Prop :=
  same_but_grids st s /\ (type <> TRAVERSABLE -> laserGrid s = laserGrid st).

Lemma on_traversabilityGrid_kept {A} (m : M TraversabilityGrid A) s :
  kept s -> leaves kept (on_traversabilityGrid m s).
Proof.
  intros Hs. unfold on_traversabilityGrid, zoom.
  destruct (m (traversabilityGrid s)); cbn; try exact I; exact Hs.
Qed.

Lemma on_laserGrid_kept {A} (m : M ElevationGrid A) s :
  type = TRAVERSABLE -> kept s -> leaves kept (on_laserGrid m s).
Proof.
  intros Ht [Hs _]. unfold on_laserGrid, zoom.
  destruct (m (laserGrid s)); cbn; try exact I; (split; [exact Hs|congruence]).
Qed.

Lemma markRectPoint_kept rotateZ pose heading x y s :
  kept s -> leaves kept (markRectPoint median_of rotateZ pose heading type x y s).
Proof.
  intros Hs. unfold markRectPoint. apply leaves_bind; [exact Hs|].
  intros s0 s1 Hs1. destruct (getGridPoint _ _) as [p_g|]; [|exact Hs1].
  apply leaves_bind; [now apply on_traversabilityGrid_kept|].
  intros entry s2 Hs2. destruct (is_unknown entry); [|exact Hs2].
  apply leaves_bind; [now apply on_traversabilityGrid_kept|].
  intros _ s3 Hs3. destruct (decide (type = TRAVERSABLE)) as [Ht|_]; [|exact Hs3].
  apply leaves_bind; [now apply on_laserGrid_kept|].
  intros e s4 Hs4. destruct (negb (measured e)); [|exact Hs4].
  now apply on_laserGrid_kept.
Qed.

Lemma markRadiusCell_kept gridp radius x y s :
  kept s -> leaves kept (markRadiusCell median_of gridp radius type x y s).
Proof.
  intros Hs. unfold markRadiusCell. apply leaves_bind; [exact Hs|].
  intros s0 s1 Hs1. destruct (_ >? radius)%D; [exact Hs1|].
  destruct (negb (inGrid _ _)); [exact Hs1|].
  apply leaves_bind; [now apply on_traversabilityGrid_kept|].
  intros entry s2 Hs2. destruct (is_unknown entry); [|exact Hs2].
  apply leaves_bind; [now apply on_traversabilityGrid_kept|].
  intros _ s3 Hs3. destruct (decide (type = TRAVERSABLE)) as [Ht|_]; [|exact Hs3].
  apply leaves_bind; [now apply on_laserGrid_kept|].
  intros e s4 Hs4. now apply on_laserGrid_kept.
Qed.

Lemma kept_start : kept st.
Proof. split; [now repeat split|reflexivity]. Qed.

Lemma markUnknownInRectangeAs_kept heading_of rotateZ fuel pose width height forwardOffset :
  leaves kept
    (markUnknownInRectangeAs median_of heading_of rotateZ fuel pose width height
       forwardOffset type st).
Proof.
  unfold markUnknownInRectangeAs.
  apply for_double_le_leaves; [|exact kept_start].
  intros x s Hs. apply for_double_le_leaves; [|exact Hs].
  intros y s' Hs'. now apply markRectPoint_kept.
Qed.

Lemma markUnknownInRadiusAs_kept pose radius :
  leaves kept (markUnknownInRadiusAs median_of pose radius type st).
Proof.
  unfold markUnknownInRadiusAs. apply leaves_bind; [exact kept_start|].
  intros s0 s1 Hs1. destruct (getGridPoint _ _) as [gridp|]; [|exact Hs1].
  apply leaves_bind; [now apply check_leaves|]. intros radiusGrid s2 Hs2.
  apply leaves_bind; [now apply check_leaves|]. intros lo s3 Hs3.
  apply for_each_leaves; [|exact Hs3]. intros x s4 Hs4.
  apply for_each_leaves; [|exact Hs4]. intros y s5 Hs5.
  now apply markRadiusCell_kept.
Qed.
End StampFrame.

(** X8: whatever their outcome, a return or an exception, the two stamps
    write neither the interpolated grid nor the thresholds nor the stored
    transforms, and a stamp with a class other than TRAVERSABLE does not
    write the laser grid either: no measurement is made up. *)
Theorem stamps_keep (median_of : list double -> double)
    (heading_of : Quaterniond -> double) (rotateZ : double -> Vector3d -> Vector3d)
    (fuel : nat) (pose : Pose) (radius width height forwardOffset : double)
    (type : Traversability) (st : TraversabilityMapGenerator) :
  leaves (fun st' => same_but_grids st st'
                     /\ (type <> TRAVERSABLE -> laserGrid st' = laserGrid st))
    (markUnknownInRadiusAs median_of pose radius type st)
  /\ leaves (fun st' => same_but_grids st st'
                        /\ (type <> TRAVERSABLE -> laserGrid st' = laserGrid st))
       (markUnknownInRectangeAs median_of heading_of rotateZ fuel pose width height
          forwardOffset type st).
Proof.
  split.
  - apply markUnknownInRadiusAs_kept.
  - apply markUnknownInRectangeAs_kept.
Qed.

(** *** The stamps keep the sizes of the grids *)

Section StampSizes.
Variable median_of : list double -> double.

Lemma grids_same_size_state (s : TraversabilityMapGenerator) (l : ElevationGrid)
    (t : TraversabilityGrid) :
  grids_same_size s -> same_size (laserGrid s) l -> same_size (traversabilityGrid s) t ->
  grids_same_size (set_laserGrid l (set_traversabilityGrid t s)).
Proof.
  intros [[Hiw Hih] [Htw Hth]] [Hlw Hlh] [Hw Hh].
  split; split; simpl_state; congruence.
Qed.

Lemma readState_leaves {T} `{Inhabited T} (I : Grid T -> Prop) p (g : Grid T) :
  I g -> leaves I (readState p g).
Proof.
  intros Hg. unfold readState, bind, get, readEntry, getEntry.
  now destruct (inGrid g p).
Qed.

Lemma writeEntry_leaves {T} `{Inhabited T} p (v : T) (g : Grid T) :
  leaves (same_size g) (writeEntry p v g).
Proof.
  unfold writeEntry, bind, get, setEntry.
  destruct (inGrid g p); cbn; now split.
Qed.

Lemma modifyEntry_leaves {T} `{Inhabited T} p (f : T -> T) (g : Grid T) :
  leaves (same_size g) (modifyEntry p f g).
Proof.
  unfold modifyEntry. apply leaves_bind.
  - apply readState_leaves. now split.
  - intros e g' [Hw Hh]. pose proof (writeEntry_leaves p (f e) g') as Hl.
    destruct (writeEntry p (f e) g') as [[] g''|e' g''|]; cbn in *; [| |exact I];
      destruct Hl as [Hw' Hh']; split; congruence.
Qed.

Lemma on_traversabilityGrid_sized {A} (m : M TraversabilityGrid A) s :
  grids_same_size s ->
  leaves (same_size (traversabilityGrid s)) (m (traversabilityGrid s)) ->
  leaves grids_same_size (on_traversabilityGrid m s).
Proof.
  intros [[Hiw Hih] [Htw Hth]] Hm. unfold on_traversabilityGrid, zoom.
  destruct (m (traversabilityGrid s)) as [a t|e t|]; cbn in *; try exact I;
    destruct Hm as [Hw Hh]; split; split; simpl_state; congruence.
Qed.

Lemma on_laserGrid_sized {A} (m : M ElevationGrid A) s :
  grids_same_size s ->
  leaves (same_size (laserGrid s)) (m (laserGrid s)) ->
  leaves grids_same_size (on_laserGrid m s).
Proof.
  intros [[Hiw Hih] [Htw Hth]] Hm. unfold on_laserGrid, zoom.
  destruct (m (laserGrid s)) as [a t|e t|]; cbn in *; try exact I;
    destruct Hm as [Hw Hh]; split; split; simpl_state; congruence.
Qed.

Lemma markRectPoint_sized rotateZ pose heading type x y s :
  grids_same_size s ->
  leaves grids_same_size (markRectPoint median_of rotateZ pose heading type x y s).
Proof.
  intros Hs. unfold markRectPoint. apply leaves_bind; [exact Hs|].
  intros s0 s1 Hs1. destruct (getGridPoint _ _) as [p_g|]; [|exact Hs1].
  apply leaves_bind.
  { apply on_traversabilityGrid_sized; [exact Hs1|].
    apply readState_leaves. now split. }
  intros entry s2 Hs2. destruct (is_unknown entry); [|exact Hs2].
  apply leaves_bind.
  { apply on_traversabilityGrid_sized; [exact Hs2|apply writeEntry_leaves]. }
  intros _ s3 Hs3. destruct (decide (type = TRAVERSABLE)) as [Ht|_]; [|exact Hs3].
  apply leaves_bind.
  { apply on_laserGrid_sized; [exact Hs3|]. apply readState_leaves. now split. }
  intros e s4 Hs4. destruct (negb (measured e)); [|exact Hs4].
  apply on_laserGrid_sized; [exact Hs4|apply writeEntry_leaves].
Qed.

Lemma markRadiusCell_sized gridp radius type x y s :
  grids_same_size s ->
  leaves grids_same_size (markRadiusCell median_of gridp radius type x y s).
Proof.
  intros Hs. unfold markRadiusCell. apply leaves_bind; [exact Hs|].
  intros s0 s1 Hs1. destruct (_ >? radius)%D; [exact Hs1|].
  destruct (negb (inGrid _ _)); [exact Hs1|].
  apply leaves_bind.
  { apply on_traversabilityGrid_sized; [exact Hs1|].
    apply readState_leaves. now split. }
  intros entry s2 Hs2. destruct (is_unknown entry); [|exact Hs2].
  apply leaves_bind.
  { apply on_traversabilityGrid_sized; [exact Hs2|apply writeEntry_leaves]. }
  intros _ s3 Hs3. destruct (decide (type = TRAVERSABLE)) as [Ht|_]; [|exact Hs3].
  apply leaves_bind.
  { apply on_laserGrid_sized; [exact Hs3|]. apply readState_leaves. now split. }
  intros e s4 Hs4.
  apply on_laserGrid_sized; [exact Hs4|apply modifyEntry_leaves].
Qed.

Lemma markUnknownInRectangeAs_sized heading_of rotateZ fuel pose width height
    forwardOffset type st :
  grids_same_size st ->
  leaves grids_same_size
    (markUnknownInRectangeAs median_of heading_of rotateZ fuel pose width height
       forwardOffset type st).
Proof.
  intros Hs. unfold markUnknownInRectangeAs.
  apply for_double_le_leaves; [|exact Hs].
  intros x s Hx. apply for_double_le_leaves; [|exact Hx].
  intros y s' Hy. now apply markRectPoint_sized.
Qed.

Lemma markUnknownInRadiusAs_sized pose radius type st :
  grids_same_size st ->
  leaves grids_same_size (markUnknownInRadiusAs median_of pose radius type st).
Proof.
  intros Hs. unfold markUnknownInRadiusAs. apply leaves_bind; [exact Hs|].
  intros s0 s1 Hs1. destruct (getGridPoint _ _) as [gridp|]; [|exact Hs1].
  apply leaves_bind; [now apply check_leaves|]. intros radiusGrid s2 Hs2.
  apply leaves_bind; [now apply check_leaves|]. intros lo s3 Hs3.
  apply for_each_leaves; [|exact Hs3]. intros x s4 Hs4.
  apply for_each_leaves; [|exact Hs4]. intros y s5 Hs5.
  now apply markRadiusCell_sized.
Qed.
End StampSizes.

(** *** A stamp and the next map *)

Section StampThenMap.
Variable median_of : list double -> double.
Variable heading_of : Quaterniond -> double.
Variable rotateZ : double -> Vector3d -> Vector3d.

Lemma foldl_stamp_cell_frame type cs st :
  grids_same_size st ->
  grids_same_size (foldl (stamp_cell median_of type) st cs)
  /\ same_frame (laserGrid st) (laserGrid (foldl (stamp_cell median_of type) st cs)).
Proof.
  revert st. induction cs as [|c cs IH]; intros st Hs; cbn [foldl].
  - split; [exact Hs|now repeat split].
  - destruct (stamp_cell_frame median_of type st c Hs) as [Hs' Hf'].
    destruct (IH _ Hs') as [Hs'' Hf'']. split; [exact Hs''|].
    destruct Hf' as (? & ? & ? & ?), Hf'' as (? & ? & ? & ?). repeat split; congruence.
Qed.

Lemma cells_under_same_frame st st' pose points :
  same_frame (laserGrid st) (laserGrid st') ->
  cells_under heading_of rotateZ st' pose points
  = cells_under heading_of rotateZ st pose points.
Proof.
  intros Hf. unfold cells_under. induction points as [|xy points IH]; [reflexivity|].
  cbn [omap list_omap]. rewrite (getGridPoint_same_frame _ _ _ Hf).
  destruct (getGridPoint (laserGrid st) _); now rewrite IH.
Qed.

Lemma cells_under_inGrid st pose points c :
  c ∈ cells_under heading_of rotateZ st pose points -> inGrid (laserGrid st) c = true.
Proof.
  unfold cells_under. intros Hc. apply list_elem_of_omap in Hc as (xy & _ & Hxy).
  now apply getGridPoint_inGrid in Hxy.
Qed.

Lemma measured_addHeightMeasurement h e :
  measured e = false -> measured (addHeightMeasurement median_of h e) = true.
Proof.
  unfold measured, addHeightMeasurement. cbn [getMeasurementCount].
  intros He. apply negb_false_iff, Z.eqb_eq in He. now rewrite He.
Qed.

(** A cell that is measured in the laser grid is TRAVERSABLE or OBSTACLE in
    the next map. *)
Lemma computeNewMap_measured st p :
  grids_same_size st -> inGrid (laserGrid st) p = true ->
  measured (cell (laserGrid st) p) = true ->
  exists st',
    computeNewMap median_of st = Ok tt st'
    /\ (cell (traversabilityGrid st') p = TRAVERSABLE
        \/ cell (traversabilityGrid st') p = OBSTACLE).
Proof.
  intros Hs Hin Hm. eexists. split; [now apply computeNewMap_run|].
  simpl_state. set (interpolated := fill _ _ (grid_points (laserGrid st))).
  destruct (fill_shape (interpolated_entry median_of (laserGrid st))
              (setGridPosition (getGridPosition (laserGrid st)) (interpolatedGrid st))
              (grid_points (laserGrid st))) as (Hw & Hh & _).
  fold interpolated in Hw, Hh. cbn in Hw, Hh.
  destruct Hs as [[Hiw Hih] _].
  assert (Hin' : p ∈ grid_points interpolated).
  { apply elem_of_grid_points. unfold inGrid in *. now rewrite Hw, Hh, <- Hiw, <- Hih. }
  rewrite cell_fill, decide_True by exact Hin'.
  apply classify_block_measured. unfold interpolated.
  rewrite cell_fill, decide_True by now apply elem_of_grid_points.
  rewrite interpolated_entry_measured, Hm. reflexivity.
Qed.

(** The next map of two generators with the same laser grid, interpolated
    grid and threshold. *)
Lemma computeNewMap_same_laser st st' :
  grids_same_size st -> grids_same_size st' ->
  laserGrid st' = laserGrid st -> interpolatedGrid st' = interpolatedGrid st ->
  maxStepSize st' = maxStepSize st ->
  exists st2 st2',
    computeNewMap median_of st' = Ok tt st2
    /\ computeNewMap median_of st = Ok tt st2'
    /\ laserGrid st2 = laserGrid st2'
    /\ interpolatedGrid st2 = interpolatedGrid st2'
    /\ forall p, inGrid (laserGrid st) p = true ->
         cell (traversabilityGrid st2) p = cell (traversabilityGrid st2') p.
Proof.
  intros Hs Hs' El Ei Em. eexists. eexists.
  split; [now apply computeNewMap_run|]. split; [now apply computeNewMap_run|].
  simpl_state. rewrite El, Ei, Em. split; [reflexivity|]. split; [reflexivity|].
  intros p Hin. set (interpolated := fill _ _ (grid_points (laserGrid st))).
  destruct (fill_shape (interpolated_entry median_of (laserGrid st))
              (setGridPosition (getGridPosition (laserGrid st)) (interpolatedGrid st))
              (grid_points (laserGrid st))) as (Hw & Hh & _).
  fold interpolated in Hw, Hh. cbn in Hw, Hh.
  destruct Hs as [[Hiw Hih] _].
  assert (Hin' : p ∈ grid_points interpolated).
  { apply elem_of_grid_points. unfold inGrid in *. now rewrite Hw, Hh, <- Hiw, <- Hih. }
  now rewrite !cell_fill, !decide_True by exact Hin'.
Qed.
End StampThenMap.

(** X9: the rectangle stamp, made a second time with the same pose, sizes
    and class, changes no cell of the traversability grid and no cell of
    the laser grid: a cell is stamped and seeded once. *)
Theorem rectangle_stamp_again (median_of : list double -> double)
    (heading_of : Quaterniond -> double) (rotateZ : double -> Vector3d -> Vector3d)
    (fuel : nat) (pose : Pose) (width height forwardOffset : double)
    (type : Traversability) (st : TraversabilityMapGenerator)
    (points : list (double * double)) :
  grids_same_size st ->
  rect_points_code fuel width height forwardOffset = Some points ->
  exists st1 st2,
    markUnknownInRectangeAs median_of heading_of rotateZ fuel pose width height
      forwardOffset type st = Ok tt st1
    /\ markUnknownInRectangeAs median_of heading_of rotateZ fuel pose width height
         forwardOffset type st1 = Ok tt st2
    /\ forall c,
         cell (traversabilityGrid st2) c = cell (traversabilityGrid st1) c
         /\ cell (laserGrid st2) c = cell (laserGrid st1) c.
Proof.
  intros Hs Hpoints.
  set (cs := cells_under heading_of rotateZ st pose points).
  destruct (foldl_stamp_cell_frame median_of type cs st Hs) as [Hs1 Hf1].
  exists (foldl (stamp_cell median_of type) st cs).
  exists (foldl (stamp_cell median_of type) (foldl (stamp_cell median_of type) st cs) cs).
  split.
  { exact (markUnknownInRectangeAs_run median_of heading_of rotateZ fuel pose width
             height forwardOffset type st points Hs Hpoints). }
  split.
  { rewrite (markUnknownInRectangeAs_run median_of heading_of rotateZ fuel pose width
               height forwardOffset type _ points Hs1 Hpoints).
    now rewrite (cells_under_same_frame heading_of rotateZ st _ pose points Hf1). }
  intros c.
  destruct (stamp_cells median_of type cs (foldl (stamp_cell median_of type) st cs) c)
    as [-> ->].
  destruct (decide (c ∈ cs)) as [Hin|Hnin]; [|auto].
  destruct (stamp_cells median_of type cs st c) as [-> ->].
  rewrite !decide_True by exact Hin.
  now rewrite stamp_traversability_idem, stamp_elevation_idem.
Qed.

Lemma rectangle_stamp_again_witness :
  let st := Inputs.empty8 in
  let pose := Inputs.pose_at 0%float 0%float in
  exists st1 st2,
    markUnknownInRectangeAs Inputs.middle Inputs.no_heading Inputs.no_turn 10 pose
      0%float 0.0625%float 0%float TRAVERSABLE st = Ok tt st1
    /\ markUnknownInRectangeAs Inputs.middle Inputs.no_heading Inputs.no_turn 10 pose
         0%float 0.0625%float 0%float TRAVERSABLE st1 = Ok tt st2
    /\ forall c,
         cell (traversabilityGrid st2) c = cell (traversabilityGrid st1) c
         /\ cell (laserGrid st2) c = cell (laserGrid st1) c.
Proof.
  intros st pose.
  apply (rectangle_stamp_again Inputs.middle Inputs.no_heading Inputs.no_turn 10 pose
           0%float 0.0625%float 0%float TRAVERSABLE st
           [((-0)%float, (-0.03125)%float);
            ((-0)%float, (-0.0012500000000000011)%float);
            ((-0)%float, 0.028749999999999998%float)]).
  - split; split; reflexivity.
  - vm_compute. reflexivity.
Defined.

(** X10: a TRAVERSABLE rectangle stamp lasts.  A visited cell that was
    UNCLASSIFIED or UNKNOWN_OBSTACLE is TRAVERSABLE after the stamp and its
    elevation entry is measured, and the [computeNewMap] that follows
    leaves it TRAVERSABLE or OBSTACLE: it does not fall back to
    UNCLASSIFIED. *)
Theorem traversable_stamp_lasts (median_of : list double -> double)
    (heading_of : Quaterniond -> double) (rotateZ : double -> Vector3d -> Vector3d)
    (fuel : nat) (pose : Pose) (width height forwardOffset : double)
    (st : TraversabilityMapGenerator) (points : list (double * double))
    (c : Vector2i) :
  grids_same_size st ->
  rect_points_code fuel width height forwardOffset = Some points ->
  c ∈ cells_under heading_of rotateZ st pose points ->
  is_unknown (cell (traversabilityGrid st) c) = true ->
  exists st1 st2,
    markUnknownInRectangeAsTraversable median_of heading_of rotateZ fuel pose width
      height forwardOffset st = Ok tt st1
    /\ cell (traversabilityGrid st1) c = TRAVERSABLE
    /\ measured (cell (laserGrid st1) c) = true
    /\ computeNewMap median_of st1 = Ok tt st2
    /\ (cell (traversabilityGrid st2) c = TRAVERSABLE
        \/ cell (traversabilityGrid st2) c = OBSTACLE).
Proof.
  intros Hs Hpoints Hc Hu.
  set (cs := cells_under heading_of rotateZ st pose points) in *.
  destruct (foldl_stamp_cell_frame median_of TRAVERSABLE cs st Hs) as [Hs1 Hf1].
  set (st1 := foldl (stamp_cell median_of TRAVERSABLE) st cs) in *.
  assert (Hm : measured (cell (laserGrid st1) c) = true).
  { unfold st1. destruct (stamp_cells median_of TRAVERSABLE cs st c) as [_ ->].
    rewrite decide_True by exact Hc. unfold stamp_elevation. rewrite Hu.
    rewrite bool_decide_eq_true_2 by reflexivity. cbn [andb].
    destruct (measured (cell (laserGrid st) c)) eqn:Em; cbn [negb]; [exact Em|].
    now apply measured_addHeightMeasurement. }
  assert (Hin : inGrid (laserGrid st1) c = true).
  { apply cells_under_inGrid in Hc. destruct Hf1 as (Hw & Hh & _).
    unfold inGrid in *. now rewrite <- Hw, <- Hh. }
  destruct (computeNewMap_measured median_of st1 c Hs1 Hin Hm) as (st2 & Hrun & Hclass).
  exists st1, st2. split.
  { exact (markUnknownInRectangeAs_run median_of heading_of rotateZ fuel pose width
             height forwardOffset TRAVERSABLE st points Hs Hpoints). }
  split.
  { unfold st1. destruct (stamp_cells median_of TRAVERSABLE cs st c) as [-> _].
    rewrite decide_True by exact Hc. unfold stamp_traversability. now rewrite Hu. }
  auto.
Qed.

Lemma traversable_stamp_lasts_witness :
  let st := Inputs.empty8 in
  let pose := Inputs.pose_at 0%float 0%float in
  exists st1 st2,
    markUnknownInRectangeAsTraversable Inputs.middle Inputs.no_heading Inputs.no_turn
      10 pose 0%float 0.0625%float 0%float st = Ok tt st1
    /\ cell (traversabilityGrid st1) (4, 3) = TRAVERSABLE
    /\ measured (cell (laserGrid st1) (4, 3)) = true
    /\ computeNewMap Inputs.middle st1 = Ok tt st2
    /\ (cell (traversabilityGrid st2) (4, 3) = TRAVERSABLE
        \/ cell (traversabilityGrid st2) (4, 3) = OBSTACLE).
Proof.
  intros st pose.
  apply (traversable_stamp_lasts Inputs.middle Inputs.no_heading Inputs.no_turn 10 pose
           0%float 0.0625%float 0%float st
           [((-0)%float, (-0.03125)%float);
            ((-0)%float, (-0.0012500000000000011)%float);
            ((-0)%float, 0.028749999999999998%float)] (4, 3)).
  - split; split; reflexivity.
  - vm_compute. reflexivity.
  - apply list_elem_of_In. vm_compute. tauto.
  - reflexivity.
Defined.

(** X11: a stamp with a class other than TRAVERSABLE does not outlast the
    next map.  After a radius or rectangle stamp with such a class that
    returned, [computeNewMap] leaves the laser grid, the interpolated grid
    and every cell of the traversability grid within the grid as it leaves
    them without the stamp. *)
Theorem unmeasured_stamp_lost (median_of : list double -> double)
    (heading_of : Quaterniond -> double) (rotateZ : double -> Vector3d -> Vector3d)
    (fuel : nat) (pose : Pose) (radius width height forwardOffset : double)
    (type : Traversability) (st st1 : TraversabilityMapGenerator) :
  grids_same_size st ->
  type <> TRAVERSABLE ->
  markUnknownInRadiusAs median_of pose radius type st = Ok tt st1
  \/ markUnknownInRectangeAs median_of heading_of rotateZ fuel pose width height
       forwardOffset type st = Ok tt st1 ->
  exists st2 st2',
    computeNewMap median_of st1 = Ok tt st2
    /\ computeNewMap median_of st = Ok tt st2'
    /\ laserGrid st2 = laserGrid st2'
    /\ interpolatedGrid st2 = interpolatedGrid st2'
    /\ forall p, inGrid (laserGrid st) p = true ->
         cell (traversabilityGrid st2) p = cell (traversabilityGrid st2') p.
Proof.
  intros Hs Ht Hrun.
  assert (Hk : (same_but_grids st st1 /\ (type <> TRAVERSABLE -> laserGrid st1 = laserGrid st))
               /\ grids_same_size st1).
  { destruct Hrun as [Hrun|Hrun].
    - pose proof (markUnknownInRadiusAs_kept median_of st type pose radius) as Hk.
      pose proof (markUnknownInRadiusAs_sized median_of pose radius type st Hs) as Hz.
      rewrite Hrun in Hk, Hz. now split.
    - pose proof (markUnknownInRectangeAs_kept median_of st type heading_of rotateZ fuel
                    pose width height forwardOffset) as Hk.
      pose proof (markUnknownInRectangeAs_sized median_of heading_of rotateZ fuel pose
                    width height forwardOffset type st Hs) as Hz.
      rewrite Hrun in Hk, Hz. now split. }
  destruct Hk as [[(Ei & _ & Em & _) El] Hs1].
  now apply computeNewMap_same_laser; auto.
Qed.

Lemma unmeasured_stamp_lost_witness :
  let st := Inputs.empty4 in
  let pose := Inputs.pose_at 0.5%float 0.5%float in
  let st1 := match markUnknownInRadiusAs Inputs.middle pose 1%float OBSTACLE st with
             | Ok _ s => s
             | _ => st
             end in
  cell (traversabilityGrid st1) (2, 2) = OBSTACLE
  /\ exists st2 st2',
       computeNewMap Inputs.middle st1 = Ok tt st2
       /\ computeNewMap Inputs.middle st = Ok tt st2'
       /\ laserGrid st2 = laserGrid st2'
       /\ interpolatedGrid st2 = interpolatedGrid st2'
       /\ forall p, inGrid (laserGrid st) p = true ->
            cell (traversabilityGrid st2) p = cell (traversabilityGrid st2') p.
Proof.
  intros st pose st1. split; [vm_compute; reflexivity|].
  apply (unmeasured_stamp_lost Inputs.middle Inputs.no_heading Inputs.no_turn 10 pose
           1%float 0%float 0%float 0%float OBSTACLE st st1).
  - split; split; reflexivity.
  - discriminate.
  - left. vm_compute. reflexivity.
Defined.

Lemma getGridDump_wide_witness :
  let st := Inputs.generator Inputs.bump in
  let gd := Inputs.blank_dump 9 in
  exists gd',
    getGridDump st gd = Ok tt gd'
    /\ (forall x y, inGrid (laserGrid st) (x, y) = true ->
          let i := Z.to_nat (x * getWidth (laserGrid st) + y) in
          let e := cell (interpolatedGrid st) (x, y) in
          gd_height gd' !! i = Some (dump_height e)
          /\ gd_max gd' !! i = Some (getMaximum e)
          /\ gd_interpolated gd' !! i = Some (isInterpolated e)
          /\ gd_traversability gd' !! i = Some (cell (traversabilityGrid st) (x, y)))
    /\ gridPositionX gd' = v3x (getGridPosition (traversabilityGrid st))
    /\ gridPositionY gd' = v3y (getGridPosition (traversabilityGrid st))
    /\ gridPositionZ gd' = v3z (getGridPosition (traversabilityGrid st)).
Proof.
  intros st gd. apply (getGridDump_wide st gd).
  - split; split; reflexivity.
  - vm_compute. discriminate.
  - repeat split; vm_compute; discriminate.
Defined.

(** ** The filter of the scan *)

(** No point lies in the box of the left wheel: the x of its first corner,
    0.285, is above the x of its second corner, 0.285 - 0.06. *)
Lemma contains_leftWheel p : contains leftWheel p = false.
Proof.
  unfold contains, leftWheel. cbn [box_min box_max v3x v3y v3z].
  destruct (0.285%float <=? v3x p)%D eqn:Elo; [|reflexivity].
  assert (Ehi : (v3x p <=? 0.285%float - 0.06%float)%D = false).
  { revert Elo. unfold Double.le, Double.sub. rewrite !leb_spec.
    replace (Prim2SF 0.285%float) with (S754_finite false 5134103575202365 (-54))
      by (vm_compute; reflexivity).
    replace (Prim2SF (0.285 - 0.06)%float)
      with (S754_finite false 8106479329266892 (-55)) by (vm_compute; reflexivity).
    unfold SFleb, SFcompare.
    destruct (Prim2SF (v3x p)) as [s|[|]| |[|] m e];
      try (intros H; discriminate H); try reflexivity.
    destruct (Z.compare_spec (-54) e) as [<-|Hlt|Hgt]; try (intros H; discriminate H).
    - intros _. reflexivity.
    - intros _. destruct (Z.compare_spec e (-55)); try reflexivity; lia. }
  rewrite Ehi, andb_false_r. reflexivity.
Qed.

Section ScanFilter.
Context {LaserScan : Type}.
Variable ranges_size : LaserScan -> nat.
Variable convertScanToPointCloud : LaserScan -> Transform3d -> list Vector3d.
Variable getPointFromScanBeam : LaserScan -> nat -> option Vector3d.

Lemma isMasked_in maskedAreas (points : list Vector3d) i p :
  points !! i = Some p ->
  isMasked maskedAreas points i = Some (existsb (fun b => contains b p) maskedAreas).
Proof.
  intros Hp. induction maskedAreas as [|b rest IH]; [reflexivity|].
  cbn [isMasked existsb]. rewrite Hp. cbn [mbind option_bind].
  destruct (contains b p); [reflexivity|exact IH].
Qed.

Lemma isMasked_out b rest (points : list Vector3d) i :
  points !! i = None -> isMasked (b :: rest) points i = None.
Proof. intros Hp. cbn [isMasked]. now rewrite Hp. Qed.

(** One more beam. *)
Definition filter_step (ls : LaserScan) (resultFrame : Transform3d)
    (maskedAreas : list AlignedBox) (points : list Vector3d)
    (result : option (list Vector3d)) (i : nat) : option (list Vector3d) :=
  r ← result;
  masked ← isMasked maskedAreas points i;
  if (masked : bool) then Some r
  else match getPointFromScanBeam ls i with
       | Some point => Some (r ++ [t_apply resultFrame point])
       | None => Some r
       end.

Lemma filter_step_undefined ls resultFrame maskedAreas points beams :
  foldl (filter_step ls resultFrame maskedAreas points) None beams = None.
Proof. induction beams as [|i beams IH]; [reflexivity|exact IH]. Qed.

Lemma filter_step_defined ls resultFrame maskedAreas points beams r :
  maskedAreas = [] \/ (forall i, i ∈ beams -> (i < length points)%nat) ->
  foldl (filter_step ls resultFrame maskedAreas points) (Some r) beams
  = Some (r ++ map (t_apply resultFrame)
                 (omap (getPointFromScanBeam ls)
                    (List.filter (fun i => negb (masked_at maskedAreas points i)) beams))).
Proof.
  revert r. induction beams as [|i beams IH]; intros r Hdef.
  { cbn. now rewrite app_nil_r. }
  assert (Hrest : maskedAreas = [] \/ (forall j, j ∈ beams -> (j < length points)%nat)).
  { destruct Hdef as [->|Hlt]; [now left|right]. intros j Hj. apply Hlt. now right. }
  assert (Em : isMasked maskedAreas points i = Some (masked_at maskedAreas points i)).
  { unfold masked_at. destruct (points !! i) as [p|] eqn:Ep.
    - now apply isMasked_in.
    - destruct Hdef as [->|Hlt]; [reflexivity|].
      apply lookup_ge_None in Ep. specialize (Hlt i (list_elem_of_here _ _)). lia. }
  cbn [foldl List.filter]. unfold filter_step at 2. cbn [mbind option_bind].
  rewrite Em. cbn [mbind option_bind].
  destruct (masked_at maskedAreas points i); cbn [negb]; [now apply IH|].
  cbn [omap list_omap].
  destruct (getPointFromScanBeam ls i) as [point|]; [|now apply IH].
  rewrite (IH _ Hrest). cbn [map]. now rewrite <- app_assoc.
Qed.

Lemma length_omap_le {X Y} (f : X -> option Y) (l : list X) :
  (length (omap f l) <= length l)%nat.
Proof.
  induction l as [|x l IH]; [reflexivity|]. cbn [omap list_omap length].
  destruct (f x); cbn [length]; lia.
Qed.

Lemma length_filter_le {X} (f : X -> bool) (l : list X) :
  (length (List.filter f l) <= length l)%nat.
Proof.
  induction l as [|x l IH]; [reflexivity|]. cbn [List.filter length].
  destruct (f x); cbn [length]; lia.
Qed.

Lemma filterLaserScan_fold ls filterFrame resultFrame maskedAreas :
  filterLaserScan ranges_size convertScanToPointCloud getPointFromScanBeam ls
    filterFrame resultFrame maskedAreas
  = foldl (filter_step ls resultFrame maskedAreas
             (convertScanToPointCloud ls filterFrame))
      (Some []) (seq 0 (ranges_size ls)).
Proof. reflexivity. Qed.

(** X13: when the boxes are empty or the cloud in the filter frame has a
    point for every range, [filterLaserScan] leaves in [result], in the
    order of the beams, the points in the result frame of the beams that
    have a valid range and whose point of the cloud lies in no box; there
    are at most as many as ranges. *)
Theorem filterLaserScan_points ls filterFrame resultFrame maskedAreas :
  maskedAreas = []
  \/ (ranges_size ls <= length (convertScanToPointCloud ls filterFrame))%nat ->
  filterLaserScan ranges_size convertScanToPointCloud getPointFromScanBeam ls
    filterFrame resultFrame maskedAreas
  = Some (filtered_points ranges_size convertScanToPointCloud getPointFromScanBeam ls
            filterFrame resultFrame maskedAreas)
  /\ (length (filtered_points ranges_size convertScanToPointCloud getPointFromScanBeam
                ls filterFrame resultFrame maskedAreas) <= ranges_size ls)%nat.
Proof.
  intros Hdef. split.
  - rewrite filterLaserScan_fold, filter_step_defined; [reflexivity|].
    destruct Hdef as [->|Hle]; [now left|right].
    intros i Hi. apply elem_of_seq in Hi. lia.
  - unfold filtered_points. rewrite length_map.
    etransitivity; [apply length_omap_le|].
    etransitivity; [apply length_filter_le|]. now rewrite length_seq.
Qed.

(** X14: when there is a box and the cloud in the filter frame has fewer
    points than the scan has ranges, the loop of [filterLaserScan] reads
    [pointsFilterFrame] past its end: the call has no defined result. *)
Theorem filterLaserScan_reads_past_end ls filterFrame resultFrame maskedAreas :
  maskedAreas <> [] ->
  (length (convertScanToPointCloud ls filterFrame) < ranges_size ls)%nat ->
  filterLaserScan ranges_size convertScanToPointCloud getPointFromScanBeam ls
    filterFrame resultFrame maskedAreas = None.
Proof.
  intros Hboxes Hlt. rewrite filterLaserScan_fold.
  set (points := convertScanToPointCloud ls filterFrame) in *.
  replace (ranges_size ls)
    with (length points + S (ranges_size ls - S (length points)))%nat by lia.
  rewrite seq_app, foldl_app, filter_step_defined.
  2:{ right. intros i Hi. apply elem_of_seq in Hi. lia. }
  cbn [seq foldl]. unfold filter_step at 2. cbn [mbind option_bind].
  destruct maskedAreas as [|b rest]; [congruence|].
  rewrite isMasked_out; [apply filter_step_undefined|].
  apply lookup_ge_None. cbn. lia.
Qed.

(** X15: the box of the left wheel masks nothing.  The filter of
    [addLaserScan], with the boxes of the two wheels, is the filter with
    the box of the right wheel alone, which does hold points. *)
Theorem leftWheel_masks_nothing ls filterFrame resultFrame :
  (forall p, contains leftWheel p = false)
  /\ filterLaserScan ranges_size convertScanToPointCloud getPointFromScanBeam ls
       filterFrame resultFrame [leftWheel; rightWheel]
     = filterLaserScan ranges_size convertScanToPointCloud getPointFromScanBeam ls
         filterFrame resultFrame [rightWheel]
  /\ contains rightWheel (mkVector3d (-0.25)%float 0%float 0%float) = true.
Proof.
  split; [exact contains_leftWheel|]. split; [|vm_compute; reflexivity].
  rewrite !filterLaserScan_fold.
  set (points := convertScanToPointCloud ls filterFrame).
  generalize (Some (@nil Vector3d)) as result.
  induction (seq 0 (ranges_size ls)) as [|i beams IH]; intros result; [reflexivity|].
  cbn [foldl]. rewrite <- IH. f_equal.
  unfold filter_step. destruct result as [r|]; [|reflexivity].
  cbn [mbind option_bind isMasked].
  destruct (points !! i) as [p|]; [|reflexivity]. cbn [mbind option_bind].
  now rewrite contains_leftWheel.
Qed.
End ScanFilter.

Lemma filterLaserScan_points_witness :
  let ls : Inputs.Scan :=
    [mkVector3d 0.5%float 0.5%float 0.25%float; mkVector3d (-0.25)%float 0%float 0%float] in
  filterLaserScan Inputs.scan_size Inputs.scan_cloud Inputs.scan_beam ls
    Inputs.identity Inputs.identity [leftWheel; rightWheel]
  = Some (filtered_points Inputs.scan_size Inputs.scan_cloud Inputs.scan_beam ls
            Inputs.identity Inputs.identity [leftWheel; rightWheel])
  /\ (length (filtered_points Inputs.scan_size Inputs.scan_cloud Inputs.scan_beam ls
                Inputs.identity Inputs.identity [leftWheel; rightWheel])
      <= Inputs.scan_size ls)%nat.
Proof.
  intros ls.
  apply (filterLaserScan_points Inputs.scan_size Inputs.scan_cloud Inputs.scan_beam ls
           Inputs.identity Inputs.identity [leftWheel; rightWheel]).
  right. cbn. lia.
Defined.

Lemma filterLaserScan_reads_past_end_witness :
  let ls : Inputs.Scan := [mkVector3d 0.5%float 0.5%float 0.25%float] in
  filterLaserScan (fun ls : Inputs.Scan => S (length ls)) Inputs.scan_cloud
    Inputs.scan_beam ls Inputs.identity Inputs.identity [leftWheel; rightWheel] = None.
Proof.
  intros ls.
  apply (filterLaserScan_reads_past_end (fun ls : Inputs.Scan => S (length ls))
           Inputs.scan_cloud Inputs.scan_beam ls Inputs.identity Inputs.identity
           [leftWheel; rightWheel]).
  - discriminate.
  - cbn. lia.
Defined.

(** X16: whatever its outcome, [addLaserScan] writes neither the
    interpolated grid nor the traversability grid nor the two thresholds:
    a scan changes no class before the next [computeNewMap]. *)
Theorem addLaserScan_keeps {LaserScan : Type} (median_of : list double -> double)
    (acos : double -> double) (t_inverse : Transform3d -> Transform3d)
    (moveGrid : Vector3d -> ElevationGrid -> ElevationGrid)
    (ranges_size : LaserScan -> nat)
    (convertScanToPointCloud : LaserScan -> Transform3d -> list Vector3d)
    (getPointFromScanBeam : LaserScan -> nat -> option Vector3d)
    (ls : LaserScan) (body2Odo laser2Body : Transform3d)
    (st : TraversabilityMapGenerator) :
  leaves (same_but_scan st)
    (addLaserScan median_of acos t_inverse moveGrid ranges_size convertScanToPointCloud
       getPointFromScanBeam ls body2Odo laser2Body st).
Proof.
  destruct (moveGridIfRobotNearBoundary_returns moveGrid (boundarySize st)
              (translation body2Odo) (laserGrid st)) as (moved & grid' & Hmove).
  unfold addLaserScan, bind, get, on_laserGrid, zoom. rewrite Hmove.
  destruct (filterLaserScan _ _ _ _ _ _ _) as [points|];
    cbn [check ret throw modify laserGrid set_laserGrid];
    [|now repeat split].
  destruct (_ <? 0.05%float)%D, (_ <? M_PI / 36%float)%D; cbn; now repeat split.
Qed.

(** ** The measurements that the radius stamp makes up *)

Section RadiusMeasurements.
Variable median_of : list double -> double.

Lemma stamp_radius_elevation_idem type v e :
  stamp_radius_elevation median_of type (stamp_traversability type v)
    (stamp_radius_elevation median_of type v e)
  = stamp_radius_elevation median_of type v e.
Proof.
  unfold stamp_radius_elevation, stamp_traversability.
  destruct (is_unknown v) eqn:Ev; cbn [andb]; [|now rewrite Ev].
  destruct (decide (type = TRAVERSABLE)) as [->|Hne].
  - reflexivity.
  - rewrite bool_decide_eq_false_2 by exact Hne. now rewrite andb_false_r.
Qed.

Lemma stamp_radius_cell_laser type st c0 c :
  cell (laserGrid (stamp_radius_cell median_of type st c0)) c
  = if decide (c0 = c)
    then stamp_radius_elevation median_of type (cell (traversabilityGrid st) c)
           (cell (laserGrid st) c)
    else cell (laserGrid st) c.
Proof.
  unfold stamp_radius_cell, stamp_radius_elevation.
  destruct (decide (c0 = c)) as [->|Hne].
  - destruct (is_unknown (cell (traversabilityGrid st) c)); cbn [andb]; [|reflexivity].
    destruct (bool_decide (type = TRAVERSABLE)); simpl_state;
      rewrite ?cell_with_cell, ?decide_True by reflexivity; reflexivity.
  - destruct (is_unknown (cell (traversabilityGrid st) c0)); [|reflexivity].
    destruct (bool_decide (type = TRAVERSABLE)); simpl_state;
      rewrite ?cell_with_cell, ?decide_False by exact Hne; reflexivity.
Qed.

Lemma stamp_radius_elevation_cons type (v : Traversability) (e : ElevationEntry)
    (c0 c : Vector2i) cs :
  (if decide (c ∈ cs)
   then stamp_radius_elevation median_of type
          (if decide (c0 = c) then stamp_traversability type v else v)
          (if decide (c0 = c) then stamp_radius_elevation median_of type v e else e)
   else if decide (c0 = c) then stamp_radius_elevation median_of type v e else e)
  = if decide (c ∈ c0 :: cs) then stamp_radius_elevation median_of type v e else e.
Proof.
  destruct (decide (c0 = c)) as [E|Hne];
    destruct (decide (c ∈ cs)) as [Hin|Hnin];
    destruct (decide (c ∈ c0 :: cs)) as [Hin'|Hnin'];
    rewrite ?stamp_radius_elevation_idem; try reflexivity.
  - exfalso. apply Hnin'. now right.
  - exfalso. apply Hnin'. rewrite E. now left.
  - exfalso. apply Hnin'. now right.
  - exfalso. apply elem_of_cons in Hin' as [->|]; auto.
Qed.

(** The elevation entries after the steps at a list of offsets. *)
Lemma radius_steps_laser gridp radius type qs st c :
  grids_same_size st ->
  cell (laserGrid (foldl (radius_step median_of gridp radius type) st qs)) c
  = if decide (c ∈ radius_cells (getGridResolution (traversabilityGrid st)) radius
                     gridp qs)
    then stamp_radius_elevation median_of type (cell (traversabilityGrid st) c)
           (cell (laserGrid st) c)
    else cell (laserGrid st) c.
Proof.
  revert st. induction qs as [|q qs IH]; intros st Hs.
  - cbn. now rewrite decide_False by apply not_elem_of_nil.
  - cbn [foldl].
    destruct (radius_step_frame median_of gridp radius type st q Hs)
      as [Hs' (_ & _ & Hr & _)].
    rewrite (IH _ Hs'), <- Hr, radius_cells_cons.
    unfold radius_step.
    destruct (outside_circle (getGridResolution (traversabilityGrid st)) radius q) eqn:Eq;
      [reflexivity|].
    rewrite stamp_radius_cell_traversability, stamp_radius_cell_laser.
    apply stamp_radius_elevation_cons.
Qed.
End RadiusMeasurements.

(** X17: when the radius stamp returns, a cell under an offset within the
    circle that was UNCLASSIFIED or UNKNOWN_OBSTACLE and is stamped
    TRAVERSABLE gets one more measurement in the laser grid, of the median
    of the cell, whether or not it was measured before; every other entry
    of the laser grid is as it was, and a stamp with another class changes
    no entry. *)
Theorem radius_stamp_measures (median_of : list double -> double) (pose : Pose)
    (radius : double) (type : Traversability) (st : TraversabilityMapGenerator)
    (gridp : Vector2i) (radiusGrid lo : Z) :
  grids_same_size st ->
  getGridPoint (traversabilityGrid st) (position pose) = Some gridp ->
  to_int (radius / getGridResolution (traversabilityGrid st))%D = Some radiusGrid ->
  in_int_range (- radiusGrid) = Some lo ->
  (forall q, q ∈ radius_offsets lo radiusGrid ->
     outside_circle (getGridResolution (traversabilityGrid st)) radius q = true
     \/ inGrid (traversabilityGrid st) (gridp.1 + q.1, gridp.2 + q.2) = true) ->
  exists st',
    markUnknownInRadiusAs median_of pose radius type st = Ok tt st'
    /\ (forall c,
          cell (laserGrid st') c
          = if decide (c ∈ radius_cells (getGridResolution (traversabilityGrid st))
                             radius gridp (radius_offsets lo radiusGrid))
            then stamp_radius_elevation median_of type (cell (traversabilityGrid st) c)
                   (cell (laserGrid st) c)
            else cell (laserGrid st) c)
    /\ (forall c,
          c ∈ radius_cells (getGridResolution (traversabilityGrid st)) radius gridp
                (radius_offsets lo radiusGrid) ->
          is_unknown (cell (traversabilityGrid st) c) = true ->
          type = TRAVERSABLE ->
          getMeasurementCount (cell (laserGrid st') c)
          = getMeasurementCount (cell (laserGrid st) c) + 1
          /\ heights (cell (laserGrid st') c)
             = heights (cell (laserGrid st) c) ++ [getMedian (cell (laserGrid st) c)])
    /\ (forall c, type <> TRAVERSABLE -> cell (laserGrid st') c = cell (laserGrid st) c).
Proof.
  intros Hs Hpose Hrg Hlo Hall. eexists.
  split; [now apply (radius_stamp_returns median_of pose radius type st gridp
                       radiusGrid lo)|].
  assert (Hcells := fun c =>
            radius_steps_laser median_of gridp radius type
              (radius_offsets lo radiusGrid) st c Hs).
  split; [exact Hcells|]. split.
  - intros c Hc Hu ->. rewrite Hcells, decide_True by exact Hc.
    unfold stamp_radius_elevation. rewrite Hu.
    rewrite bool_decide_eq_true_2 by reflexivity. cbn. auto.
  - intros c Hne. rewrite Hcells. unfold stamp_radius_elevation.
    rewrite bool_decide_eq_false_2 by exact Hne. rewrite andb_false_r.
    now case_decide.
Qed.

Lemma radius_stamp_measures_witness :
  let st := Inputs.empty4 in
  let pose := Inputs.pose_at 0.5%float 0.5%float in
  exists st',
    markUnknownInRadiusAs Inputs.middle pose 1%float TRAVERSABLE st = Ok tt st'
    /\ (forall c,
          cell (laserGrid st') c
          = if decide (c ∈ radius_cells (getGridResolution (traversabilityGrid st))
                             1%float (2, 2) (radius_offsets (-1) 1))
            then stamp_radius_elevation Inputs.middle TRAVERSABLE
                   (cell (traversabilityGrid st) c) (cell (laserGrid st) c)
            else cell (laserGrid st) c)
    /\ (forall c,
          c ∈ radius_cells (getGridResolution (traversabilityGrid st)) 1%float (2, 2)
                (radius_offsets (-1) 1) ->
          is_unknown (cell (traversabilityGrid st) c) = true ->
          TRAVERSABLE = TRAVERSABLE ->
          getMeasurementCount (cell (laserGrid st') c)
          = getMeasurementCount (cell (laserGrid st) c) + 1
          /\ heights (cell (laserGrid st') c)
             = heights (cell (laserGrid st) c) ++ [getMedian (cell (laserGrid st) c)])
    /\ (forall c, TRAVERSABLE <> TRAVERSABLE ->
          cell (laserGrid st') c = cell (laserGrid st) c).
Proof.
  intros st pose.
  apply (radius_stamp_measures Inputs.middle pose 1%float TRAVERSABLE st (2, 2) 1 (-1)).
  - split; split; reflexivity.
  - vm_compute. reflexivity.
  - vm_compute. reflexivity.
  - reflexivity.
  - intros q Hq. apply list_elem_of_In in Hq. vm_compute in Hq.
    destruct Hq as [<-|[<-|[<-|[<-|[]]]]]; vm_compute; auto.
Defined.

(** ** The radius stamp that raises *)

(** X6: the radius stamp is not atomic.  When one of the offsets of its
    loops is within the circle and over a cell outside the grid, the list
    of the offsets splits, in one way only, at the first such offset [xy]:
    no offset [before] it is within the circle and outside the grid.  The
    call raises "Access out of grid" at [xy], and the state that the
    exception leaves holds every stamp made at the offsets [before]: in the
    traversability grid and in the laser grid the cells under them are
    stamped as by a stamp that returns, nothing is restored, and every
    other cell is as it was. *)
Theorem radius_stamp_raises (median_of : list double -> double) (pose : Pose)
    (radius : double) (type : Traversability) (st : TraversabilityMapGenerator)
    (gridp : Vector2i) (radiusGrid lo : Z) :
  grids_same_size st ->
  getGridPoint (traversabilityGrid st) (position pose) = Some gridp ->
  to_int (radius / getGridResolution (traversabilityGrid st))%D = Some radiusGrid ->
  in_int_range (- radiusGrid) = Some lo ->
  (exists q, q ∈ radius_offsets lo radiusGrid
     /\ outside_circle (getGridResolution (traversabilityGrid st)) radius q = false
     /\ inGrid (traversabilityGrid st) (gridp.1 + q.1, gridp.2 + q.2) = false) ->
  exists before xy after st',
    radius_offsets lo radiusGrid = before ++ xy :: after
    /\ outside_circle (getGridResolution (traversabilityGrid st)) radius xy = false
    /\ inGrid (traversabilityGrid st) (gridp.1 + xy.1, gridp.2 + xy.2) = false
    /\ (forall q, q ∈ before ->
          outside_circle (getGridResolution (traversabilityGrid st)) radius q = true
          \/ inGrid (traversabilityGrid st) (gridp.1 + q.1, gridp.2 + q.2) = true)
    /\ markUnknownInRadiusAs median_of pose radius type st = Throw access_out_of_grid st'
    /\ st' = foldl (radius_step median_of gridp radius type) st before
    /\ (forall c,
          cell (traversabilityGrid st') c
          = if decide (c ∈ radius_cells (getGridResolution (traversabilityGrid st))
                             radius gridp before)
            then stamp_traversability type (cell (traversabilityGrid st) c)
            else cell (traversabilityGrid st) c)
    /\ (forall c,
          cell (laserGrid st') c
          = if decide (c ∈ radius_cells (getGridResolution (traversabilityGrid st))
                             radius gridp before)
            then stamp_radius_elevation median_of type (cell (traversabilityGrid st) c)
                   (cell (laserGrid st) c)
            else cell (laserGrid st) c)
    /\ (forall c,
          c ∈ radius_cells (getGridResolution (traversabilityGrid st)) radius gridp before ->
          is_unknown (cell (traversabilityGrid st) c) = true ->
          cell (traversabilityGrid st') c = type).
Proof.
  intros Hs Hpose Hrg Hlo (q & Hq & Hin & Hout).
  destruct (first_split
              (fun q => negb (outside_circle (getGridResolution (traversabilityGrid st))
                                radius q)
                        && negb (inGrid (traversabilityGrid st)
                                   (gridp.1 + q.1, gridp.2 + q.2)))
              (radius_offsets lo radiusGrid))
    as (before & xy & after & Hsplit & Hxy & Hbefore).
  { exists q. split; [exact Hq|]. now rewrite Hin, Hout. }
  apply andb_true_iff in Hxy as [Hxy1 Hxy2].
  apply negb_true_iff in Hxy1, Hxy2.
  assert (Hclear : forall y, y ∈ before ->
            outside_circle (getGridResolution (traversabilityGrid st)) radius y = true
            \/ inGrid (traversabilityGrid st) (gridp.1 + y.1, gridp.2 + y.2) = true).
  { intros y Hy. specialize (Hbefore y Hy). apply andb_false_iff in Hbefore.
    destruct Hbefore as [Hb|Hb]; apply negb_false_iff in Hb; auto. }
  assert (Hcells := fun c =>
            radius_steps_traversability median_of gridp radius type before st c Hs).
  exists before, xy, after,
    (foldl (radius_step median_of gridp radius type) st before).
  split; [exact Hsplit|]. split; [exact Hxy1|]. split; [exact Hxy2|].
  split; [exact Hclear|]. split.
  { now apply (radius_stamp_access_error median_of pose radius type st gridp radiusGrid
                 lo before xy after). }
  split; [reflexivity|]. split; [exact Hcells|]. split.
  - intros c. now apply radius_steps_laser.
  - intros c Hc Hu. rewrite Hcells, decide_True by exact Hc.
    unfold stamp_traversability. now rewrite Hu.
Qed.

Lemma radius_stamp_raises_witness :
  let st := Inputs.empty4 in
  let pose := Inputs.pose_at 0.5%float (-1.5)%float in
  let resolution := getGridResolution (traversabilityGrid st) in
  exists before xy after st',
    radius_offsets (-1) 1 = before ++ xy :: after
    /\ outside_circle resolution 1%float xy = false
    /\ inGrid (traversabilityGrid st) (2 + xy.1, 0 + xy.2) = false
    /\ (forall q, q ∈ before ->
          outside_circle resolution 1%float q = true
          \/ inGrid (traversabilityGrid st) (2 + q.1, 0 + q.2) = true)
    /\ markUnknownInRadiusAs Inputs.middle pose 1%float OBSTACLE st
       = Throw access_out_of_grid st'
    /\ st' = foldl (radius_step Inputs.middle (2, 0) 1%float OBSTACLE) st before
    /\ (forall c,
          cell (traversabilityGrid st') c
          = if decide (c ∈ radius_cells resolution 1%float (2, 0) before)
            then stamp_traversability OBSTACLE (cell (traversabilityGrid st) c)
            else cell (traversabilityGrid st) c)
    /\ (forall c,
          cell (laserGrid st') c
          = if decide (c ∈ radius_cells resolution 1%float (2, 0) before)
            then stamp_radius_elevation Inputs.middle OBSTACLE
                   (cell (traversabilityGrid st) c) (cell (laserGrid st) c)
            else cell (laserGrid st) c)
    /\ (forall c,
          c ∈ radius_cells resolution 1%float (2, 0) before ->
          is_unknown (cell (traversabilityGrid st) c) = true ->
          cell (traversabilityGrid st') c = OBSTACLE).
Proof.
  intros st pose resolution.
  apply (radius_stamp_raises Inputs.middle pose 1%float OBSTACLE st (2, 0) 1 (-1)).
  - split; split; reflexivity.
  - vm_compute. reflexivity.
  - vm_compute. reflexivity.
  - reflexivity.
  - exists (0, -1). split; [|split; vm_compute; reflexivity].
    apply list_elem_of_In. vm_compute. tauto.
Defined.
